(** * Payment reconciliation engine of lit-server

    A shallow embedding of the settlement service
    ([runSettlementPeriod], [simulateSettlement], [logSettlementError]) and of
    the webhook service ([mapTossStatusToOurStatus],
    [isValidStatusTransition], [checkWebhookIdempotency],
    [saveWebhookHistory], [handlePaymentStatusChanged],
    [handlePaymentCanceled], [processWebhook]), over the tables declared in
    the schema file; with them the webhook controller ([handleTossWebhook]),
    the payment service ([validateReservation], [generateOrderId],
    [createPayment], [updateReservationPaymentStatus]) and the handlers of
    the payment controller that write ([preparePayment], [confirmPayment],
    [cancelPayment]).

    Conventions.
    - A JavaScript number that holds an integer is a [Z]; [+] and [-] on
      integers below 2^53 in magnitude are exact in binary64
      ([reduce_amounts_exact] proves it of the sum of a group).  The one
      operation that leaves the integers, [totalSales * 0.2], is computed
      with the binary64 multiplication of [SpecFloat].
    - A table is the list of its rows in insertion order.
    - Every [connection.query] of the settlement service may raise, for a
      reason from outside or because the schema refuses what it writes: the
      environment [Env] says which ones do.
    - Instants ([Date], [DATETIME]) are integers (seconds).
    - The server runs in strict SQL mode, its default: a value that does not
      fit its column makes the statement raise. *)

From Stdlib Require Import ZArith Zpower List Ascii String Bool Lia Permutation.
From Stdlib Require Import QArith Qround DecimalString.
From Stdlib Require Import Floats.SpecFloat.
Import ListNotations.

Local Open Scope string_scope.
Local Open Scope list_scope.
Local Open Scope Z_scope.

(** ** JavaScript values met by the status tables *)

Module Js.

(** What a property read on an object literal can yield: [undefined], a
    string of the literal, or something inherited from
    [Object.prototype]. *)
Inductive value :=
| Undefined
| Str (s : string)
| Builtin (name : string).

Definition truthy (v : value) : bool :=
  match v with
  | Undefined => false
  | Str s => negb (String.eqb s "")
  | Builtin _ => true
  end.

(** [a || b] *)
Definition or (a b : value) : value := if truthy a then a else b.

Fixpoint assoc {A} (k : string) (l : list (string * A)) : option A :=
  match l with
  | [] => None
  | (k', v) :: rest => if String.eqb k k' then Some v else assoc k rest
  end.

(** The properties every object literal inherits: the members of
    [Object.prototype], and the [__proto__] accessor, which answers
    [Object.prototype] itself. *)
Definition Object_prototype : list (string * value) :=
  [ ("constructor", Builtin "Object");
    ("__defineGetter__", Builtin "Object.prototype.__defineGetter__");
    ("__defineSetter__", Builtin "Object.prototype.__defineSetter__");
    ("hasOwnProperty", Builtin "Object.prototype.hasOwnProperty");
    ("__lookupGetter__", Builtin "Object.prototype.__lookupGetter__");
    ("__lookupSetter__", Builtin "Object.prototype.__lookupSetter__");
    ("isPrototypeOf", Builtin "Object.prototype.isPrototypeOf");
    ("propertyIsEnumerable", Builtin "Object.prototype.propertyIsEnumerable");
    ("toString", Builtin "Object.prototype.toString");
    ("valueOf", Builtin "Object.prototype.valueOf");
    ("__proto__", Builtin "Object.prototype");
    ("toLocaleString", Builtin "Object.prototype.toLocaleString") ].

(** [literal[key]]: own properties first, then the prototype. *)
Definition get (literal : list (string * value)) (key : string) : value :=
  match assoc key literal with
  | Some v => v
  | None =>
      match assoc key Object_prototype with
      | Some v => v
      | None => Undefined
      end
  end.

Definition value_eqb (a b : value) : bool :=
  match a, b with
  | Undefined, Undefined => true
  | Str s, Str t => String.eqb s t
  | Builtin s, Builtin t => String.eqb s t
  | _, _ => false
  end.

(** [array.includes(v)] on an array of strings. *)
Definition includes (array : list string) (v : value) : bool :=
  existsb (fun s => value_eqb (Str s) v) array.

End Js.

(** ** Strings

    A string is the sequence of its UTF-8 bytes.  JavaScript counts a string
    in UTF-16 code units, the server counts a [VARCHAR] in characters. *)

(** A byte [10xxxxxx], which continues a character. *)
Definition is_continuation (a : ascii) : bool :=
  match a with
  | Ascii _ _ _ _ _ _ b6 b7 => b7 && negb b6
  end.

(** A byte [1111xxxx], which starts a character of four bytes: two code
    units in UTF-16. *)
Definition starts_pair (a : ascii) : bool :=
  match a with
  | Ascii _ _ _ _ b4 b5 b6 b7 => b7 && b6 && b5 && b4
  end.

(** [CHAR_LENGTH]: the bytes that start a character. *)
Fixpoint chars (s : string) : nat :=
  match s with
  | EmptyString => 0
  | String a rest => if is_continuation a then chars rest else S (chars rest)
  end.

(** U+FFFD, which takes the place of half a pair when a string is encoded. *)
Definition replacement_character : string :=
  String (ascii_of_nat 239) (String (ascii_of_nat 191)
    (String (ascii_of_nat 189) EmptyString)).

(** [s.slice(0, units)] *)
Fixpoint slice_units (units : nat) (s : string) : string :=
  match s with
  | EmptyString => EmptyString
  | String a rest =>
      if is_continuation a then String a (slice_units units rest)
      else
        match units with
        | O => EmptyString
        | S O =>
            if starts_pair a then replacement_character
            else String a (slice_units 0 rest)
        | S (S less) =>
            String a (slice_units (if starts_pair a then less else S less) rest)
        end
  end.

(** ** Status mapping and transition validation (webhook service) *)

Inductive PaymentStatus := PENDING | SUCCESS | FAILED | CANCELED | REFUNDED.

Definition status_name (s : PaymentStatus) : string :=
  match s with
  | PENDING => "PENDING"
  | SUCCESS => "SUCCESS"
  | FAILED => "FAILED"
  | CANCELED => "CANCELED"
  | REFUNDED => "REFUNDED"
  end.

Definition PaymentStatus_eqb (a b : PaymentStatus) : bool :=
  match a, b with
  | PENDING, PENDING | SUCCESS, SUCCESS | FAILED, FAILED
  | CANCELED, CANCELED | REFUNDED, REFUNDED => true
  | _, _ => false
  end.

Definition statusMap : list (string * Js.value) :=
  [ ("READY", Js.Str "PENDING");
    ("IN_PROGRESS", Js.Str "PENDING");
    ("WAITING_FOR_DEPOSIT", Js.Str "PENDING");
    ("DONE", Js.Str "SUCCESS");
    ("CANCELED", Js.Str "CANCELED");
    ("PARTIAL_CANCELED", Js.Str "CANCELED");
    ("ABORTED", Js.Str "FAILED");
    ("EXPIRED", Js.Str "FAILED") ].

(** [return statusMap[tossStatus] || 'PENDING';] *)
Definition mapTossStatusToOurStatus (tossStatus : string) : Js.value :=
  Js.or (Js.get statusMap tossStatus) (Js.Str "PENDING").

Definition validTransitions : list (string * list string) :=
  [ ("PENDING", ["SUCCESS"; "FAILED"; "CANCELED"]);
    ("SUCCESS", ["CANCELED"; "REFUNDED"]);
    ("FAILED", []);
    ("CANCELED", []);
    ("REFUNDED", []) ].

(** [return validTransitions[currentStatus]?.includes(newStatus) || false;]
    The current status is read from the [status] column, an ENUM of the five
    names, so the read always finds an own property. *)
Definition isValidStatusTransition
    (currentStatus : PaymentStatus) (newStatus : Js.value) : bool :=
  match Js.assoc (status_name currentStatus) validTransitions with
  | Some targets => Js.includes targets newStatus || false
  | None => false
  end.

(** ** Commission arithmetic

    [PLATFORM_COMMISSION_RATE = 0.2] is the binary64 number nearest to one
    fifth, [0x1.999999999999ap-3]; [totalSales * PLATFORM_COMMISSION_RATE]
    is the correctly rounded binary64 product. *)

Definition PLATFORM_COMMISSION_RATE : spec_float :=
  S754_finite false 7205759403792794 (-55).

(** The binary64 number of an integer (exact below 2^53). *)
Definition to_number (n : Z) : spec_float := binary_normalize 53 1024 n 0 false.

(** [Math.floor] of a finite binary64 number, as an integer. *)
Definition Math_floor (x : spec_float) : Z :=
  match x with
  | S754_finite s m e =>
      let v := if s then Zneg m else Zpos m in
      if 0 <=? e then v * 2 ^ e else v / 2 ^ (- e)
  | _ => 0
  end.

(** [Math.floor(totalSales * PLATFORM_COMMISSION_RATE)] *)
Definition commissionOf (totalSales : Z) : Z :=
  Math_floor (SFmul 53 1024 (to_number totalSales) PLATFORM_COMMISSION_RATE).

(** The same rate as the [DECIMAL(5,4)] column [commission_rate] stores it. *)
Definition commission_rate_decimal : Q := 2000 # 10000.

(** ** The ledger store *)

Record Payment := mkPayment {
  p_id : Z;
  p_store_id : string;
  p_reservation_id : option string;
  p_amount_total : Z;
  p_pg_payment_key : option string;
  p_pg_order_id : string;
  p_pg_method : string;
  p_status : PaymentStatus;
  p_paid_at : option Z;
  p_canceled_at : option Z;
  p_updated_at : Z;
  p_is_settled : bool;
  p_settlement_statement_id : option Z
}.

Record Reservation := mkReservation {
  r_id : string;
  r_status : string;
  r_payment_status : string;
  r_updated_at : Z
}.

(** The body of a gateway callback:
    [{ eventType, createdAt, data: { paymentKey, orderId, status,
       approvedAt, totalAmount, method, cancels } }].
    A missing [eventType] or [orderId] is the empty string (both are falsy);
    the other fields of [data] may be missing ([None]: [undefined] or
    [null]); [createdAt] and [cancels] are never read. *)
Record WebhookEvent := mkWebhookEvent {
  ev_eventType : string;
  ev_createdAt : Z;
  ev_paymentKey : option string;
  ev_orderId : string;
  ev_status : option string;
  ev_approvedAt : option Z;
  ev_totalAmount : option Z;
  ev_method : option string
}.

Record WebhookRow := mkWebhookRow {
  w_id : string;
  w_payment_id : Z;
  w_pg_order_id : string;
  w_pg_payment_key : option string;
  w_event_type : string;
  w_status : option string;            (* the column is nullable *)
  w_webhook_data : WebhookEvent;
  w_created_at : Z
}.

Inductive StatementStatus := St_pending | St_paid | St_failed.

Record Statement := mkStatement {
  s_id : Z;
  s_store_id : string;
  s_period_start : Z;
  s_period_end : Z;
  s_total_sales : Z;
  s_commission_rate : Q;
  s_commission_amount : Z;
  s_payout_amount : Z;
  s_status : StatementStatus;
  s_meta_note : string;
  s_meta_paymentsCount : Z;
  s_created_at : Z
}.

Record Item := mkItem {
  i_id : Z;
  i_statement_id : Z;
  i_payment_id : Z;
  i_amount : Z;
  i_created_at : Z
}.

Inductive LogStatus := Log_noop | Log_success | Log_failed.

Record LogRow := mkLogRow {
  l_id : Z;
  l_started_at : Z;
  l_ended_at : option Z;
  l_period_start : Z;
  l_period_end : Z;
  l_status : LogStatus;
  l_message : string;
  l_error_message : option string;
  l_total_payments : Z;
  l_total_statements : Z;
  l_success_payments : Z;
  l_skipped_payments : Z;
  l_total_payout : Z;
  l_total_commission : Z
}.

(** A row of the settlement query:
    [SELECT id, store_id, amount_total, paid_at FROM payments ...]. *)
Record Row := mkRow {
  id : Z;
  store_id : string;
  amount_total : Z;
  paid_at : Z
}.

(** What [logSettlementError] receives as [rawData]. *)
Inductive RawData :=
| RawTotals (totalSales periodStart periodEnd : Z)
| RawPayment (p : Row).

Record ErrorRow := mkErrorRow {
  e_settlement_log_id : option Z;
  e_type : string;
  e_payment_id : option Z;
  e_store_id : option string;
  e_statement_id : option Z;
  e_message : string;
  e_raw_data : option RawData;
  e_created_at : Z
}.

Record DB := mkDB {
  payments : list Payment;
  reservations : list Reservation;
  payment_webhooks : list WebhookRow;
  settlement_statements : list Statement;
  settlement_items : list Item;
  settlement_logs : list LogRow;
  settlement_errors : list ErrorRow
}.

Definition set_payments (v : list Payment) (db : DB) : DB :=
  mkDB v (reservations db) (payment_webhooks db) (settlement_statements db)
       (settlement_items db) (settlement_logs db) (settlement_errors db).

Definition set_reservations (v : list Reservation) (db : DB) : DB :=
  mkDB (payments db) v (payment_webhooks db) (settlement_statements db)
       (settlement_items db) (settlement_logs db) (settlement_errors db).

Definition set_payment_webhooks (v : list WebhookRow) (db : DB) : DB :=
  mkDB (payments db) (reservations db) v (settlement_statements db)
       (settlement_items db) (settlement_logs db) (settlement_errors db).

Definition set_settlement_statements (v : list Statement) (db : DB) : DB :=
  mkDB (payments db) (reservations db) (payment_webhooks db) v
       (settlement_items db) (settlement_logs db) (settlement_errors db).

Definition set_settlement_items (v : list Item) (db : DB) : DB :=
  mkDB (payments db) (reservations db) (payment_webhooks db)
       (settlement_statements db) v (settlement_logs db) (settlement_errors db).

Definition set_settlement_logs (v : list LogRow) (db : DB) : DB :=
  mkDB (payments db) (reservations db) (payment_webhooks db)
       (settlement_statements db) (settlement_items db) v (settlement_errors db).

Definition set_settlement_errors (v : list ErrorRow) (db : DB) : DB :=
  mkDB (payments db) (reservations db) (payment_webhooks db)
       (settlement_statements db) (settlement_items db) (settlement_logs db) v.

(** [insertId] of an AUTO_INCREMENT table: one more than the largest id. *)
Definition fresh_id (ids : list Z) : Z := 1 + fold_right Z.max 0 ids.

(** ** Transactions

    The statements a connection can be asked to run, one per call site. *)

Inductive Query :=
| Q_insert_log
| Q_select_payments
| Q_update_log_noop
| Q_update_log_dryrun
| Q_insert_statement (storeId : string)
| Q_update_payment (paymentId : Z)
| Q_insert_item (paymentId : Z)
| Q_update_log_success
| Q_update_log_failed
| Q_insert_error (type : string)
| W_select_payment (orderId : string)
| W_select_webhooks (orderId : string)
| W_insert_webhook (webhookId : string)
| W_update_payment (paymentId : Z)
| W_update_reservation (reservationId : string).

(** Storage engine of [settlement_logs] and [settlement_errors].  The schema
    file declares neither table; every table it does declare is InnoDB,
    which is also the server's default. *)
Inductive Engine := InnoDB | NonTransactional.

(** What a settlement run cannot decide by itself. *)
Record Env := mkEnv {
  clock : Z;                          (* [new Date()], [NOW()] *)
  fault : Query -> option string;     (* the statement raises, with this message:
                                         a lost connection, a refused value *)
  insertId_lost : string -> bool;     (* the statement insert reports no insertId *)
  log_engine : Engine
}.

(** An open transaction: [work] is what the connection sees, [base] what a
    rollback returns to, [trace] the statements run so far (latest first). *)
Record Tx := mkTx {
  base : DB;
  work : DB;
  trace : list Query
}.

Inductive outcome (A : Type) :=
| Done (a : A)
| Raised (message : string).
Arguments Done {A} a.
Arguments Raised {A} message.

Definition M (A : Type) : Type := Tx -> outcome A * Tx.

Definition ret {A} (a : A) : M A := fun tx => (Done a, tx).

Definition raise {A} (message : string) : M A := fun tx => (Raised message, tx).

Definition bind {A B} (c : M A) (k : A -> M B) : M B :=
  fun tx =>
    match c tx with
    | (Done a, tx') => k a tx'
    | (Raised e, tx') => (Raised e, tx')
    end.

(** [try { c } catch (e) { h e }] *)
Definition try_catch {A} (c : M A) (h : string -> M A) : M A :=
  fun tx =>
    match c tx with
    | (Done a, tx') => (Done a, tx')
    | (Raised e, tx') => h e tx'
    end.

Declare Scope tx_scope.
Delimit Scope tx_scope with tx.
Notation "x <- c1 ;; c2" := (bind c1 (fun x => c2))
  (at level 61, c1 at next level, right associativity) : tx_scope.
Notation "c1 ;; c2" := (bind c1 (fun _ => c2))
  (at level 61, right associativity) : tx_scope.
Local Open Scope tx_scope.

(** A statement that never raises: the oracle is not consulted. *)
Definition exec {A} (q : Query) (f : DB -> A * DB) : M A :=
  fun tx =>
    let '(a, db') := f (work tx) in
    (Done a, mkTx (base tx) db' (q :: trace tx)).

(** [await connection.query(...)] of the settlement service. *)
Definition query {A} (env : Env) (q : Query) (f : DB -> A * DB) : M A :=
  fun tx =>
    match fault env q with
    | Some message => (Raised message, tx)
    | None => exec q f tx
    end.

Definition beginTransaction (db : DB) : Tx := mkTx db db [].

Definition commit (tx : Tx) : DB := work tx.

Definition rollback (env : Env) (tx : Tx) : DB :=
  match log_engine env with
  | InnoDB => base tx
  | NonTransactional =>
      set_settlement_errors (settlement_errors (work tx))
        (set_settlement_logs (settlement_logs (work tx)) (base tx))
  end.

(** ** Settlement service *)

(** A period bound as the caller passes it. *)
Inductive JsArg :=
| Absent              (* [undefined], [null] or another falsy value *)
| NotDate             (* truthy, but not a [Date] *)
| DateAt (t : Z).

Record Entry := mkEntry {
  storeId : string;
  statementId : option Z;      (* [null] in a dry run *)
  totalSales : Z;
  commissionAmount : Z;
  payoutAmount : Z;
  paymentsCount : Z
}.

(** The three objects [runSettlementPeriod] can return. *)
Inductive Report :=
| NoopReport
| DryRunReport (totalPayments totalStatements : Z) (settlements : list Entry)
| SuccessReport (totalPayments totalStatements
                 successPaymentCount skippedPaymentCount
                 totalPayout totalCommission : Z) (settlements : list Entry).

Definition report_status (r : Report) : LogStatus :=
  match r with
  | NoopReport => Log_noop
  | DryRunReport _ _ _ => Log_success
  | SuccessReport _ _ _ _ _ _ _ => Log_success
  end.

Definition report_totalPayments (r : Report) : Z :=
  match r with
  | NoopReport => 0
  | DryRunReport n _ _ => n
  | SuccessReport n _ _ _ _ _ _ => n
  end.

Definition report_totalStatements (r : Report) : Z :=
  match r with
  | NoopReport => 0
  | DryRunReport _ n _ => n
  | SuccessReport _ n _ _ _ _ _ => n
  end.

Definition report_settlements (r : Report) : list Entry :=
  match r with
  | NoopReport => []
  | DryRunReport _ _ l => l
  | SuccessReport _ _ _ _ _ _ l => l
  end.

(** How a call ends: with a returned value, or with a thrown error. *)
Inductive completion (A : Type) :=
| Returned (a : A)
| Threw (message : string).
Arguments Returned {A} a.
Arguments Threw {A} message.

(** The monitoring counters and the result array of one run. *)
Record Counters := mkCounters {
  successPaymentCount : Z;
  skippedPaymentCount : Z;
  totalCommission : Z;
  totalPayout : Z;
  settlementsResult : list Entry
}.

Definition no_counters : Counters := mkCounters 0 0 0 0 [].

(** *** The eligible payments, in the order of the query *)

Definition in_window (periodStart periodEnd : Z) (t : option Z) : bool :=
  match t with
  | Some t => (periodStart <=? t) && (t <? periodEnd)
  | None => false
  end.

(** [WHERE status = 'SUCCESS' AND is_settled = 0 AND paid_at >= ? AND paid_at < ?] *)
Definition eligible (periodStart periodEnd : Z) (p : Payment) : bool :=
  PaymentStatus_eqb (p_status p) SUCCESS
  && negb (p_is_settled p)
  && in_window periodStart periodEnd (p_paid_at p).

Definition row_of (p : Payment) : Row :=
  mkRow (p_id p) (p_store_id p) (p_amount_total p)
        (match p_paid_at p with Some t => t | None => 0 end).

(** [ORDER BY store_id, paid_at] *)
Definition row_le (a b : Row) : bool :=
  String.ltb (store_id a) (store_id b)
  || (String.eqb (store_id a) (store_id b) && (paid_at a <=? paid_at b)).

Fixpoint insert_row (x : Row) (l : list Row) : list Row :=
  match l with
  | [] => [x]
  | y :: rest => if row_le x y then x :: l else y :: insert_row x rest
  end.

Definition order_rows (l : list Row) : list Row := fold_right insert_row [] l.

Definition select_eligible (periodStart periodEnd : Z) (db : DB) : list Row :=
  order_rows (map row_of (filter (eligible periodStart periodEnd) (payments db))).

(** *** Grouping by store: a [Map] keeps its keys in insertion order *)

Fixpoint push_group (p : Row) (storeMap : list (string * list Row))
  : list (string * list Row) :=
  match storeMap with
  | [] => [(store_id p, [p])]
  | (s, ps) :: rest =>
      if String.eqb s (store_id p) then (s, ps ++ [p]) :: rest
      else (s, ps) :: push_group p rest
  end.

Definition groupByStore (rows : list Row) : list (string * list Row) :=
  fold_left (fun storeMap p => push_group p storeMap) rows [].

(** [list.reduce((sum, p) => sum + p.amount_total, 0)], as the sum of
    integers: the total of a group as long as its additions are exact. *)
Definition sum_amounts (l : list Row) : Z :=
  fold_left (fun sum p => sum + amount_total p) l 0.


Definition count {A} (l : list A) : Z := Z.of_nat (List.length l).

(** *** Dry run *)

Fixpoint simulateStores (groups : list (string * list Row)) : list Entry :=
  match groups with
  | [] => []
  | (storeId, list) :: rest =>
      let totalSales := sum_amounts list in
      if totalSales <=? 0 then simulateStores rest
      else
        let commissionAmount := commissionOf totalSales in
        let payoutAmount := totalSales - commissionAmount in
        mkEntry storeId None totalSales commissionAmount payoutAmount (count list)
        :: simulateStores rest
  end.

(** Returns [(totalStatements, settlements)]. *)
Definition simulateSettlement (rows : list Row) : Z * list Entry :=
  let settlements := simulateStores (groupByStore rows) in
  (count settlements, settlements).

(** *** Statements of the mutating path *)

Definition update_log (logId : Z) (f : LogRow -> LogRow) (db : DB) : DB :=
  set_settlement_logs
    (map (fun l => if l_id l =? logId then f l else l) (settlement_logs db)) db.

(** [UPDATE payments SET is_settled = 1, settlement_statement_id = ?
     WHERE id = ? AND is_settled = 0]
    The rows of the window were read [FOR UPDATE] by the transaction that
    runs this statement, and InnoDB keeps their locks until it ends: no other
    transaction settles one of them in between, and the statement finds
    [is_settled] as the run left it.
    The column [updated_at] is declared [ON UPDATE CURRENT_TIMESTAMP]: a row
    the statement changes gets the time of the statement. *)
Definition claims (paymentId : Z) (p : Payment) : bool :=
  (p_id p =? paymentId) && negb (p_is_settled p).

Definition settle (now statementId : Z) (p : Payment) : Payment :=
  mkPayment (p_id p) (p_store_id p) (p_reservation_id p) (p_amount_total p)
            (p_pg_payment_key p) (p_pg_order_id p) (p_pg_method p) (p_status p)
            (p_paid_at p) (p_canceled_at p) now
            true (Some statementId).

(** Returns [affectedRows] with the store. *)
Definition claim_payment (now statementId paymentId : Z) (db : DB) : Z * DB :=
  (count (filter (claims paymentId) (payments db)),
   set_payments
     (map (fun p => if claims paymentId p then settle now statementId p else p)
          (payments db)) db).

Section Run.

Variable env : Env.

(** Best effort: a failure to write the error row is swallowed. *)
Definition logSettlementError
    (settlementLogId : option Z) (type : string)
    (paymentId : option Z) (storeId : option string) (statementId : option Z)
    (message : string) (rawData : option RawData) : M unit :=
  try_catch
    (query env (Q_insert_error type) (fun db =>
       (tt, set_settlement_errors
              (settlement_errors db ++
               [mkErrorRow settlementLogId type paymentId storeId statementId
                           message rawData (clock env)]) db)))
    (fun _ => ret tt).

Definition insert_log_skeleton (startedAt periodStart periodEnd : Z) : M Z :=
  query env Q_insert_log (fun db =>
    let logId := fresh_id (map l_id (settlement_logs db)) in
    (logId,
     set_settlement_logs
       (settlement_logs db ++
        [mkLogRow logId startedAt None periodStart periodEnd Log_noop
                  "정산 시작" None 0 0 0 0 0 0]) db)).

Definition insert_statement
    (storeId : string) (periodStart periodEnd : Z)
    (totalSales commissionAmount payoutAmount paymentsCount : Z) : M Z :=
  query env (Q_insert_statement storeId) (fun db =>
    let newId := fresh_id (map s_id (settlement_statements db)) in
    (if insertId_lost env storeId then 0 else newId,
     set_settlement_statements
       (settlement_statements db ++
        [mkStatement newId storeId periodStart periodEnd totalSales
                     commission_rate_decimal commissionAmount payoutAmount
                     St_pending "자동 정산 생성" paymentsCount (clock env)]) db)).

(** The rows of the window are locked by the [SELECT ... FOR UPDATE] of this
    transaction until it ends: what the conditional update finds is what the
    transaction itself left. *)
Definition update_payment (statementId : Z) (p : Row) : M Z :=
  query env (Q_update_payment (id p))
        (claim_payment (clock env) statementId (id p)).

Definition insert_item (statementId : Z) (p : Row) : M unit :=
  query env (Q_insert_item (id p)) (fun db =>
    (tt, set_settlement_items
           (settlement_items db ++
            [mkItem (fresh_id (map i_id (settlement_items db)))
                    statementId (id p) (amount_total p) (clock env)]) db)).

(** The inner loop: [for (const p of storePayments)]. *)
Fixpoint settlePayments
    (logId : Z) (storeId : string) (statementId : Z)
    (storePayments : list Row) (c : Counters) : M Counters :=
  match storePayments with
  | [] => ret c
  | p :: rest =>
      affectedRows <- update_payment statementId p ;;
      if affectedRows =? 0 then
        let c := mkCounters (successPaymentCount c) (skippedPaymentCount c + 1)
                            (totalCommission c) (totalPayout c)
                            (settlementsResult c) in
        logSettlementError (Some logId) "PAYMENT_ALREADY_SETTLED"
          (Some (id p)) (Some storeId) (Some statementId)
          "payments UPDATE affectedRows = 0 (이미 정산됨)"
          (Some (RawPayment p)) ;;
        settlePayments logId storeId statementId rest c
      else
        let c := mkCounters (successPaymentCount c + 1) (skippedPaymentCount c)
                            (totalCommission c) (totalPayout c)
                            (settlementsResult c) in
        try_catch (insert_item statementId p)
          (fun e =>
             logSettlementError (Some logId) "ITEM_INSERT_FAIL"
               (Some (id p)) (Some storeId) (Some statementId) e
               (Some (RawPayment p)) ;;
             raise e) ;;
        settlePayments logId storeId statementId rest c
  end.

(** The outer loop: [for (const [storeId, storePayments] of storeMap.entries())]. *)
Fixpoint settleStores
    (logId periodStart periodEnd : Z)
    (groups : list (string * list Row)) (c : Counters) : M Counters :=
  match groups with
  | [] => ret c
  | (storeId, storePayments) :: rest =>
      let totalSales := sum_amounts storePayments in
      if totalSales <=? 0 then
        settleStores logId periodStart periodEnd rest
          (mkCounters (successPaymentCount c)
                      (skippedPaymentCount c + count storePayments)
                      (totalCommission c) (totalPayout c) (settlementsResult c))
      else
        let commissionAmount := commissionOf totalSales in
        let payoutAmount := totalSales - commissionAmount in
        statementId <-
          try_catch
            (insert_statement storeId periodStart periodEnd totalSales
               commissionAmount payoutAmount (count storePayments))
            (fun e =>
               logSettlementError (Some logId) "STATEMENT_INSERT_FAIL"
                 None (Some storeId) None e
                 (Some (RawTotals totalSales periodStart periodEnd)) ;;
               raise e) ;;
        (if statementId =? 0 then
           logSettlementError (Some logId) "STATEMENT_INSERT_NO_ID"
             None (Some storeId) None "statementId가 없습니다."
             (Some (RawTotals totalSales periodStart periodEnd)) ;;
           raise ("정산 명세 INSERT 실패: storeId=" ++ storeId)%string
         else ret tt) ;;
        let c := mkCounters (successPaymentCount c) (skippedPaymentCount c)
                            (totalCommission c + commissionAmount)
                            (totalPayout c + payoutAmount)
                            (settlementsResult c) in
        c <- settlePayments logId storeId statementId storePayments c ;;
        settleStores logId periodStart periodEnd rest
          (mkCounters (successPaymentCount c) (skippedPaymentCount c)
                      (totalCommission c) (totalPayout c)
                      (settlementsResult c ++
                       [mkEntry storeId (Some statementId) totalSales
                                commissionAmount payoutAmount
                                (count storePayments)]))
  end.

Definition finish_log (status : LogStatus) (message : string)
    (totalPayments totalStatements : Z) (c : Counters) (l : LogRow) : LogRow :=
  mkLogRow (l_id l) (l_started_at l) (Some (clock env))
           (l_period_start l) (l_period_end l) status message
           (l_error_message l) totalPayments totalStatements
           (successPaymentCount c) (skippedPaymentCount c)
           (totalPayout c) (totalCommission c).

(** [SET ended_at = ?, status='noop', message='정산 대상 없음', total_payments = 0] *)
Definition log_noop (l : LogRow) : LogRow :=
  mkLogRow (l_id l) (l_started_at l) (Some (clock env))
           (l_period_start l) (l_period_end l) Log_noop "정산 대상 없음"
           (l_error_message l) 0 (l_total_statements l)
           (l_success_payments l) (l_skipped_payments l)
           (l_total_payout l) (l_total_commission l).

(** [SET ended_at = ?, status='success', message='드라이런 완료',
     total_payments = ?, total_statements = ?] *)
Definition log_dryrun (totalPayments totalStatements : Z) (l : LogRow) : LogRow :=
  mkLogRow (l_id l) (l_started_at l) (Some (clock env))
           (l_period_start l) (l_period_end l) Log_success "드라이런 완료"
           (l_error_message l) totalPayments totalStatements
           (l_success_payments l) (l_skipped_payments l)
           (l_total_payout l) (l_total_commission l).

(** [SET ended_at = ?, status = 'failed', message = '정산 실패', error_message = ?] *)
Definition log_failed (errorMessage : string) (l : LogRow) : LogRow :=
  mkLogRow (l_id l) (l_started_at l) (Some (clock env))
           (l_period_start l) (l_period_end l) Log_failed "정산 실패"
           (Some errorMessage) (l_total_payments l) (l_total_statements l)
           (l_success_payments l) (l_skipped_payments l)
           (l_total_payout l) (l_total_commission l).

(** The [try] block from the query of the payments to its [return]. *)
Definition settle_period
    (logId periodStart periodEnd : Z) (dryRun : bool) : M Report :=
  rows <- query env Q_select_payments
            (fun db => (select_eligible periodStart periodEnd db, db)) ;;
  let totalPayments := count rows in
  if totalPayments =? 0 then
    query env Q_update_log_noop (fun db => (tt, update_log logId log_noop db)) ;;
    ret NoopReport
  else if dryRun then
    let '(totalStatements, settlements) := simulateSettlement rows in
    query env Q_update_log_dryrun
      (fun db => (tt, update_log logId
                        (log_dryrun totalPayments totalStatements) db)) ;;
    ret (DryRunReport totalPayments totalStatements settlements)
  else
    c <- settleStores logId periodStart periodEnd (groupByStore rows)
           no_counters ;;
    query env Q_update_log_success
      (fun db => (tt, update_log logId
                        (finish_log Log_success "정산 완료" totalPayments
                           (count (settlementsResult c)) c) db)) ;;
    ret (SuccessReport totalPayments (count (settlementsResult c))
           (successPaymentCount c) (skippedPaymentCount c)
           (totalPayout c) (totalCommission c) (settlementsResult c)).

(** [err.message.slice(0, 1000)]: the first thousand UTF-16 code units.  A
    character outside the basic plane takes two; when the cut falls between
    them, the half that is left is sent to the server as U+FFFD. *)
Definition truncated (message : string) : string := slice_units 1000 message.

(** The [catch] block: record the failure when the run has a log row,
    swallowing a failure to do so, then roll back. *)
Definition fail_run (logId : option Z) (message : string) (tx : Tx) : DB :=
  match logId with
  | Some logId =>
      rollback env
        (snd (try_catch
                (query env Q_update_log_failed
                   (fun db => (tt, update_log logId
                                     (log_failed (truncated message)) db)))
                (fun _ => ret tt) tx))
  | None => rollback env tx
  end.

Definition runSettlementPeriod
    (periodStart periodEnd : JsArg) (dryRun : bool) (db : DB)
  : completion Report * DB :=
  match periodStart, periodEnd with
  | Absent, _ | _, Absent =>
      (Threw "periodStart, periodEnd 는 필수입니다.", db)
  | NotDate, _ | _, NotDate =>
      (Threw "periodStart, periodEnd 는 Date 객체여야 합니다.", db)
  | DateAt periodStart, DateAt periodEnd =>
      if periodEnd <=? periodStart then
        (Threw "periodEnd 는 periodStart 보다 이후여야 합니다.", db)
      else
        match insert_log_skeleton (clock env) periodStart periodEnd
                (beginTransaction db) with
        | (Raised e, tx) => (Threw e, fail_run None e tx)
        | (Done logId, tx) =>
            match settle_period logId periodStart periodEnd dryRun tx with
            | (Done report, tx') => (Returned report, commit tx')
            | (Raised e, tx') => (Threw e, fail_run (Some logId) e tx')
            end
        end
  end.

End Run.

(** ** What the schema refuses *)

(** The values of the two ENUM columns of [reservations]. *)
Definition reservation_status_values : list string :=
  ["pending"; "pending_approval"; "confirmed"; "rejected"; "in_progress";
   "completed"; "cancelled"].

Definition reservation_payment_status_values : list string :=
  ["pending"; "paid"; "refunded"].

Definition INT_UNSIGNED_MAX : Z := 4294967295.

(** More characters than a [VARCHAR(n)] holds. *)
Definition too_long (n : nat) (s : string) : bool := (n <? chars s)%nat.

Definition too_long_or_null (n : nat) (s : option string) : bool :=
  match s with
  | Some s => too_long n s
  | None => false
  end.

Definition not_among (values : list string) (s : string) : bool :=
  negb (existsb (String.eqb s) values).

(** ** Webhook service

    Every [connection.query] of the webhook service may raise: for a reason
    from outside (a lost connection, a lock wait that times out), which the
    oracle [fault] gives, or because the schema refuses what the statement
    writes.  The text of a server error depends on the server; the model
    names the error and the column. *)

Record Reply := mkReply {
  success : bool;
  message : string
}.

(** [x || y] on a string that may be missing. *)
Definition or_string (x : option string) (y : string) : string :=
  match x with
  | Some s => if String.eqb s "" then y else s
  | None => y
  end.

(** [x || y] on a number that may be missing. *)
Definition or_number (x : option Z) (y : Z) : Z :=
  match x with
  | Some n => if n =? 0 then y else n
  | None => y
  end.

(** [x || null] *)
Definition or_null (x : option string) : option string :=
  match x with
  | Some s => if String.eqb s "" then None else Some s
  | None => None
  end.

Definition truthy_string (x : option string) : bool :=
  match or_null x with
  | Some _ => true
  | None => false
  end.

(** The key of [statusMap[tossStatus]]: a missing status reads the property
    [undefined]. *)
Definition property_key (x : option string) : string :=
  match x with
  | Some s => s
  | None => "undefined"
  end.

(** The look-back of the idempotency check: [INTERVAL 1 HOUR]. *)
Definition recency_window : Z := 3600.

(** [WHERE pg_order_id = ? AND event_type = ? AND status = ?
     AND created_at >= DATE_SUB(NOW(), INTERVAL 1 HOUR)]
    A missing status is bound as NULL, and [status = NULL] holds of no row;
    nor does a row whose status is NULL equal a status. *)
Definition same_webhook (now : Z) (orderId eventType : string)
    (status : option string) (w : WebhookRow) : bool :=
  String.eqb (w_pg_order_id w) orderId
  && String.eqb (w_event_type w) eventType
  && match status, w_status w with
     | Some status, Some recorded => String.eqb recorded status
     | _, _ => false
     end
  && (now - recency_window <=? w_created_at w).

(** The row [saveWebhookHistory] inserts is refused when a field is longer
    than its column or the id is taken. *)
Definition webhook_row_refused (row : WebhookRow) (db : DB) : option string :=
  if too_long 100 (w_id row) then Some "Data too long for column 'id'"
  else if too_long 100 (w_pg_order_id row) then
    Some "Data too long for column 'pg_order_id'"
  else if too_long_or_null 100 (w_pg_payment_key row) then
    Some "Data too long for column 'pg_payment_key'"
  else if too_long 50 (w_event_type row) then
    Some "Data too long for column 'event_type'"
  else if too_long_or_null 30 (w_status row) then
    Some "Data too long for column 'status'"
  else if existsb (fun w => String.eqb (w_id w) (w_id row)) (payment_webhooks db)
  then Some "Duplicate entry for key 'PRIMARY'"
  else None.

(** Another payment holds the key: the unique index on [pg_payment_key]
    (which admits any number of NULLs). *)
Definition key_held_by_another (paymentId : Z) (paymentKey : option string)
    (db : DB) : bool :=
  match paymentKey with
  | Some key =>
      existsb (fun p =>
                 negb (p_id p =? paymentId)
                 && match p_pg_payment_key p with
                    | Some k => String.eqb k key
                    | None => false
                    end) (payments db)
  | None => false
  end.

(** The update of a payment to SUCCESS is refused, when there is a row to
    write, for a key or a method longer than its column, an amount outside
    [INT UNSIGNED], or a key that another payment holds. *)
Definition payment_update_refused
    (paymentId : Z) (paymentKey : option string) (method : string) (amount : Z)
    (db : DB) : option string :=
  if negb (existsb (fun p => p_id p =? paymentId) (payments db)) then None
  else if too_long_or_null 100 paymentKey then
    Some "Data too long for column 'pg_payment_key'"
  else if too_long 30 method then Some "Data too long for column 'pg_method'"
  else if (amount <? 0) || (INT_UNSIGNED_MAX <? amount) then
    Some "Out of range value for column 'amount_total'"
  else if key_held_by_another paymentId paymentKey db then
    Some "Duplicate entry for key 'idx_payments_pg_payment_key'"
  else None.

(** The update of a reservation is refused, when there is a row to write,
    for a value that its ENUM does not have; [status] is [None] when the
    statement leaves the column alone. *)
Definition reservation_update_refused
    (reservationId : string) (status : option string) (payment_status : string)
    (db : DB) : option string :=
  if negb (existsb (fun r => String.eqb (r_id r) reservationId) (reservations db))
  then None
  else if match status with
          | Some status => not_among reservation_status_values status
          | None => false
          end
  then Some "Data truncated for column 'status'"
  else if not_among reservation_payment_status_values payment_status then
    Some "Data truncated for column 'payment_status'"
  else None.

Definition update_payment_where_id (paymentId : Z) (f : Payment -> Payment)
    (db : DB) : unit * DB :=
  (tt, set_payments
         (map (fun p => if p_id p =? paymentId then f p else p) (payments db)) db).

Definition update_reservation_where_id (reservationId : string)
    (f : Reservation -> Reservation) (db : DB) : unit * DB :=
  (tt, set_reservations
         (map (fun r => if String.eqb (r_id r) reservationId then f r else r)
              (reservations db)) db).

Section Webhook.

(** Which statements raise for a reason from outside, and how. *)
Variable fault : Query -> option string.

(** [await connection.query(...)] of the webhook service. *)
Definition statement {A} (q : Query) (refused : DB -> option string)
    (f : DB -> A * DB) : M A :=
  fun tx =>
    match fault q with
    | Some message => (Raised message, tx)
    | None =>
        match refused (work tx) with
        | Some message => (Raised message, tx)
        | None => exec q f tx
        end
    end.

Definition accepted (db : DB) : option string := None.

Definition checkWebhookIdempotency
    (now : Z) (orderId eventType : string) (status : option string) : M bool :=
  existingWebhooks <-
    statement (W_select_webhooks orderId) accepted (fun db =>
      (filter (same_webhook now orderId eventType status) (payment_webhooks db),
       db)) ;;
  ret (0 <? count existingWebhooks).

(** The id [webhook_${Date.now()}_${random}] is chosen by the caller of the
    model. *)
Definition saveWebhookHistory
    (webhookId : string) (now : Z) (paymentId : Z) (orderId : string)
    (paymentKey : option string) (eventType : string) (status : option string)
    (rawData : WebhookEvent) : M string :=
  let row := mkWebhookRow webhookId paymentId orderId (or_null paymentKey)
                          eventType status rawData now in
  statement (W_insert_webhook webhookId) (webhook_row_refused row) (fun db =>
    (webhookId, set_payment_webhooks (payment_webhooks db ++ [row]) db)).

(** [if (payment.reservation_id) { UPDATE reservations SET ... WHERE id = ? }] *)
Definition when_reservation (payment : Payment)
    (status : option string) (payment_status : string)
    (f : Reservation -> Reservation) : M unit :=
  match or_null (p_reservation_id payment) with
  | Some reservationId =>
      statement (W_update_reservation reservationId)
                (reservation_update_refused reservationId status payment_status)
                (update_reservation_where_id reservationId f)
  | None => ret tt
  end.

Definition handlePaymentStatusChanged
    (now : Z) (payment : Payment)
    (paymentKey : option string) (status : option string)
    (approvedAt : option Z) (totalAmount : option Z) (method : option string)
  : M unit :=
  let ourStatus := mapTossStatusToOurStatus (property_key status) in
  if Js.value_eqb ourStatus (Js.Str "SUCCESS") then
    statement (W_update_payment (p_id payment))
      (payment_update_refused (p_id payment) paymentKey
         (or_string method (p_pg_method payment))
         (or_number totalAmount (p_amount_total payment)))
      (update_payment_where_id (p_id payment) (fun p =>
         mkPayment (p_id p) (p_store_id p) (p_reservation_id p)
                   (or_number totalAmount (p_amount_total payment))
                   paymentKey (p_pg_order_id p)
                   (or_string method (p_pg_method payment))
                   SUCCESS
                   (Some (match approvedAt with Some t => t | None => now end))
                   (p_canceled_at p) now
                   (p_is_settled p) (p_settlement_statement_id p))) ;;
    when_reservation payment (Some "confirmed") "paid" (fun r =>
      mkReservation (r_id r) "confirmed" "paid" now)
  else if Js.value_eqb ourStatus (Js.Str "FAILED") then
    statement (W_update_payment (p_id payment)) accepted
      (update_payment_where_id (p_id payment) (fun p =>
         mkPayment (p_id p) (p_store_id p) (p_reservation_id p)
                   (p_amount_total p) (p_pg_payment_key p) (p_pg_order_id p)
                   (p_pg_method p) FAILED (p_paid_at p) (p_canceled_at p) now
                   (p_is_settled p) (p_settlement_statement_id p))) ;;
    when_reservation payment None "failed" (fun r =>
      mkReservation (r_id r) (r_status r) "failed" now)
  else ret tt.

Definition handlePaymentCanceled (now : Z) (payment : Payment) : M unit :=
  statement (W_update_payment (p_id payment)) accepted
    (update_payment_where_id (p_id payment) (fun p =>
       mkPayment (p_id p) (p_store_id p) (p_reservation_id p)
                 (p_amount_total p) (p_pg_payment_key p) (p_pg_order_id p)
                 (p_pg_method p) CANCELED (p_paid_at p) (Some now) now
                 (p_is_settled p) (p_settlement_statement_id p))) ;;
  when_reservation payment (Some "canceled") "refunded" (fun r =>
    mkReservation (r_id r) "canceled" "refunded" now).

(** The transaction of [processWebhook], from the locking read to the
    [return]. *)
Definition reconcile (webhookId : string) (now : Z) (webhookData : WebhookEvent)
  : M Reply :=
  let eventType := ev_eventType webhookData in
  let orderId := ev_orderId webhookData in
  let status := ev_status webhookData in
  found <- statement (W_select_payment orderId) accepted (fun db =>
             (filter (fun p => String.eqb (p_pg_order_id p) orderId)
                     (payments db), db)) ;;
  match found with
  | [] => raise ("존재하지 않는 주문: " ++ orderId)%string
  | payment :: _ =>
      isAlreadyProcessed <- checkWebhookIdempotency now orderId eventType status ;;
      if isAlreadyProcessed then
        ret (mkReply true "Already processed (idempotent)")
      else
        saveWebhookHistory webhookId now (p_id payment) orderId
          (ev_paymentKey webhookData) eventType status webhookData ;;
        let currentStatus := p_status payment in
        let newStatus := mapTossStatusToOurStatus (property_key status) in
        if negb (isValidStatusTransition currentStatus newStatus) then
          ret (mkReply false "Invalid status transition")
        else
          (if String.eqb eventType "PAYMENT_STATUS_CHANGED" then
             handlePaymentStatusChanged now payment
               (ev_paymentKey webhookData) status (ev_approvedAt webhookData)
               (ev_totalAmount webhookData) (ev_method webhookData)
           else if String.eqb eventType "PAYMENT_CANCELED" then
             handlePaymentCanceled now payment
           else ret tt) ;;
          ret (mkReply true "Webhook processed successfully")
  end.

(** Returns how the call ended, the store afterwards, and the statements
    the connection ran, in order.  An error, thrown by the code or raised by
    a statement, rolls the transaction back and is thrown again. *)
Definition processWebhook
    (webhookId : string) (now : Z) (webhookData : WebhookEvent) (db : DB)
  : completion Reply * DB * list Query :=
  if String.eqb (ev_eventType webhookData) ""
     || String.eqb (ev_orderId webhookData) "" then
    (Threw "웹훅 필수 필드 누락", db, [])
  else
    match reconcile webhookId now webhookData (beginTransaction db) with
    | (Done reply, tx) => (Returned reply, commit tx, rev (trace tx))
    | (Raised e, tx) => (Threw e, base tx, rev (trace tx))
    end.

End Webhook.

(** The statements of a trace that write to [payments]. *)
Definition writes_payments (q : Query) : bool :=
  match q with
  | W_update_payment _ | Q_update_payment _ => true
  | _ => false
  end.

(** The statements of a trace that write to [reservations]. *)
Definition writes_reservations (q : Query) : bool :=
  match q with
  | W_update_reservation _ => true
  | _ => false
  end.

(** ** Webhook controller *)



(** ** Payment service and payment controller

    The statements of the payment API run on the pool, outside a
    transaction: each is committed as it is run.  The errors that the
    unique indexes of [payments] decide are modelled (a second row with the
    same [pg_order_id] or [pg_payment_key]), and an amount beyond the range
    of [INT UNSIGNED] (strict SQL mode, the default of the server); the
    statements of [preparePayment] can also raise for a reason given from
    outside.  The selects and the updates of [confirmPayment] and
    [cancelPayment] are taken to run.

    The fields of a request body have the types the handlers expect: strings,
    and whole numbers for the amounts.  Keys are compared exactly, as in the
    webhook service above; the collation of the tables
    ([utf8mb4_unicode_ci]) also equates keys that differ in case only, which
    the model does not follow. *)

(** What a handler sends, or that its promise rejects without an answer. *)
Inductive Body :=
| Prepared (order_id : string) (amount : Z)
| Confirmed
| Canceled
| Failure (code message : string).

Inductive Handled :=
| Sent (status : Z) (body : Body)
| Rejected (error : string).

(** [!x] on a number that may be missing. *)
Definition falsy_number (x : option Z) : bool :=
  match x with
  | Some n => n =? 0
  | None => true
  end.

(** [`ORDER_${timestamp}_${randomStr}`]; the clock and the six characters
    drawn from [Math.random()] are given. *)
Definition generateOrderId (timestamp : Z) (randomStr : string) : string :=
  "ORDER_" ++ NilZero.string_of_int (Z.to_int timestamp) ++ "_" ++ randomStr.

(** [INSERT INTO payments (..., status, ...) VALUES (..., 'PENDING', ...)];
    the columns left out take their defaults ([is_settled] 0, the dates
    NULL).  [insert_fault] is any other reason for the statement to raise
    (an unknown store, a lost connection). *)
Definition createPayment
    (insert_fault : option string)
    (now : Z) (storeId : string) (reservationId : option string) (amount : Z)
    (orderId : string) (db : DB) : completion string * DB :=
  if (amount <? 0) || (INT_UNSIGNED_MAX <? amount) then
    (Threw "Out of range value for column 'amount_total'", db)
  else if existsb (fun p => String.eqb (p_pg_order_id p) orderId) (payments db) then
    (Threw "Duplicate entry for key 'idx_payments_pg_order_id'", db)
  else
    match insert_fault with
    | Some err => (Threw err, db)
    | None =>
        (Returned orderId,
         set_payments
           (payments db ++
            [mkPayment (fresh_id (map p_id (payments db))) storeId
                       (or_null reservationId) amount None orderId "UNKNOWN"
                       PENDING None None now false None]) db)
    end.

(** [if (!reservationId) return;] then the update of [payment_status], which
    raises for a reason from outside ([update_fault]) or for a status that
    the ENUM does not have. *)
Definition updateReservationPaymentStatus
    (update_fault : option string)
    (now : Z) (reservationId : option string) (status : string) (db : DB)
  : completion unit * DB :=
  match or_null reservationId with
  | None => (Returned tt, db)
  | Some reservationId =>
      match update_fault with
      | Some err => (Threw err, db)
      | None =>
          match reservation_update_refused reservationId None status db with
          | Some err => (Threw err, db)
          | None =>
              (Returned tt,
               snd (update_reservation_where_id reservationId
                      (fun r => mkReservation (r_id r) (r_status r) status now)
                      db))
          end
      end
  end.

Section PaymentApi.

(** The column [customer_id] of [reservations], by reservation id ([None]
    is NULL); no statement of the services here writes it. *)
Variable customer_id : string -> option string.

(** Whether, and how, the three statements of [preparePayment] raise: the
    select of the reservation, the insert into [payments], the update of
    the reservation. *)
Variable select_fault : option string.
Variable insert_fault : option string.
Variable update_fault : option string.

(** [SELECT * FROM reservations WHERE id = ? AND customer_id = ?] *)
Definition owned_by (reservationId userId : string) (r : Reservation) : bool :=
  String.eqb (r_id r) reservationId
  && match customer_id (r_id r) with
     | Some c => String.eqb c userId
     | None => false
     end.

Definition validateReservation (reservationId userId : string) (db : DB)
  : completion Reservation :=
  match select_fault with
  | Some err => Threw err
  | None =>
      match filter (owned_by reservationId userId) (reservations db) with
      | [] => Threw "예약 정보를 찾을 수 없습니다"
      | reservation :: _ =>
          if String.eqb (r_payment_status reservation) "paid"
          then Threw "이미 결제된 예약입니다"
          else Returned reservation
      end
  end.

(** The body of [POST /api/payments/prepare]; [customer_email] and
    [customer_name] are only echoed. *)
Record PrepareRequest := mkPrepareRequest {
  q_store_id : option string;
  q_user_id : option string;
  q_amount : option Z;
  q_order_name : option string;
  q_reservation_id : option string
}.

Definition preparePayment
    (now timestamp : Z) (randomStr : string) (req : PrepareRequest) (db : DB)
  : Handled * DB :=
  if negb (truthy_string (q_store_id req)) || negb (truthy_string (q_user_id req))
     || falsy_number (q_amount req) || negb (truthy_string (q_order_name req))
  then (Sent 400 (Failure "VALIDATION_ERROR" "필수 정보가 누락되었습니다"), db)
  else
    let store_id := or_string (q_store_id req) "" in
    let user_id := or_string (q_user_id req) "" in
    let amount := or_number (q_amount req) 0 in
    if amount <? 100 then
      (Sent 400 (Failure "VALIDATION_ERROR"
                   "결제 금액은 최소 100원 이상이어야 합니다"), db)
    else
      match
        match or_null (q_reservation_id req) with
        | Some reservation_id =>
            match validateReservation reservation_id user_id db with
            | Threw validationError => Some validationError
            | Returned _ => None
            end
        | None => None
        end
      with
      | Some validationError =>
          (Sent 400 (Failure "RESERVATION_VALIDATION_FAILED" validationError), db)
      | None =>
          let orderId := generateOrderId timestamp randomStr in
          match createPayment insert_fault now store_id (q_reservation_id req)
                  amount orderId db with
          | (Threw err, db1) =>
              (Sent 500 (Failure "PAYMENT_PREPARE_FAILED"
                           "결제 준비 중 오류가 발생했습니다"), db1)
          | (Returned _, db1) =>
              (* the insert is committed: the statements run on the pool *)
              match updateReservationPaymentStatus update_fault now
                      (q_reservation_id req) "pending" db1 with
              | (Threw err, db2) =>
                  (Sent 500 (Failure "PAYMENT_PREPARE_FAILED"
                               "결제 준비 중 오류가 발생했습니다"), db2)
              | (Returned _, db2) => (Sent 200 (Prepared orderId amount), db2)
              end
          end
      end.

End PaymentApi.

(** What the gateway answers to a call of its API. *)
Inductive TossReply :=
| TossOk (method : option string)           (* 2xx, with [data.method] *)
| TossRefused (status : Z) (message : option string)
                                            (* another status: [err.response] is set,
                                               [message] from its JSON body *)
| TossUnreachable (message : string).       (* no answer: [err.response] is undefined *)

(** The body of [POST /api/payments/confirm]. *)
Record ConfirmRequest := mkConfirmRequest {
  c_paymentKey : option string;
  c_orderId : option string;
  c_amount : option Z
}.

(** [UPDATE payments SET pg_payment_key = ?, pg_method = ?, status = ?,
     paid_at = NOW(), updated_at = NOW() WHERE pg_order_id = ?] *)
Definition confirm_row (now : Z) (paymentKey method : string) (p : Payment)
  : Payment :=
  mkPayment (p_id p) (p_store_id p) (p_reservation_id p) (p_amount_total p)
            (Some paymentKey) (p_pg_order_id p) method SUCCESS (Some now)
            (p_canceled_at p) now (p_is_settled p) (p_settlement_statement_id p).

(** Another row holds the key already: the unique index refuses the update
    ([pg_order_id] is unique as well, so the update reaches one row at
    most). *)
Definition key_taken (paymentKey orderId : string) (db : DB) : bool :=
  existsb (fun p =>
             match p_pg_payment_key p with
             | Some k => String.eqb k paymentKey
                         && negb (String.eqb (p_pg_order_id p) orderId)
             | None => false
             end) (payments db).

Definition confirmPayment
    (now : Z) (toss : TossReply) (req : ConfirmRequest) (db : DB)
  : Handled * DB :=
  if negb (truthy_string (c_paymentKey req)) || negb (truthy_string (c_orderId req))
     || falsy_number (c_amount req)
  then (Sent 400 (Failure "VALIDATION_ERROR" "필수 정보가 누락되었습니다"), db)
  else
    let paymentKey := or_string (c_paymentKey req) "" in
    let orderId := or_string (c_orderId req) "" in
    let amount := or_number (c_amount req) 0 in
    match filter (fun p => String.eqb (p_pg_order_id p) orderId) (payments db) with
    | [] => (Sent 404 (Failure "PAYMENT_NOT_FOUND" "결제 정보를 찾을 수 없습니다"), db)
    | payment :: _ =>
        if negb (p_amount_total payment =? amount) then
          (Sent 400 (Failure "AMOUNT_MISMATCH" "결제 금액이 일치하지 않습니다"), db)
        else if PaymentStatus_eqb (p_status payment) SUCCESS then
          (Sent 400 (Failure "ALREADY_CONFIRMED" "이미 승인된 결제입니다"), db)
        else
          match toss with
          | TossOk method =>
              if key_taken paymentKey orderId db then
                (Sent 500 (Failure "PAYMENT_CONFIRM_FAILED"
                             "결제 승인 중 오류가 발생했습니다"), db)
              else
                (Sent 200 Confirmed,
                 set_payments
                   (map (fun p =>
                           if String.eqb (p_pg_order_id p) orderId
                           then confirm_row now paymentKey
                                  (or_string method "CARD") p
                           else p) (payments db)) db)
          | TossRefused _ _ =>
              (* the [catch] block reads [orderId], which is declared in
                 the [try] block and out of scope there *)
              (Rejected "orderId is not defined", db)
          | TossUnreachable _ =>
              (Sent 500 (Failure "PAYMENT_CONFIRM_FAILED"
                           "결제 승인 중 오류가 발생했습니다"), db)
          end
    end.

(** What the gateway answers to a cancellation. *)
Inductive TossCancelReply :=
| CancelOk (first_cancel : bool)   (* 2xx; whether [data.cancels[0]] is there *)
| CancelRefused (status : Z) (message : option string)
| CancelUnreachable (message : string).

(** [UPDATE payments SET status = ?, canceled_at = NOW(), updated_at = NOW()
     WHERE pg_payment_key = ?] *)
Definition cancel_row (now : Z) (p : Payment) : Payment :=
  mkPayment (p_id p) (p_store_id p) (p_reservation_id p) (p_amount_total p)
            (p_pg_payment_key p) (p_pg_order_id p) (p_pg_method p) CANCELED
            (p_paid_at p) (Some now) now
            (p_is_settled p) (p_settlement_statement_id p).

Definition has_key (paymentKey : string) (p : Payment) : bool :=
  match p_pg_payment_key p with
  | Some k => String.eqb k paymentKey
  | None => false
  end.

(** [POST /api/payments/:paymentKey/cancel] with [cancelReason] in the body. *)
Definition cancelPayment
    (now : Z) (toss : TossCancelReply) (paymentKey : string)
    (cancelReason : option string) (db : DB) : Handled * DB :=
  if negb (truthy_string cancelReason) then
    (Sent 400 (Failure "VALIDATION_ERROR" "취소 사유가 필요합니다"), db)
  else
    match filter (has_key paymentKey) (payments db) with
    | [] => (Sent 404 (Failure "PAYMENT_NOT_FOUND" "결제 정보를 찾을 수 없습니다"), db)
    | payment :: _ =>
        if negb (PaymentStatus_eqb (p_status payment) SUCCESS) then
          (Sent 400 (Failure "INVALID_PAYMENT_STATUS"
                       "취소할 수 없는 결제 상태입니다"), db)
        else
          match toss with
          | CancelOk first_cancel =>
              let db' :=
                set_payments
                  (map (fun p => if has_key paymentKey p then cancel_row now p
                                 else p) (payments db)) db in
              if first_cancel then (Sent 200 Canceled, db')
              else
                (* [tossResponse.data.cancels[0].canceledAt] raises a
                   TypeError after the update is committed *)
                (Sent 500 (Failure "PAYMENT_CANCEL_FAILED"
                             "결제 취소 중 오류가 발생했습니다"), db')
          | CancelRefused status message =>
              (Sent status (Failure "PAYMENT_CANCEL_FAILED"
                              (or_string message "결제 취소에 실패했습니다")), db)
          | CancelUnreachable _ =>
              (Sent 500 (Failure "PAYMENT_CANCEL_FAILED"
                           "결제 취소 중 오류가 발생했습니다"), db)
          end
    end.

(** * Vocabulary of the properties *)

(** Two stores that differ at most in [settlement_logs]. *)
Definition same_ledger (a b : DB) : Prop :=
  payments a = payments b
  /\ reservations a = reservations b
  /\ payment_webhooks a = payment_webhooks b
  /\ settlement_statements a = settlement_statements b
  /\ settlement_items a = settlement_items b
  /\ settlement_errors a = settlement_errors b.

(** The store ids of a list of rows, in the order of first appearance. *)
Definition add_store (s : string) (acc : list string) : list string :=
  if existsb (String.eqb s) acc then acc else acc ++ [s].

Definition stores (rows : list Row) : list string :=
  fold_left (fun acc r => add_store (store_id r) acc) rows [].

Definition rows_of_store (s : string) (rows : list Row) : list Row :=
  filter (fun r => String.eqb s (store_id r)) rows.

(** A payment row before and after conditional updates on the ids [I]:
    untouched, or claimed once while it was unsettled. *)
Definition claimed_within (I : list Z) (p p' : Payment) : Prop :=
  p' = p
  \/ (In (p_id p) I /\ p_is_settled p = false
      /\ exists now sid, p' = settle now sid p).

(** Every payment with an id in [I] is settled. *)
Definition settled (I : list Z) (db : DB) : Prop :=
  forall p, In p (payments db) -> In (p_id p) I -> p_is_settled p = true.

Definition positive (g : string * list Row) : bool :=
  negb (sum_amounts (snd g) <=? 0).

(** The payment ids of the groups that get a statement. *)
Definition positive_ids (groups : list (string * list Row)) : list Z :=
  flat_map (fun g => map id (snd g)) (filter positive groups).

Definition rows_in (groups : list (string * list Row)) : Z :=
  fold_right (fun g n => count (snd g) + n) 0 groups.

(** An entry of the result array without its statement id. *)
Definition dry (e : Entry) : Entry :=
  mkEntry (storeId e) None (totalSales e) (commissionAmount e)
          (payoutAmount e) (paymentsCount e).

(** Two states of the store apart by conditional updates on the ids [I]
    and nothing else. *)
Definition claims_only (I : list Z) (a b : DB) : Prop :=
  Forall2 (claimed_within I) (payments a) (payments b)
  /\ same_ledger (set_payments (payments a) b) a
  /\ settlement_logs b = settlement_logs a.

(** Two states of the store apart by conditional updates on the ids [I]
    and appended statements, items and errors. *)
Definition grown (I : list Z) (a b : DB) : Prop :=
  Forall2 (claimed_within I) (payments a) (payments b)
  /\ reservations b = reservations a
  /\ payment_webhooks b = payment_webhooks a
  /\ settlement_logs b = settlement_logs a
  /\ (exists L, settlement_statements b = settlement_statements a ++ L)
  /\ (exists L, settlement_items b = settlement_items a ++ L)
  /\ (exists L, settlement_errors b = settlement_errors a ++ L).

(** How a transaction moved: the side a rollback returns to, and the
    working side with the inserts of the transaction. *)
Definition advanced (I : list Z) (tx tx' : Tx) : Prop :=
  claims_only I (base tx) (base tx') /\ grown I (work tx) (work tx').

(** A statement written for one of the groups that has sales. *)
Definition statement_of (groups : list (string * list Row)) (st : Statement) : Prop :=
  exists rows,
    In (s_store_id st, rows) groups
    /\ positive (s_store_id st, rows) = true
    /\ s_total_sales st = sum_amounts rows.

Definition sum_commission (l : list Entry) : Z :=
  fold_right (fun e n => commissionAmount e + n) 0 l.

Definition sum_payout (l : list Entry) : Z :=
  fold_right (fun e n => payoutAmount e + n) 0 l.

Definition report_successPaymentCount (r : Report) : Z :=
  match r with
  | SuccessReport _ _ n _ _ _ _ => n
  | _ => 0
  end.

Definition report_skippedPaymentCount (r : Report) : Z :=
  match r with
  | SuccessReport _ _ _ n _ _ _ => n
  | _ => 0
  end.

(** The three updates of [payments] keep the order id of every row. *)
Definition keeps_order_id (f : Payment -> Payment) : Prop :=
  forall p, p_pg_order_id (f p) = p_pg_order_id p.






(** A computation that leaves alone the side a rollback returns to. *)
Definition keeps_base {A} (c : M A) : Prop :=
  forall tx out tx', c tx = (out, tx') -> base tx' = base tx.

Definition report_totalPayout (r : Report) : Z :=
  match r with
  | SuccessReport _ _ _ _ n _ _ => n
  | _ => 0
  end.

Definition report_totalCommission (r : Report) : Z :=
  match r with
  | SuccessReport _ _ _ _ _ n _ => n
  | _ => 0
  end.

Definition sum_sales (l : list Entry) : Z :=
  fold_right (fun e n => totalSales e + n) 0 l.

(** The amounts of all groups, summed. *)
Definition sales_in (groups : list (string * list Row)) : Z :=
  fold_right (fun g n => sum_amounts (snd g) + n) 0 groups.

(** The entry of the result array that describes a statement. *)
Definition entry_of_statement (st : Statement) : Entry :=
  mkEntry (s_store_id st) (Some (s_id st)) (s_total_sales st)
          (s_commission_amount st) (s_payout_amount st) (s_meta_paymentsCount st).

(** No payment is in two settlement items, and a payment that is in one
    is marked as settled. *)
Definition settled_once (db : DB) : Prop :=
  NoDup (map i_payment_id (settlement_items db))
  /\ forall it p, In it (settlement_items db) -> In p (payments db) ->
                  p_id p = i_payment_id it -> p_is_settled p = true.

(** Both sides of an open transaction have one item per payment. *)
Definition both_once (tx : Tx) : Prop :=
  settled_once (base tx) /\ settled_once (work tx).

Definition keeps_once {A} (c : M A) : Prop :=
  forall tx out tx', both_once tx -> c tx = (out, tx') -> both_once tx'.

(** A payment row as it was, or written at [now]. *)
Definition stamped (now : Z) (p p' : Payment) : Prop :=
  p' = p \/ p_updated_at p' = now.

(** A computation that writes payment rows at [now] only. *)
Definition keeps_stamp {A} (now : Z) (c : M A) : Prop :=
  forall tx out tx',
    c tx = (out, tx') ->
    Forall2 (stamped now) (payments (work tx)) (payments (work tx')).

(** Two stores that differ at most in [settlement_errors]. *)
Definition same_but_errors (a b : DB) : Prop :=
  payments a = payments b
  /\ reservations a = reservations b
  /\ payment_webhooks a = payment_webhooks b
  /\ settlement_statements a = settlement_statements b
  /\ settlement_items a = settlement_items b
  /\ settlement_logs a = settlement_logs b.

Definition alike (a b : Tx) : Prop :=
  same_but_errors (base a) (base b) /\ same_but_errors (work a) (work b).

(** Two environments that differ at most in whether the inserts into
    [settlement_errors] raise. *)
Definition same_but_error_faults (env1 env2 : Env) : Prop :=
  clock env1 = clock env2
  /\ (forall s, insertId_lost env1 s = insertId_lost env2 s)
  /\ log_engine env1 = log_engine env2
  /\ (forall q, (forall t, q <> Q_insert_error t) -> fault env1 q = fault env2 q).

(** Two computations that, from like transactions, end alike. *)
Definition sim {A} (c1 c2 : M A) : Prop :=
  forall tx1 tx2, alike tx1 tx2 ->
    fst (c1 tx1) = fst (c2 tx2) /\ alike (snd (c1 tx1)) (snd (c2 tx2)).

(** One step of a payment's status that the transition table allows, or
    none. *)
Definition along_the_table (p p' : Payment) : Prop :=
  p_status p' = p_status p
  \/ isValidStatusTransition (p_status p) (Js.Str (status_name (p_status p'))) = true.

(** The columns of [payments] that settlement owns, with the keys. *)
Definition settlement_columns (p : Payment)
  : Z * string * option string * string * bool * option Z :=
  (p_id p, p_store_id p, p_reservation_id p, p_pg_order_id p,
   p_is_settled p, p_settlement_statement_id p).

(** An event that no handler acts on. *)
Definition inert (ev : WebhookEvent) : bool :=
  if String.eqb (ev_eventType ev) "PAYMENT_STATUS_CHANGED" then
    negb (Js.value_eqb (mapTossStatusToOurStatus (property_key (ev_status ev)))
                       (Js.Str "SUCCESS"))
    && negb (Js.value_eqb (mapTossStatusToOurStatus (property_key (ev_status ev)))
                          (Js.Str "FAILED"))
  else negb (String.eqb (ev_eventType ev) "PAYMENT_CANCELED").

(** A store on which the event can change no payment: it is refused, or
    its payment cannot make the transition, or no handler acts on it. *)
Definition quiescent (ev : WebhookEvent) (db : DB) : Prop :=
  String.eqb (ev_eventType ev) "" || String.eqb (ev_orderId ev) "" = true
  \/ match filter (fun p => String.eqb (p_pg_order_id p) (ev_orderId ev))
                  (payments db) with
     | [] => True
     | payment :: _ =>
         isValidStatusTransition (p_status payment)
           (mapTossStatusToOurStatus (property_key (ev_status ev))) = false
         \/ inert ev = true
     end.

(** A delivery: the event with what the service meets, the statements that
    raise, the id and the time it gives the event. *)
Record Delivery := mkDelivery {
  d_fault : Query -> option string;
  d_webhookId : string;
  d_now : Z;
  d_event : WebhookEvent
}.

(** The store after one delivery, and after several in a row. *)
Definition deliver (db : DB) (d : Delivery) : DB :=
  snd (fst (processWebhook (d_fault d) (d_webhookId d) (d_now d) (d_event d) db)).

Definition deliver_all (l : list Delivery) (db : DB) : DB :=
  fold_left deliver l db.

(** No statement raises for a reason from outside. *)
Definition no_fault : Query -> option string := fun _ => None.

Definition terminal (s : PaymentStatus) : Prop :=
  s = FAILED \/ s = CANCELED \/ s = REFUNDED.

(** What a delivery at [now] can do to a reservation row. *)
Definition reservation_step (now : Z) (r r' : Reservation) : Prop :=
  r' = r
  \/ r' = mkReservation (r_id r) "confirmed" "paid" now
  \/ r' = mkReservation (r_id r) (r_status r) "failed" now
  \/ r' = mkReservation (r_id r) "canceled" "refunded" now.

(** The one step that the ENUM columns accept. *)
Definition reservation_confirmed (now : Z) (r r' : Reservation) : Prop :=
  r' = r \/ r' = mkReservation (r_id r) "confirmed" "paid" now.

(** Two stores with the same settlement tables. *)
Definition same_settlement_tables (a b : DB) : Prop :=
  settlement_statements a = settlement_statements b
  /\ settlement_items a = settlement_items b
  /\ settlement_logs a = settlement_logs b
  /\ settlement_errors a = settlement_errors b.

(** * Example stores *)

(** No statement raises, log tables as the others. *)
Definition quiet : Env :=
  mkEnv 100 (fun _ => None) (fun _ => false) InnoDB.

Definition paid (i : Z) (store order : string) (amount at_ : Z) : Payment :=
  mkPayment i store None amount None order "CARD" SUCCESS (Some at_) None 0
            false None.

(** Merchant M with two paid charges in the window, merchant A with one
    charge of nothing. *)
Definition ledger : DB :=
  mkDB [paid 1 "M" "order-1" 15000 10; paid 2 "M" "order-2" 25000 20;
        paid 3 "A" "order-3" 0 5] [] [] [] [] [] [].

Definition settled_ledger : completion Report * DB :=
  Eval vm_compute in runSettlementPeriod quiet (DateAt 0) (DateAt 50) false ledger.

Definition dry_ledger : completion Report * DB :=
  Eval vm_compute in runSettlementPeriod quiet (DateAt 0) (DateAt 50) true ledger.

Definition settled_report : Report :=
  SuccessReport 3 1 2 1 32000 8000 [mkEntry "M" (Some 1) 40000 8000 32000 2].

Definition dry_report : Report :=
  DryRunReport 3 1 [mkEntry "M" None 40000 8000 32000 2].

(** The insert of the item of payment 2 raises. *)
Definition item_fails : Env :=
  mkEnv 100
    (fun q => match q with
              | Q_insert_item 2 => Some "Duplicate entry"
              | _ => None
              end)
    (fun _ => false) InnoDB.

(** The same, with log tables on an engine without transactions. *)
Definition item_fails_untransacted : Env :=
  mkEnv 100 (fault item_fails) (fun _ => false) NonTransactional.







(** A payment that failed, and the gateway reporting it DONE. *)
Definition failed_ledger : DB :=
  mkDB [mkPayment 7 "M" None 5000 None "order-7" "CARD" FAILED None None 0
                  false None] [] [] [] [] [] [].

Definition pending_ledger : DB :=
  mkDB [mkPayment 7 "M" None 5000 None "order-7" "UNKNOWN" PENDING None None 0
                  false None] [] [] [] [] [] [].

Definition done_event : WebhookEvent :=
  mkWebhookEvent "PAYMENT_STATUS_CHANGED" 0 (Some "pk-7") "order-7" (Some "DONE")
                 (Some 1000) (Some 5000) (Some "CARD").

Definition first_delivery : completion Reply * DB * list Query :=
  Eval vm_compute in
    processWebhook no_fault "webhook-1" 1000 done_event pending_ledger.

Definition first_rejected : completion Reply * DB * list Query :=
  Eval vm_compute in
    processWebhook no_fault "webhook-1" 1000 done_event failed_ledger.

(** The insert of the item of payment 2 raises, and so does the insert of
    the error row that reports it; log tables without transactions. *)
Definition item_fails_unlogged : Env :=
  mkEnv 100
    (fun q => match q with
              | Q_insert_item 2 => Some "Duplicate entry"
              | Q_insert_error _ => Some "Table 'settlement_errors' doesn't exist"
              | _ => None
              end)
    (fun _ => false) NonTransactional.

(** A payment waiting for its confirmation, made for a reservation. *)
Definition booked_ledger : DB :=
  mkDB [mkPayment 7 "M" (Some "res-1") 5000 None "order-7" "UNKNOWN" PENDING
                  None None 0 false None]
       [mkReservation "res-1" "pending" "pending" 0] [] [] [] [] [].

Definition booked_delivery : completion Reply * DB * list Query :=
  Eval vm_compute in
    processWebhook no_fault "webhook-1" 1000 done_event booked_ledger.

(** The customer of reservation [res-1]. *)
Definition owner (reservationId : string) : option string :=
  if String.eqb reservationId "res-1" then Some "user-1" else None.

Definition walk_in : PrepareRequest :=
  mkPrepareRequest (Some "M") (Some "user-1") (Some 5000) (Some "two bags") None.

Definition rebooking : PrepareRequest :=
  mkPrepareRequest (Some "M") (Some "user-1") (Some 5000) (Some "two bags")
                   (Some "res-1").

Definition confirmation : ConfirmRequest :=
  mkConfirmRequest (Some "pk-7") (Some "order-7") (Some 5000).

Definition cancel_event : WebhookEvent :=
  mkWebhookEvent "PAYMENT_CANCELED" 0 (Some "pk-7") "order-7" (Some "CANCELED")
                 None None None.

(** The update of the payment waits for a lock until it times out. *)
Definition lock_timeout (q : Query) : option string :=
  match q with
  | W_update_payment _ => Some "Lock wait timeout exceeded"
  | _ => None
  end.


(** A payment prepared for reservation [res-1] whose update raises. *)
Definition half_prepared : Handled * DB :=
  Eval vm_compute in
    preparePayment owner None None (Some "Lock wait timeout exceeded")
                   1000 1700000000000 "K3J9QX" rebooking booked_ledger.

(** * Properties *)

(** ** Status mapping *)

Lemma mapTossStatus_table :
  forall k v, In (k, v) statusMap -> mapTossStatusToOurStatus k = v.
Proof.
  intros k v H. simpl in H.
  repeat (destruct H as [H | H]; [inversion H; subst; reflexivity |]).
  contradiction.
Qed.

Lemma mapTossStatus_own_default :
  forall s,
    Js.assoc s statusMap = None ->
    Js.assoc s Js.Object_prototype = None ->
    mapTossStatusToOurStatus s = Js.Str "PENDING".
Proof.
  intros s H1 H2. unfold mapTossStatusToOurStatus, Js.get.
  rewrite H1, H2. reflexivity.
Qed.

(** C9 (fails on the code).  The status [constructor] is not in the table,
    yet [mapTossStatusToOurStatus] does not answer PENDING for it: the read
    [statusMap[tossStatus]] finds the inherited [Object.prototype.constructor],
    which is truthy, so the [|| 'PENDING'] default is not taken and a function
    object is returned. *)
Theorem mapTossStatus_inherited_key :
  Js.assoc "constructor" statusMap = None
  /\ mapTossStatusToOurStatus "constructor" = Js.Builtin "Object"
  /\ mapTossStatusToOurStatus "constructor" <> Js.Str "PENDING".
Proof.
  split; [reflexivity | split; [reflexivity | discriminate]].
Qed.

(** The transition table, entry by entry. *)
Lemma isValidStatusTransition_table :
  forall current next,
    isValidStatusTransition current (Js.Str (status_name next)) =
    match current, next with
    | PENDING, (SUCCESS | FAILED | CANCELED) => true
    | SUCCESS, (CANCELED | REFUNDED) => true
    | _, _ => false
    end.
Proof. intros [] []; reflexivity. Qed.

Lemma terminal_has_no_transition :
  forall current v,
    current = FAILED \/ current = CANCELED \/ current = REFUNDED ->
    isValidStatusTransition current v = false.
Proof. intros current v [H | [H | H]]; subst; reflexivity. Qed.

(** ** Tables touched by a transaction *)

Lemma same_ledger_refl : forall a, same_ledger a a.
Proof. intro a. repeat split. Qed.

Lemma same_ledger_logs : forall v a, same_ledger (set_settlement_logs v a) a.
Proof. intros v a. repeat split. Qed.

Lemma same_ledger_trans :
  forall a b c, same_ledger a b -> same_ledger b c -> same_ledger a c.
Proof.
  unfold same_ledger. intros a b c H1 H2.
  destruct H1 as (?&?&?&?&?&?), H2 as (?&?&?&?&?&?).
  repeat split; congruence.
Qed.

Lemma rollback_same_ledger :
  forall env tx,
    same_ledger (work tx) (base tx) -> same_ledger (rollback env tx) (base tx).
Proof.
  intros env tx H. unfold rollback.
  destruct (log_engine env); [apply same_ledger_refl |].
  destruct H as (?&?&?&?&?&He).
  repeat split; simpl; auto.
Qed.

(** A dry run between the log skeleton and its return touches the log only. *)
Lemma settle_period_dry_run :
  forall env logId periodStart periodEnd tx,
    same_ledger (work tx) (base tx) ->
    let r := settle_period env logId periodStart periodEnd true tx in
    base (snd r) = base tx /\ same_ledger (work (snd r)) (base tx).
Proof.
  intros env logId periodStart periodEnd tx H. cbv zeta.
  unfold settle_period, bind, query, exec, ret.
  destruct (fault env Q_select_payments); [simpl; auto |].
  cbn [work base trace fst snd].
  destruct (count (select_eligible periodStart periodEnd (work tx)) =? 0).
  - destruct (fault env Q_update_log_noop); cbn [work base trace fst snd];
      (split; [reflexivity |]); [exact H |].
    eapply same_ledger_trans; [apply same_ledger_logs | exact H].
  - destruct (simulateSettlement _) as [totalStatements settlements].
    destruct (fault env Q_update_log_dryrun); cbn [work base trace fst snd];
      (split; [reflexivity |]); [exact H |].
    eapply same_ledger_trans; [apply same_ledger_logs | exact H].
Qed.

Lemma fail_run_same_ledger :
  forall env logId message tx,
    same_ledger (work tx) (base tx) ->
    same_ledger (fail_run env logId message tx) (base tx).
Proof.
  intros env logId message tx H. unfold fail_run.
  destruct logId as [logId |]; [| apply rollback_same_ledger; exact H].
  unfold try_catch, query, exec, ret.
  destruct (fault env Q_update_log_failed); simpl.
  - apply rollback_same_ledger; exact H.
  - apply (rollback_same_ledger env (mkTx (base tx) _ _)). simpl.
    eapply same_ledger_trans; [apply same_ledger_logs | exact H].
Qed.

(** A dry run writes the log only, however it ends. *)
Lemma dry_run_same_ledger :
  forall env periodStart periodEnd db,
    same_ledger (snd (runSettlementPeriod env periodStart periodEnd true db)) db.
Proof.
  intros env periodStart periodEnd db.
  unfold runSettlementPeriod.
  destruct periodStart as [| | ps], periodEnd as [| | pe];
    try apply same_ledger_refl.
  destruct (pe <=? ps); [apply same_ledger_refl |].
  unfold insert_log_skeleton, query, exec, beginTransaction.
  destruct (fault env Q_insert_log) as [e |].
  - apply (fail_run_same_ledger env None e (mkTx db db [])).
    apply same_ledger_refl.
  - cbn [work base trace].
    match goal with
    | |- context [settle_period env ?l ps pe true ?t] =>
        pose proof (settle_period_dry_run env l ps pe t) as D;
        destruct (settle_period env l ps pe true t) as [[report | e] tx']
    end; cbn [work base trace fst snd] in D;
      destruct D as [Hb Hw]; try apply same_ledger_logs.
    + exact Hw.
    + cbn [snd].
      pose proof (fail_run_same_ledger env
                    (Some (fresh_id (map l_id (settlement_logs db)))) e tx') as F.
      rewrite Hb in F. exact (F Hw).
Qed.

(** C7.  A dry run, however it ends (a returned report or a thrown error,
    whatever statements raise), leaves the payments (so their [is_settled]
    flags and [settlement_statement_id] references), the settlement
    statements and the settlement items as they were; the other tables
    outside the log are untouched as well. *)
Theorem dry_run_writes_only_the_log :
  forall env periodStart periodEnd db,
    let db' := snd (runSettlementPeriod env periodStart periodEnd true db) in
    payments db' = payments db
    /\ settlement_statements db' = settlement_statements db
    /\ settlement_items db' = settlement_items db
    /\ same_ledger db' db.
Proof.
  intros env periodStart periodEnd db. cbv zeta.
  pose proof (dry_run_same_ledger env periodStart periodEnd db) as H.
  destruct H as (?&?&?&?&?&?). repeat split; assumption.
Qed.

(** ** Sums and groups *)

Lemma fold_sum_shift :
  forall l z, fold_left (fun sum p => sum + amount_total p) l z = z + sum_amounts l.
Proof.
  unfold sum_amounts. induction l as [| x l IH]; intro z; simpl.
  - lia.
  - rewrite IH, (IH (amount_total x)). lia.
Qed.





Lemma existsb_eqb_In :
  forall s l, existsb (String.eqb s) l = true <-> In s l.
Proof.
  intros s l. rewrite existsb_exists. split.
  - intros [x [Hx E]]. apply String.eqb_eq in E. subst. exact Hx.
  - intro H. exists s. split; [exact H | apply String.eqb_refl].
Qed.

Lemma stores_snoc :
  forall l x, stores (l ++ [x]) = add_store (store_id x) (stores l).
Proof. intros l x. unfold stores. rewrite fold_left_app. reflexivity. Qed.

Lemma stores_In :
  forall l s, In s (stores l) <-> exists r, In r l /\ store_id r = s.
Proof.
  induction l as [| x l IH] using rev_ind; intro s.
  - simpl. split; [contradiction | intros [r [[] _]]].
  - rewrite stores_snoc. unfold add_store.
    destruct (existsb (String.eqb (store_id x)) (stores l)) eqn:E.
    + rewrite IH. apply existsb_eqb_In in E. apply IH in E.
      split.
      * intros [r [Hr Hs]]. exists r. split; [apply in_or_app; auto | exact Hs].
      * intros [r [Hr Hs]]. apply in_app_or in Hr. destruct Hr as [Hr | [-> | []]].
        -- exists r; auto.
        -- destruct E as [r' [Hr' Hs']]. exists r'. split; congruence.
    + rewrite in_app_iff, IH. simpl. split.
      * intros [[r [Hr Hs]] | [<- | []]].
        -- exists r. split; [apply in_or_app; auto | exact Hs].
        -- exists x. split; [apply in_or_app; simpl; auto | reflexivity].
      * intros [r [Hr Hs]]. apply in_app_or in Hr. destruct Hr as [Hr | [-> | []]].
        -- left. exists r; auto.
        -- right. left. exact Hs.
Qed.

Lemma stores_NoDup : forall l, NoDup (stores l).
Proof.
  induction l as [| x l IH] using rev_ind; [constructor |].
  rewrite stores_snoc. unfold add_store.
  destruct (existsb (String.eqb (store_id x)) (stores l)) eqn:E; [exact IH |].
  apply NoDup_app; [exact IH | repeat constructor; simpl; tauto |].
  intros s Hs [<- | []].
  apply existsb_eqb_In in Hs. congruence.
Qed.

Lemma rows_of_store_snoc :
  forall s l x,
    rows_of_store s (l ++ [x]) =
    rows_of_store s l ++ (if String.eqb s (store_id x) then [x] else []).
Proof. intros s l x. unfold rows_of_store. rewrite filter_app. reflexivity. Qed.

Lemma push_group_known :
  forall x l keys,
    NoDup keys ->
    In (store_id x) keys ->
    push_group x (map (fun s => (s, rows_of_store s l)) keys) =
    map (fun s => (s, rows_of_store s (l ++ [x]))) keys.
Proof.
  intros x l keys. induction keys as [| k keys IH]; intros ND Hin; [contradiction |].
  simpl. inversion ND as [| ? ? Hk ND']; subst.
  rewrite rows_of_store_snoc.
  destruct (String.eqb k (store_id x)) eqn:E.
  - f_equal. apply String.eqb_eq in E. subst k.
    apply map_ext_in. intros s Hs. rewrite rows_of_store_snoc.
    destruct (String.eqb s (store_id x)) eqn:E'; [| rewrite app_nil_r; reflexivity].
    apply String.eqb_eq in E'. subst s. contradiction.
  - rewrite app_nil_r. f_equal. apply IH; [exact ND' |].
    destruct Hin as [-> | Hin]; [| exact Hin].
    rewrite String.eqb_refl in E. discriminate.
Qed.

Lemma push_group_new :
  forall x l keys,
    ~ In (store_id x) keys ->
    rows_of_store (store_id x) l = [] ->
    push_group x (map (fun s => (s, rows_of_store s l)) keys) =
    map (fun s => (s, rows_of_store s (l ++ [x]))) (keys ++ [store_id x]).
Proof.
  intros x l keys. induction keys as [| k keys IH]; intros Hin Hnone.
  - simpl. rewrite rows_of_store_snoc, Hnone, String.eqb_refl. reflexivity.
  - simpl. rewrite rows_of_store_snoc.
    destruct (String.eqb k (store_id x)) eqn:E.
    + apply String.eqb_eq in E. subst k. exfalso. apply Hin. simpl. auto.
    + rewrite app_nil_r. f_equal. apply IH; [| exact Hnone].
      intro H. apply Hin. simpl. auto.
Qed.

Lemma rows_of_store_none :
  forall s l, ~ In s (stores l) -> rows_of_store s l = [].
Proof.
  intros s l H. unfold rows_of_store.
  destruct (filter _ l) as [| r rest] eqn:E; [reflexivity |].
  exfalso. apply H. apply stores_In. exists r.
  assert (Hr : In r (filter (fun r => String.eqb s (store_id r)) l))
    by (rewrite E; simpl; auto).
  apply filter_In in Hr. destruct Hr as [Hr Hs].
  apply String.eqb_eq in Hs. auto.
Qed.

(** The map built by the grouping loop: one entry per store, in the order
    of first appearance, holding the rows of that store in their order. *)
Theorem groupByStore_spec :
  forall l, groupByStore l = map (fun s => (s, rows_of_store s l)) (stores l).
Proof.
  unfold groupByStore.
  induction l as [| x l IH] using rev_ind; [reflexivity |].
  rewrite fold_left_app. simpl. rewrite IH, stores_snoc. unfold add_store.
  destruct (existsb (String.eqb (store_id x)) (stores l)) eqn:E.
  - apply push_group_known; [apply stores_NoDup | apply existsb_eqb_In; exact E].
  - assert (~ In (store_id x) (stores l))
      by (intro H; apply existsb_eqb_In in H; congruence).
    apply push_group_new; [assumption | apply rows_of_store_none; assumption].
Qed.

Lemma groupByStore_In :
  forall l s rows,
    In (s, rows) (groupByStore l) ->
    rows = rows_of_store s l /\ In s (stores l).
Proof.
  intros l s rows H. rewrite groupByStore_spec in H.
  apply in_map_iff in H. destruct H as [k [E Hk]].
  inversion E; subst. auto.
Qed.


Lemma rows_of_store_In :
  forall s l r, In r (rows_of_store s l) <-> In r l /\ store_id r = s.
Proof.
  intros s l r. unfold rows_of_store. rewrite filter_In.
  split; intros [H1 H2]; split; auto.
  - symmetry. apply String.eqb_eq. exact H2.
  - subst. apply String.eqb_refl.
Qed.

(** ** Conditional updates *)

Lemma claimed_within_refl : forall I p, claimed_within I p p.
Proof. intros I p. left. reflexivity. Qed.

Lemma claimed_within_mono :
  forall I J p p', incl I J -> claimed_within I p p' -> claimed_within J p p'.
Proof.
  intros I J p p' HIJ [H | (Hin & Hs & Hex)]; [left; exact H |].
  right. auto.
Qed.

Lemma claimed_within_trans :
  forall I J p p' p'',
    claimed_within I p p' -> claimed_within J p' p'' ->
    claimed_within (I ++ J) p p''.
Proof.
  intros I J p p' p'' [-> | (Hin & Hs & t & sid & ->)] H2.
  - eapply claimed_within_mono; [| exact H2]. apply incl_appr, incl_refl.
  - destruct H2 as [-> | (_ & Hs' & _)]; [| simpl in Hs'; discriminate].
    right. split; [apply in_or_app; auto |].
    split; [exact Hs | exists t, sid; reflexivity].
Qed.

Lemma Forall2_same : forall A (R : A -> A -> Prop) l, (forall x, R x x) -> Forall2 R l l.
Proof. intros A R l H. induction l; constructor; auto. Qed.

Lemma Forall2_map_r :
  forall A (R : A -> A -> Prop) (f : A -> A) l,
    (forall x, R x (f x)) -> Forall2 R l (map f l).
Proof. intros A R f l H. induction l; simpl; constructor; auto. Qed.

Lemma Forall2_compose :
  forall A (R S T : A -> A -> Prop) l l' l'',
    (forall x y z, R x y -> S y z -> T x z) ->
    Forall2 R l l' -> Forall2 S l' l'' -> Forall2 T l l''.
Proof.
  intros A R S T l l' l'' H H1. revert l''.
  induction H1; intros l'' H2; inversion H2; subst; constructor; eauto.
Qed.

Lemma Forall2_In_r :
  forall A (R : A -> A -> Prop) l l' y,
    Forall2 R l l' -> In y l' -> exists x, In x l /\ R x y.
Proof.
  intros A R l l' y H. induction H; intros Hy; [contradiction |].
  destruct Hy as [<- | Hy].
  - eexists; split; [left; reflexivity | assumption].
  - destruct (IHForall2 Hy) as [x0 [? ?]]. exists x0. split; [right |]; assumption.
Qed.

Lemma Forall2_In_l :
  forall A (R : A -> A -> Prop) l l' x,
    Forall2 R l l' -> In x l -> exists y, In y l' /\ R x y.
Proof.
  intros A R l l' x H. induction H; intros Hx; [contradiction |].
  destruct Hx as [<- | Hx].
  - eexists; split; [left; reflexivity | assumption].
  - destruct (IHForall2 Hx) as [y0 [? ?]]. exists y0. split; [right |]; assumption.
Qed.

Lemma Forall2_claimed_mono :
  forall I J l l',
    incl I J -> Forall2 (claimed_within I) l l' -> Forall2 (claimed_within J) l l'.
Proof.
  intros I J l l' HIJ H. eapply Forall2_impl; [| exact H].
  intros a b. apply claimed_within_mono. exact HIJ.
Qed.

Lemma Forall2_claimed_trans :
  forall I J l l' l'',
    Forall2 (claimed_within I) l l' -> Forall2 (claimed_within J) l' l'' ->
    Forall2 (claimed_within (I ++ J)) l l''.
Proof.
  intros I J l l' l''. apply Forall2_compose.
  intros x y z. apply claimed_within_trans.
Qed.

Lemma claim_payment_claimed :
  forall now sid pid db,
    Forall2 (claimed_within [pid]) (payments db)
            (payments (snd (claim_payment now sid pid db))).
Proof.
  intros now sid pid db. simpl. apply Forall2_map_r. intro p.
  destruct (claims pid p) eqn:E; [| left; reflexivity].
  unfold claims in E. apply andb_true_iff in E. destruct E as [E1 E2].
  apply Z.eqb_eq in E1. apply negb_true_iff in E2.
  right. split; [simpl; auto | split; [exact E2 | exists now, sid; reflexivity]].
Qed.

Lemma claim_payment_settled :
  forall now sid pid db, settled [pid] (snd (claim_payment now sid pid db)).
Proof.
  intros now sid pid db p' Hp' [Hid | []]. simpl in Hp'.
  apply in_map_iff in Hp'. destruct Hp' as [p [E Hp]].
  destruct (claims pid p) eqn:C; subst p'; [reflexivity |].
  unfold claims in C. rewrite Hid, Z.eqb_refl in C. simpl in C.
  apply negb_false_iff in C. exact C.
Qed.

Lemma settled_preserved :
  forall I J db db',
    settled I db ->
    Forall2 (claimed_within J) (payments db) (payments db') ->
    settled I db'.
Proof.
  intros I J db db' Hs HF p' Hp' Hid.
  destruct (Forall2_In_r _ _ _ _ _ HF Hp')
    as [p [Hp [-> | (_ & _ & t & sid & ->)]]].
  - apply Hs; assumption.
  - reflexivity.
Qed.

Lemma settled_app :
  forall I J db, settled I db -> settled J db -> settled (I ++ J) db.
Proof.
  intros I J db H1 H2 p Hp Hid. apply in_app_or in Hid.
  destruct Hid; [apply H1 | apply H2]; assumption.
Qed.

Lemma settled_incl :
  forall I J db, incl J I -> settled I db -> settled J db.
Proof. intros I J db H Hs p Hp Hid. apply Hs; auto. Qed.

(** ** Moves of a transaction *)

Lemma claims_only_refl : forall I a, claims_only I a a.
Proof.
  intros I a. split; [apply Forall2_same, claimed_within_refl |].
  split; [| reflexivity]. repeat split.
Qed.

Lemma claims_only_trans :
  forall I J a b c,
    claims_only I a b -> claims_only J b c -> claims_only (I ++ J) a c.
Proof.
  intros I J a b c (F1 & L1 & G1) (F2 & L2 & G2).
  split; [eapply Forall2_claimed_trans; eassumption |].
  split; [| congruence].
  destruct L1 as (?&?&?&?&?&?), L2 as (?&?&?&?&?&?). simpl in *.
  repeat split; simpl; congruence.
Qed.

Lemma claims_only_mono :
  forall I J a b, incl I J -> claims_only I a b -> claims_only J a b.
Proof.
  intros I J a b H (F & L & G).
  split; [eapply Forall2_claimed_mono; eassumption | auto].
Qed.

Lemma grown_refl : forall I a, grown I a a.
Proof.
  intros I a. split; [apply Forall2_same, claimed_within_refl |].
  repeat split; exists []; rewrite app_nil_r; reflexivity.
Qed.

Lemma grown_trans :
  forall I J a b c, grown I a b -> grown J b c -> grown (I ++ J) a c.
Proof.
  intros I J a b c (F1 & R1 & W1 & G1 & [S1 ES1] & [T1 ET1] & [E1 EE1])
         (F2 & R2 & W2 & G2 & [S2 ES2] & [T2 ET2] & [E2 EE2]).
  split; [eapply Forall2_claimed_trans; eassumption |].
  repeat split; try congruence.
  - exists (S1 ++ S2). rewrite ES2, ES1, app_assoc. reflexivity.
  - exists (T1 ++ T2). rewrite ET2, ET1, app_assoc. reflexivity.
  - exists (E1 ++ E2). rewrite EE2, EE1, app_assoc. reflexivity.
Qed.

Lemma grown_mono :
  forall I J a b, incl I J -> grown I a b -> grown J a b.
Proof.
  intros I J a b H (F & R). split; [eapply Forall2_claimed_mono; eassumption | exact R].
Qed.

Lemma advanced_refl : forall I tx, advanced I tx tx.
Proof. intros I tx. split; [apply claims_only_refl | apply grown_refl]. Qed.

Lemma advanced_trans :
  forall I J a b c, advanced I a b -> advanced J b c -> advanced (I ++ J) a c.
Proof.
  intros I J a b c [B1 W1] [B2 W2].
  split; [eapply claims_only_trans | eapply grown_trans]; eassumption.
Qed.

Lemma advanced_mono :
  forall I J a b, incl I J -> advanced I a b -> advanced J a b.
Proof.
  intros I J a b H [B W].
  split; [eapply claims_only_mono | eapply grown_mono]; eassumption.
Qed.

Lemma advanced_step :
  forall I J K a b c,
    advanced I a b -> advanced J b c -> incl (I ++ J) K -> advanced K a c.
Proof.
  intros I J K a b c H1 H2 H.
  eapply advanced_mono; [exact H | eapply advanced_trans; eassumption].
Qed.

Lemma bind_inv :
  forall A B (c : M A) (k : A -> M B) tx out tx'',
    bind c k tx = (out, tx'') ->
    (exists a tx', c tx = (Done a, tx') /\ k a tx' = (out, tx''))
    \/ (exists e, c tx = (Raised e, tx'') /\ out = Raised e).
Proof.
  intros A B c k tx out tx'' H. unfold bind in H.
  destruct (c tx) as [[a | e] tx'].
  - left. exists a, tx'. auto.
  - right. inversion H; subst. exists e. auto.
Qed.

Lemma try_catch_inv :
  forall A (c : M A) (h : string -> M A) tx out tx'',
    try_catch c h tx = (out, tx'') ->
    (exists a, c tx = (Done a, tx'') /\ out = Done a)
    \/ (exists e tx', c tx = (Raised e, tx') /\ h e tx' = (out, tx'')).
Proof.
  intros A c h tx out tx'' H. unfold try_catch in H.
  destruct (c tx) as [[a | e] tx'].
  - left. inversion H; subst. exists a. auto.
  - right. exists e, tx'. auto.
Qed.

Lemma grown_claim :
  forall now sid pid db, grown [pid] db (snd (claim_payment now sid pid db)).
Proof.
  intros now sid pid db. split; [apply claim_payment_claimed |].
  simpl. repeat split; exists []; rewrite app_nil_r; reflexivity.
Qed.

Lemma grown_errors :
  forall L db, grown [] db (set_settlement_errors (settlement_errors db ++ L) db).
Proof.
  intros L db. split; [apply Forall2_same, claimed_within_refl |].
  simpl. repeat split; try (exists []; rewrite app_nil_r; reflexivity).
  exists L. reflexivity.
Qed.

Lemma grown_items :
  forall L db, grown [] db (set_settlement_items (settlement_items db ++ L) db).
Proof.
  intros L db. split; [apply Forall2_same, claimed_within_refl |].
  simpl. repeat split; try (exists []; rewrite app_nil_r; reflexivity).
  exists L. reflexivity.
Qed.

Lemma grown_statements :
  forall L db,
    grown [] db (set_settlement_statements (settlement_statements db ++ L) db).
Proof.
  intros L db. split; [apply Forall2_same, claimed_within_refl |].
  simpl. repeat split; try (exists []; rewrite app_nil_r; reflexivity).
  exists L. reflexivity.
Qed.

Lemma advanced_work :
  forall I tx db q,
    grown I (work tx) db -> advanced I tx (mkTx (base tx) db q).
Proof. intros I tx db q H. split; [apply claims_only_refl | exact H]. Qed.

Lemma query_inv :
  forall env A q (f : DB -> A * DB) tx out tx',
    query env q f tx = (out, tx') ->
    (exists e, fault env q = Some e /\ out = Raised e /\ tx' = tx)
    \/ (fault env q = None /\ out = Done (fst (f (work tx)))
        /\ tx' = mkTx (base tx) (snd (f (work tx))) (q :: trace tx)).
Proof.
  intros env A q f tx out tx' H. unfold query, exec in H.
  destruct (fault env q) as [e |].
  - left. inversion H; subst. exists e. auto.
  - right. destruct (f (work tx)) as [a db']. inversion H; subst. auto.
Qed.

Section RunFacts.

Variable env : Env.

Lemma logSettlementError_spec :
  forall logId type paymentId storeId statementId message rawData tx,
  exists tx',
    logSettlementError env logId type paymentId storeId statementId
      message rawData tx = (Done tt, tx')
    /\ advanced [] tx tx'
    /\ settlement_statements (work tx') = settlement_statements (work tx)
    /\ settlement_items (work tx') = settlement_items (work tx).
Proof.
  intros. unfold logSettlementError, try_catch, query, exec, ret.
  destruct (fault env (Q_insert_error type)).
  - exists tx. split; [reflexivity |]. split; [apply advanced_refl | auto].
  - eexists. split; [reflexivity |].
    split; [apply advanced_work; apply grown_errors | auto].
Qed.

Lemma update_payment_spec :
  forall sid p tx out tx',
    update_payment env sid p tx = (out, tx') ->
    advanced [id p] tx tx'
    /\ settlement_statements (work tx') = settlement_statements (work tx)
    /\ settlement_items (work tx') = settlement_items (work tx)
    /\ (forall n, out = Done n -> settled [id p] (work tx')).
Proof.
  intros sid p tx out tx' H. unfold update_payment in H.
  apply query_inv in H.
  destruct H as [(e & _ & -> & ->) | (_ & -> & ->)].
  - split; [apply advanced_refl |]. split; [reflexivity |].
    split; [reflexivity |]. intros n Hn. discriminate.
  - split; [apply advanced_work; apply grown_claim |].
    split; [reflexivity |]. split; [reflexivity |].
    intros n _. apply claim_payment_settled.
Qed.

Lemma insert_item_spec :
  forall sid p tx out tx',
    insert_item env sid p tx = (out, tx') ->
    advanced [] tx tx'
    /\ settlement_statements (work tx') = settlement_statements (work tx).
Proof.
  intros sid p tx out tx' H. unfold insert_item in H.
  apply query_inv in H. destruct H as [(e & _ & -> & ->) | (_ & -> & ->)].
  - split; [apply advanced_refl | reflexivity].
  - split; [apply advanced_work; apply grown_items | reflexivity].
Qed.

Lemma insert_statement_spec :
  forall storeId ps pe total commission payout n tx out tx',
    insert_statement env storeId ps pe total commission payout n tx = (out, tx') ->
    advanced [] tx tx'
    /\ settlement_items (work tx') = settlement_items (work tx)
    /\ (forall e, out = Raised e -> tx' = tx)
    /\ (forall sid, out = Done sid ->
          exists st, s_store_id st = storeId
                     /\ s_total_sales st = total
                     /\ settlement_statements (work tx')
                        = settlement_statements (work tx) ++ [st]).
Proof.
  intros storeId ps pe total commission payout n tx out tx' H.
  unfold insert_statement in H.
  apply query_inv in H. destruct H as [(e & _ & -> & ->) | (_ & -> & ->)].
  - split; [apply advanced_refl |]. split; [reflexivity |].
    split; [reflexivity | intros sid Hs; discriminate].
  - split; [apply advanced_work; apply grown_statements |].
    split; [reflexivity |].
    split; [intros e He; discriminate |].
    intros sid _. eexists. split; [| split; [| reflexivity]]; reflexivity.
Qed.

(** The inner loop: what it does to the store and to the counters. *)
Lemma settlePayments_spec :
  forall logId storeId sid rows c tx out tx',
    settlePayments env logId storeId sid rows c tx = (out, tx') ->
    advanced (map id rows) tx tx'
    /\ settlement_statements (work tx') = settlement_statements (work tx)
    /\ (forall c', out = Done c' ->
          settlementsResult c' = settlementsResult c
          /\ totalCommission c' = totalCommission c
          /\ totalPayout c' = totalPayout c
          /\ successPaymentCount c <= successPaymentCount c'
          /\ skippedPaymentCount c <= skippedPaymentCount c'
          /\ (successPaymentCount c' - successPaymentCount c)
             + (skippedPaymentCount c' - skippedPaymentCount c) = count rows
          /\ settled (map id rows) (work tx')).
Proof.
  intros logId storeId sid rows.
  induction rows as [| p rest IH]; intros c tx out tx' H.
  - simpl in H. inversion H; subst.
    split; [apply advanced_refl |]. split; [reflexivity |].
    intros c' Hc. inversion Hc; subst.
    repeat split; try lia; try (unfold count; simpl; lia). intros q _ [].
  - simpl in H. apply bind_inv in H.
    destruct H as [(n & tx1 & H1 & H2) | (e & H1 & ->)].
    2:{ apply update_payment_spec in H1. destruct H1 as (A1 & S1 & _ & _).
        split; [| split; [exact S1 | intros c' Hc; discriminate]].
        eapply advanced_mono; [| exact A1].
        intros x [<- | []]. simpl. auto. }
    apply update_payment_spec in H1. destruct H1 as (A1 & S1 & _ & D1).
    specialize (D1 n eq_refl).
    assert (K : exists c1 tx2 out2,
               advanced [] tx1 tx2
               /\ settlement_statements (work tx2) = settlement_statements (work tx1)
               /\ (out2 = Done tt ->
                   settlePayments env logId storeId sid rest c1 tx2 = (out, tx'))
               /\ (forall e, out2 = Raised e -> out = Raised e /\ tx' = tx2)
               /\ settlementsResult c1 = settlementsResult c
               /\ totalCommission c1 = totalCommission c
               /\ totalPayout c1 = totalPayout c
               /\ successPaymentCount c <= successPaymentCount c1
               /\ skippedPaymentCount c <= skippedPaymentCount c1
               /\ (successPaymentCount c1 - successPaymentCount c)
                  + (skippedPaymentCount c1 - skippedPaymentCount c) = 1
               /\ (out2 = Done tt \/ exists e, out2 = Raised e)).
    { destruct (n =? 0).
      - apply bind_inv in H2.
        destruct (logSettlementError_spec (Some logId) "PAYMENT_ALREADY_SETTLED"
                    (Some (id p)) (Some storeId) (Some sid)
                    "payments UPDATE affectedRows = 0 (이미 정산됨)"
                    (Some (RawPayment p)) tx1) as (tx2 & L & A2 & S2 & _).
        rewrite L in H2.
        destruct H2 as [(u & tx2' & E & H2) | (e & E & _)]; [| discriminate].
        inversion E; subst tx2' u.
        eexists _, tx2, (Done tt).
        split; [exact A2 |]. split; [exact S2 |].
        split; [intros _; exact H2 |].
        split; [intros e He; discriminate |].
        simpl. repeat split; try lia. left. reflexivity.
      - apply bind_inv in H2.
        destruct H2 as [(u & tx2 & E & H2) | (e & E & ->)].
        + apply try_catch_inv in E.
          destruct E as [(u' & E & _) | (e & tx1' & E & Hh)].
          * apply insert_item_spec in E. destruct E as [A2 S2].
            eexists _, tx2, (Done tt).
            split; [exact A2 |]. split; [exact S2 |].
            split; [intros _; destruct u; exact H2 |].
            split; [intros e He; discriminate |].
            simpl. repeat split; try lia. left. reflexivity.
          * exfalso. apply bind_inv in Hh.
            destruct Hh as [(u' & tx3 & _ & Hr) | (e' & Hl & _)].
            -- unfold raise in Hr. discriminate.
            -- destruct (logSettlementError_spec (Some logId) "ITEM_INSERT_FAIL"
                           (Some (id p)) (Some storeId) (Some sid) e
                           (Some (RawPayment p)) tx1') as (tx3 & L & _).
               rewrite L in Hl. discriminate.
        + apply try_catch_inv in E.
          destruct E as [(u' & E & Hd) | (e0 & tx1' & E & Hh)]; [discriminate |].
          apply insert_item_spec in E. destruct E as [A2 S2].
          apply bind_inv in Hh.
          destruct (logSettlementError_spec (Some logId) "ITEM_INSERT_FAIL"
                      (Some (id p)) (Some storeId) (Some sid) e0
                      (Some (RawPayment p)) tx1') as (tx3 & L & A3 & S3 & _).
          rewrite L in Hh.
          destruct Hh as [(u' & tx3' & E3 & Hr) | (e' & E3 & _)]; [| discriminate].
          inversion E3; subst tx3' u'. unfold raise in Hr.
          inversion Hr; subst.
          eexists (mkCounters (successPaymentCount c + 1) (skippedPaymentCount c)
                     (totalCommission c) (totalPayout c) (settlementsResult c)),
                  tx', (Raised e).
          split; [eapply advanced_step; [exact A2 | exact A3 | intros x []] |].
          split; [congruence |].
          split; [intro Hd; discriminate |].
          split; [intros e1 He1; inversion He1; subst; auto |].
          simpl. repeat split; try lia. right. exists e. reflexivity. }
    destruct K as (c1 & tx2 & out2 & A2 & S2 & Kd & Kr & R1 & C1 & P1
                   & Hs1 & Hk1 & Hc1 & Ho).
    assert (A12 : advanced [id p] tx tx2).
    { eapply advanced_step; [exact A1 | exact A2 |].
      rewrite app_nil_r. apply incl_refl. }
    destruct Ho as [-> | [e ->]].
    + specialize (Kd eq_refl). apply IH in Kd.
      destruct Kd as (A3 & S3 & D3).
      split; [eapply advanced_step; [exact A12 | exact A3 | apply incl_refl] |].
      split; [congruence |].
      intros c' Hc. destruct (D3 c' Hc) as (R3 & C3 & P3 & Hs3 & Hk3 & Hc3 & St3).
      split; [congruence |]. split; [congruence |]. split; [congruence |].
      split; [lia |]. split; [lia |].
      split.
      { unfold count in *. simpl List.length. rewrite Nat2Z.inj_succ. lia. }
      apply (settled_app [id p]); [| exact St3].
      destruct A2 as [_ (F2 & _)]. destruct A3 as [_ (F3 & _)].
      eapply settled_preserved; [| exact F3].
      eapply settled_preserved; [exact D1 | exact F2].
    + destruct (Kr e eq_refl) as [-> ->].
      split; [| split; [congruence | intros c' Hc; discriminate]].
      eapply advanced_mono; [| exact A12].
      intros x [<- | []]. simpl. auto.
Qed.

Lemma positive_ids_cons_neg :
  forall g rest, positive g = false -> positive_ids (g :: rest) = positive_ids rest.
Proof. intros g rest H. unfold positive_ids. simpl. rewrite H. reflexivity. Qed.

Lemma positive_ids_cons_pos :
  forall g rest,
    positive g = true ->
    positive_ids (g :: rest) = map id (snd g) ++ positive_ids rest.
Proof. intros g rest H. unfold positive_ids. simpl. rewrite H. reflexivity. Qed.

Lemma statement_of_cons :
  forall g rest st, statement_of rest st -> statement_of (g :: rest) st.
Proof.
  intros g rest st (rows & H & P). exists rows. split; [right; exact H | exact P].
Qed.

(** The outer loop: what it does to the store and to the counters. *)
Lemma settleStores_spec :
  forall logId ps pe groups c tx out tx',
    settleStores env logId ps pe groups c tx = (out, tx') ->
    advanced (positive_ids groups) tx tx'
    /\ (exists L,
          settlement_statements (work tx')
          = settlement_statements (work tx) ++ L
          /\ Forall (statement_of groups) L)
    /\ (forall c', out = Done c' ->
          map dry (settlementsResult c')
          = map dry (settlementsResult c) ++ simulateStores groups
          /\ totalCommission c'
             = totalCommission c + sum_commission (simulateStores groups)
          /\ totalPayout c'
             = totalPayout c + sum_payout (simulateStores groups)
          /\ (exists lost,
                0 <= lost
                /\ skippedPaymentCount c'
                   = skippedPaymentCount c
                     + rows_in (filter (fun g => negb (positive g)) groups) + lost
                /\ successPaymentCount c' + lost
                   = successPaymentCount c + rows_in (filter positive groups))
          /\ settled (positive_ids groups) (work tx')).
Proof.
  intros logId ps pe groups.
  induction groups as [| [s rows] rest IH]; intros c tx out tx' H.
  - simpl in H. inversion H; subst.
    split; [apply advanced_refl |].
    split; [exists []; rewrite app_nil_r; split; [reflexivity | constructor] |].
    intros c' Hc. inversion Hc; subst. simpl.
    rewrite app_nil_r. repeat split; try lia.
    + exists 0. simpl. lia.
    + intros q _ [].
  - simpl in H.
    destruct (sum_amounts rows <=? 0) eqn:Hsum.
    + assert (Hp : positive (s, rows) = false)
        by (unfold positive; simpl; rewrite Hsum; reflexivity).
      apply IH in H. destruct H as (A & (L & EL & FL) & D).
      rewrite positive_ids_cons_neg by exact Hp.
      split; [exact A |].
      split.
      { exists L. split; [exact EL |].
        eapply Forall_impl; [| exact FL]. intro st. apply statement_of_cons. }
      intros c' Hc. destruct (D c' Hc) as (R & C & P & (lost & Hl & Hk & Hs) & St).
      simpl in R, C, P, Hk, Hs. simpl. rewrite Hsum, Hp. simpl.
      split; [exact R |]. split; [exact C |]. split; [exact P |].
      split; [| exact St].
      exists lost. split; [exact Hl |]. split; lia.
    + assert (Hp : positive (s, rows) = true)
        by (unfold positive; simpl; rewrite Hsum; reflexivity).
      rewrite positive_ids_cons_pos by exact Hp. simpl snd.
      apply bind_inv in H.
      destruct H as [(sid & tx1 & H1 & H2) | (e & H1 & ->)].
      2:{ (* the statement insert raised *)
          apply try_catch_inv in H1.
          destruct H1 as [(a & _ & Hd) | (e0 & tx0 & E & Hh)]; [discriminate |].
          apply insert_statement_spec in E. destruct E as (_ & _ & Er & _).
          specialize (Er e0 eq_refl). subst tx0.
          apply bind_inv in Hh.
          match type of Hh with
          | context [logSettlementError env ?a ?b ?c0 ?d ?f ?g ?h tx] =>
              destruct (logSettlementError_spec a b c0 d f g h tx)
                as (tx3 & L & A3 & S3 & _)
          end.
          rewrite L in Hh.
          destruct Hh as [(u & tx3' & E3 & Hr) | (e' & E3 & _)]; [| discriminate].
          inversion E3; subst tx3' u. unfold raise in Hr. inversion Hr; subst.
          split; [eapply advanced_mono; [| exact A3]; intros x [] |].
          split; [| intros c' Hc; discriminate].
          exists []. rewrite app_nil_r. split; [exact S3 | constructor]. }
      assert (I1 : advanced [] tx tx1
                   /\ exists st, s_store_id st = s
                                 /\ s_total_sales st = sum_amounts rows
                                 /\ settlement_statements (work tx1)
                                    = settlement_statements (work tx) ++ [st]).
      { apply try_catch_inv in H1.
        destruct H1 as [(a & E & Hd) | (e0 & tx0 & E & Hh)].
        - inversion Hd; subst a.
          apply insert_statement_spec in E. destruct E as (A & _ & _ & Ed).
          split; [exact A | apply (Ed sid eq_refl)].
        - exfalso. apply bind_inv in Hh.
          match type of Hh with
          | context [logSettlementError env ?a ?b ?c0 ?d ?f ?g ?h tx0] =>
              destruct (logSettlementError_spec a b c0 d f g h tx0)
                as (tx3 & L & _)
          end.
          rewrite L in Hh.
          destruct Hh as [(u & tx3' & E3 & Hr) | (e' & E3 & _)]; [| discriminate].
          unfold raise in Hr. discriminate. }
      destruct I1 as (A1 & st & Hst & Htot & S1).
      assert (Pst : statement_of ((s, rows) :: rest) st).
      { exists rows. rewrite Hst. split; [left; reflexivity | split; assumption]. }
      apply bind_inv in H2.
      destruct H2 as [(u & tx2 & H2 & H3) | (e & H2 & ->)].
      2:{ (* no insertId *)
          destruct (sid =? 0); [| unfold ret in H2; discriminate].
          apply bind_inv in H2.
          match type of H2 with
          | context [logSettlementError env ?a ?b ?c0 ?d ?f ?g ?h tx1] =>
              destruct (logSettlementError_spec a b c0 d f g h tx1)
                as (tx3 & L & A3 & S3 & _)
          end.
          rewrite L in H2.
          destruct H2 as [(u & tx3' & E3 & Hr) | (e' & E3 & _)]; [| discriminate].
          inversion E3; subst tx3' u. unfold raise in Hr. inversion Hr; subst.
          split; [eapply advanced_step; [exact A1 | exact A3 | intros x []] |].
          split; [| intros c' Hc; discriminate].
          exists [st]. split; [congruence | constructor; [exact Pst | constructor]]. }
      assert (tx2 = tx1).
      { destruct (sid =? 0).
        - exfalso. apply bind_inv in H2.
          match type of H2 with
          | context [logSettlementError env ?a ?b ?c0 ?d ?f ?g ?h tx1] =>
              destruct (logSettlementError_spec a b c0 d f g h tx1)
                as (tx3 & L & _)
          end.
          rewrite L in H2.
          destruct H2 as [(u' & tx3' & E3 & Hr) | (e' & E3 & _)]; [| discriminate].
          unfold raise in Hr. discriminate.
        - unfold ret in H2. inversion H2. reflexivity. }
      subst tx2. clear H2.
      apply bind_inv in H3.
      destruct H3 as [(c2 & tx3 & H3 & H4) | (e & H3 & ->)].
      2:{ apply settlePayments_spec in H3. destruct H3 as (A3 & S3 & _).
          split.
          { eapply advanced_step; [exact A1 | exact A3 |].
            simpl. apply incl_appl, incl_refl. }
          split; [| intros c' Hc; discriminate].
          exists [st]. split; [congruence | constructor; [exact Pst | constructor]]. }
      apply settlePayments_spec in H3. destruct H3 as (A3 & S3 & D3).
      destruct (D3 c2 eq_refl) as (R3 & C3 & P3 & Hs3 & Hk3 & Hc3 & St3).
      simpl in R3, C3, P3, Hs3, Hk3, Hc3.
      apply IH in H4. destruct H4 as (A4 & (L & EL & FL) & D4).
      split.
      { eapply advanced_step; [| exact A4 | apply incl_refl].
        eapply advanced_step; [exact A1 | exact A3 | simpl; apply incl_refl]. }
      split.
      { exists (st :: L). split.
        - rewrite EL, S3, S1, <- app_assoc. reflexivity.
        - constructor; [exact Pst |].
          eapply Forall_impl; [| exact FL]. intro x. apply statement_of_cons. }
      intros c' Hc. destruct (D4 c' Hc) as (R & C & P & (lost & Hl & Hk & Hs) & St).
      simpl in R, C, P, Hk, Hs. simpl. rewrite Hsum, Hp. simpl.
      split.
      { rewrite R, map_app, R3, <- app_assoc. reflexivity. }
      split; [rewrite C, C3; lia |]. split; [rewrite P, P3; lia |].
      split.
      { exists (lost + (skippedPaymentCount c2 - skippedPaymentCount c)).
        split; [lia |]. split; lia. }
      apply settled_app; [| exact St].
      destruct A4 as [_ (F4 & _)].
      eapply settled_preserved; [exact St3 | exact F4].
Qed.


Lemma count_zero : forall A (l : list A), (count l =? 0) = true <-> l = [].
Proof.
  intros A l. unfold count. rewrite Z.eqb_eq.
  destruct l; simpl List.length; split; intro H;
    try reflexivity; try discriminate; lia.
Qed.

Lemma count_nonneg : forall A (l : list A), 0 <= count l.
Proof. intros A l. unfold count. lia. Qed.

Lemma select_eligible_logs :
  forall ps pe v db,
    select_eligible ps pe (set_settlement_logs v db) = select_eligible ps pe db.
Proof. reflexivity. Qed.

Lemma select_eligible_payments :
  forall ps pe a b, payments a = payments b ->
                    select_eligible ps pe a = select_eligible ps pe b.
Proof. intros ps pe a b H. unfold select_eligible. rewrite H. reflexivity. Qed.

(** The side a rollback returns to, when the [try] block ends, is apart
    from the one the transaction began with by conditional updates at
    most. *)
Lemma settle_period_base :
  forall logId ps pe dryRun tx out tx',
    settle_period env logId ps pe dryRun tx = (out, tx') ->
    exists I, claims_only I (base tx) (base tx').
Proof.
  intros logId ps pe dryRun tx out tx' H. unfold settle_period in H.
  apply bind_inv in H. destruct H as [(rows & tx1 & H1 & H2) | (e & H1 & _)].
  2:{ apply query_inv in H1. destruct H1 as [(e0 & _ & _ & ->) | (_ & E & _)];
        [| discriminate]. exists []. apply claims_only_refl. }
  apply query_inv in H1. destruct H1 as [(e0 & _ & E & _) | (_ & _ & ->)];
    [discriminate |].
  destruct (count rows =? 0).
  { exists []. apply bind_inv in H2.
    destruct H2 as [(u & tx2 & H2 & H3) | (e & H2 & _)];
      apply query_inv in H2;
      destruct H2 as [(e0 & _ & E & E') | (_ & E & E')]; try discriminate; subst.
    - unfold ret in H3. inversion H3; subst. apply claims_only_refl.
    - apply claims_only_refl. }
  destruct dryRun.
  { exists []. destruct (simulateSettlement rows) as [n l]. apply bind_inv in H2.
    destruct H2 as [(u & tx2 & H2 & H3) | (e & H2 & _)];
      apply query_inv in H2;
      destruct H2 as [(e0 & _ & E & E') | (_ & E & E')]; try discriminate; subst.
    - unfold ret in H3. inversion H3; subst. apply claims_only_refl.
    - apply claims_only_refl. }
  apply bind_inv in H2. destruct H2 as [(c & tx2 & H2 & H3) | (e & H2 & _)].
  - apply settleStores_spec in H2. destruct H2 as ([B _] & _).
    eexists. apply bind_inv in H3.
    destruct H3 as [(u & tx3 & H3 & H4) | (e & H3 & _)];
      apply query_inv in H3;
      destruct H3 as [(e0 & _ & E & E') | (_ & E & E')]; try discriminate; subst.
    + unfold ret in H4. inversion H4; subst. exact B.
    + exact B.
  - apply settleStores_spec in H2. destruct H2 as ([B _] & _).
    eexists. exact B.
Qed.

(** With transactional log tables, a run that throws leaves no trace in
    [settlement_logs]. *)
Lemma thrown_run_is_rolled_back :
  forall periodStart periodEnd dryRun db e db',
    log_engine env = InnoDB ->
    runSettlementPeriod env periodStart periodEnd dryRun db = (Threw e, db') ->
    exists I, claims_only I db db'.
Proof.
  intros periodStart periodEnd dryRun db e db' Heng H.
  unfold runSettlementPeriod in H.
  destruct periodStart as [| | ps], periodEnd as [| | pe];
    try (inversion H; subst; exists []; apply claims_only_refl).
  destruct (pe <=? ps);
    [inversion H; subst; exists []; apply claims_only_refl |].
  destruct (insert_log_skeleton env (clock env) ps pe (beginTransaction db))
    as [[logId | e0] tx] eqn:E.
  - apply query_inv in E. destruct E as [(e1 & _ & E & _) | (_ & _ & ->)];
      [discriminate |].
    match type of H with
    | context [settle_period env ?l ps pe dryRun ?t] =>
        destruct (settle_period env l ps pe dryRun t) as [[report | e1] tx'] eqn:E'
    end; [discriminate |].
    apply settle_period_base in E'. destruct E' as [I B]. simpl in B.
    exists I. inversion H; subst.
    unfold fail_run, rollback. rewrite Heng.
    unfold try_catch, query, exec, ret.
    destruct (fault env Q_update_log_failed); exact B.
  - apply query_inv in E. destruct E as [(e1 & _ & _ & ->) | (_ & E & _)];
      [| discriminate].
    inversion H; subst. exists [].
    unfold fail_run, rollback. rewrite Heng. apply claims_only_refl.
Qed.

(** The shape of a mutating run that returns. *)
Lemma returned_run_inv :
  forall periodStart periodEnd db report db',
    runSettlementPeriod env periodStart periodEnd false db = (Returned report, db') ->
    exists ps pe,
      periodStart = DateAt ps /\ periodEnd = DateAt pe /\ ps < pe
      /\ ((select_eligible ps pe db = [] /\ report = NoopReport
           /\ same_ledger db' db)
          \/ (select_eligible ps pe db <> []
              /\ exists logId tx1 c tx',
                   base tx1 = db
                   /\ same_ledger (work tx1) db
                   /\ settleStores env logId ps pe
                        (groupByStore (select_eligible ps pe db))
                        no_counters tx1 = (Done c, tx')
                   /\ report = SuccessReport
                                 (count (select_eligible ps pe db))
                                 (count (settlementsResult c))
                                 (successPaymentCount c) (skippedPaymentCount c)
                                 (totalPayout c) (totalCommission c)
                                 (settlementsResult c)
                   /\ same_ledger db' (work tx'))).
Proof.
  intros periodStart periodEnd db report db' H.
  unfold runSettlementPeriod in H.
  destruct periodStart as [| | ps], periodEnd as [| | pe]; try discriminate.
  destruct (pe <=? ps) eqn:Hle; [discriminate |].
  apply Z.leb_gt in Hle.
  exists ps, pe. split; [reflexivity |]. split; [reflexivity |]. split; [exact Hle |].
  destruct (insert_log_skeleton env (clock env) ps pe (beginTransaction db))
    as [[logId | e0] tx] eqn:E; [| discriminate].
  apply query_inv in E. destruct E as [(e1 & _ & E & _) | (_ & El & ->)];
    [discriminate |].
  inversion El; subst logId; clear El.
  match type of H with
  | context [settle_period env ?l ps pe false ?t] =>
      destruct (settle_period env l ps pe false t) as [[r | e1] tx'] eqn:E';
      [| discriminate]; set (logId := l) in *; set (tx0 := t) in *
  end.
  inversion H; subst r db'; clear H.
  unfold settle_period in E'.
  apply bind_inv in E'. destruct E' as [(rows & tx1 & H1 & H2) | (e & _ & E)];
    [| discriminate].
  apply query_inv in H1. destruct H1 as [(e0 & _ & E & _) | (_ & Er & ->)];
    [discriminate |].
  inversion Er; subst rows; clear Er.
  subst tx0. cbn [work] in H2. rewrite !select_eligible_logs in H2.
  destruct (count (select_eligible ps pe db) =? 0) eqn:Hc.
  - left. apply count_zero in Hc. split; [exact Hc |].
    apply bind_inv in H2. destruct H2 as [(u & tx2 & H2 & H3) | (e & _ & E)];
      [| discriminate].
    apply query_inv in H2. destruct H2 as [(e0 & _ & E & _) | (_ & _ & ->)];
      [discriminate |].
    unfold ret in H3. inversion H3; subst. split; [reflexivity |].
    unfold commit. simpl. repeat split.
  - right. split; [intro E; apply count_zero in E; congruence |].
    apply bind_inv in H2. destruct H2 as [(c & tx2 & H2 & H3) | (e & _ & E)];
      [| discriminate].
    apply bind_inv in H3. destruct H3 as [(u & tx3 & H3 & H4) | (e & _ & E)];
      [| discriminate].
    apply query_inv in H3. destruct H3 as [(e0 & _ & E & _) | (_ & _ & ->)];
      [discriminate |].
    unfold ret in H4. inversion H4; subst.
    eexists logId, _, c, tx2.
    split; [| split; [| split; [exact H2 | split; [reflexivity |]]]].
    + reflexivity.
    + simpl. repeat split.
    + unfold commit. simpl. repeat split.
Qed.

(** The shape of a dry run that returns. *)
Lemma returned_dry_run_inv :
  forall periodStart periodEnd db report db',
    runSettlementPeriod env periodStart periodEnd true db = (Returned report, db') ->
    exists ps pe,
      periodStart = DateAt ps /\ periodEnd = DateAt pe /\ ps < pe
      /\ ((select_eligible ps pe db = [] /\ report = NoopReport)
          \/ (select_eligible ps pe db <> []
              /\ report = DryRunReport
                            (count (select_eligible ps pe db))
                            (fst (simulateSettlement (select_eligible ps pe db)))
                            (snd (simulateSettlement (select_eligible ps pe db))))).
Proof.
  intros periodStart periodEnd db report db' H.
  unfold runSettlementPeriod in H.
  destruct periodStart as [| | ps], periodEnd as [| | pe]; try discriminate.
  destruct (pe <=? ps) eqn:Hle; [discriminate |].
  apply Z.leb_gt in Hle.
  exists ps, pe. split; [reflexivity |]. split; [reflexivity |]. split; [exact Hle |].
  destruct (insert_log_skeleton env (clock env) ps pe (beginTransaction db))
    as [[logId | e0] tx] eqn:E; [| discriminate].
  apply query_inv in E. destruct E as [(e1 & _ & E & _) | (_ & El & ->)];
    [discriminate |].
  inversion El; subst logId; clear El.
  match type of H with
  | context [settle_period env ?l ps pe true ?t] =>
      destruct (settle_period env l ps pe true t) as [[r | e1] tx'] eqn:E';
      [| discriminate]; set (logId := l) in *; set (tx0 := t) in *
  end.
  inversion H; subst r db'; clear H.
  unfold settle_period in E'.
  apply bind_inv in E'. destruct E' as [(rows & tx1 & H1 & H2) | (e & _ & E)];
    [| discriminate].
  apply query_inv in H1. destruct H1 as [(e0 & _ & E & _) | (_ & Er & ->)];
    [discriminate |].
  inversion Er; subst rows; clear Er.
  subst tx0. cbn [work] in H2. rewrite !select_eligible_logs in H2.
  destruct (count (select_eligible ps pe db) =? 0) eqn:Hc.
  - left. apply count_zero in Hc. split; [exact Hc |].
    apply bind_inv in H2. destruct H2 as [(u & tx2 & H2 & H3) | (e & _ & E)];
      [| discriminate].
    unfold ret in H3. inversion H3; subst. reflexivity.
  - right. split; [intro E; apply count_zero in E; congruence |].
    destruct (simulateSettlement (select_eligible ps pe db)) as [n l].
    apply bind_inv in H2. destruct H2 as [(u & tx2 & H2 & H3) | (e & _ & E)];
      [| discriminate].
    unfold ret in H3. inversion H3; subst. reflexivity.
Qed.

End RunFacts.

(** ** The rows a run selects *)

Lemma insert_row_In :
  forall x l r, In r (insert_row x l) <-> r = x \/ In r l.
Proof.
  intros x l r. induction l as [| y l IH]; simpl.
  - split; [intros [H | []]; auto | intros [H | []]; auto].
  - destruct (row_le x y); simpl; [split; intros [H | H]; auto |].
    rewrite IH. split.
    + intros [H | [H | H]]; auto.
    + intros [H | [H | H]]; auto.
Qed.

Lemma order_rows_In : forall l r, In r (order_rows l) <-> In r l.
Proof.
  induction l as [| x l IH]; intro r; simpl; [tauto |].
  rewrite insert_row_In, IH. split; intros [H | H]; auto.
Qed.

Lemma select_eligible_In :
  forall ps pe db r,
    In r (select_eligible ps pe db) <->
    exists p, In p (payments db) /\ eligible ps pe p = true /\ row_of p = r.
Proof.
  intros ps pe db r. unfold select_eligible.
  rewrite order_rows_In, in_map_iff. split.
  - intros [p [E H]]. apply filter_In in H. destruct H. exists p. auto.
  - intros [p [H1 [H2 E]]]. exists p. split; [exact E | apply filter_In; auto].
Qed.

Lemma eligible_unsettled :
  forall ps pe p, eligible ps pe p = true -> p_is_settled p = false.
Proof.
  intros ps pe p H. unfold eligible in H.
  apply andb_true_iff in H. destruct H as [H _].
  apply andb_true_iff in H. destruct H as [_ H].
  apply negb_true_iff in H. exact H.
Qed.

Lemma NoDup_map_injective :
  forall A B (f : A -> B) l a b,
    NoDup (map f l) -> In a l -> In b l -> f a = f b -> a = b.
Proof.
  intros A B f l a b. induction l as [| x l IH]; intros ND Ha Hb E; [contradiction |].
  simpl in ND. inversion ND as [| ? ? Hx ND']; subst.
  destruct Ha as [-> | Ha], Hb as [-> | Hb]; auto.
  - exfalso. apply Hx. rewrite E. apply in_map. exact Hb.
  - exfalso. apply Hx. rewrite <- E. apply in_map. exact Ha.
Qed.

Lemma positive_ids_In :
  forall groups i,
    In i (positive_ids groups) ->
    exists s rows r,
      In (s, rows) groups /\ positive (s, rows) = true /\ In r rows /\ id r = i.
Proof.
  intros groups i H. unfold positive_ids in H.
  apply in_flat_map in H. destruct H as [[s rows] [Hg Hi]].
  apply filter_In in Hg. destruct Hg as [Hg Hp].
  simpl in Hi. apply in_map_iff in Hi. destruct Hi as [r [E Hr]].
  exists s, rows, r. auto.
Qed.



Lemma count_map : forall A B (f : A -> B) l, count (map f l) = count l.
Proof. intros A B f l. unfold count. rewrite length_map. reflexivity. Qed.

(** ** Dry run against mutating run *)

(** C10.  On the same store and window, a mutating run that returns (so no
    statement of its loop raised) and a dry run that returns report the same
    per-merchant aggregates: the same stores in the same order, each with
    the same [totalSales], [commissionAmount], [payoutAmount] and
    [paymentsCount] (the statement id apart, which a dry run leaves
    [null]), and so the same number of statements and of payments. *)
Theorem dry_run_matches_mutating_run :
  forall env env' periodStart periodEnd db r db1 r' db2,
    runSettlementPeriod env periodStart periodEnd false db = (Returned r, db1) ->
    runSettlementPeriod env' periodStart periodEnd true db = (Returned r', db2) ->
    report_settlements r' = map dry (report_settlements r)
    /\ report_totalStatements r' = report_totalStatements r
    /\ report_totalPayments r' = report_totalPayments r.
Proof.
  intros env env' periodStart periodEnd db r db1 r' db2 H H'.
  apply returned_run_inv in H. apply returned_dry_run_inv in H'.
  destruct H as (ps & pe & -> & -> & Hlt & H).
  destruct H' as (ps' & pe' & E1 & E2 & _ & H').
  inversion E1; inversion E2; subst ps' pe'; clear E1 E2.
  destruct H as [(Hn & -> & _) | (Hn & logId & tx1 & c & tx' & _ & _ & Hs & -> & _)];
    destruct H' as [(Hn' & ->) | (Hn' & ->)]; try contradiction.
  - repeat split.
  - apply settleStores_spec in Hs. destruct Hs as (_ & _ & D).
    destruct (D c eq_refl) as (R & _). simpl in R.
    unfold simulateSettlement. simpl.
    rewrite R. split; [reflexivity |]. split; [| reflexivity].
    rewrite <- R, count_map. reflexivity.
Qed.

(** ** Groups without sales *)

(** C8.  In a mutating run that returns, a merchant group whose summed
    total is not positive gets no settlement statement (every statement of
    that store in the store afterwards was there before), each of its
    payments is still in the [payments] table exactly as it was, with
    [is_settled = 0], and all of its payments are in the skipped counter:
    the counter is the number of payments of all such groups plus the
    payments of the other groups whose conditional update found no row.
    The payment ids are the primary key of [payments]. *)
Theorem group_without_sales_is_skipped :
  forall env ps pe db report db' s rows,
    NoDup (map p_id (payments db)) ->
    runSettlementPeriod env (DateAt ps) (DateAt pe) false db
    = (Returned report, db') ->
    In (s, rows) (groupByStore (select_eligible ps pe db)) ->
    sum_amounts rows <= 0 ->
    (forall st, In st (settlement_statements db') -> s_store_id st = s ->
                In st (settlement_statements db))
    /\ (forall p, In p (payments db) -> eligible ps pe p = true ->
                  p_store_id p = s ->
                  In p (payments db') /\ p_is_settled p = false)
    /\ (exists lost,
          0 <= lost
          /\ report_skippedPaymentCount report
             = rows_in (filter (fun g => negb (positive g))
                          (groupByStore (select_eligible ps pe db))) + lost
          /\ report_successPaymentCount report + lost
             = rows_in (filter positive (groupByStore (select_eligible ps pe db))))
    /\ count rows <= report_skippedPaymentCount report.
Proof.
  intros env ps pe db report db' s rows ND H Hg Hsum.
  apply returned_run_inv in H.
  destruct H as (ps' & pe' & E1 & E2 & _ & H).
  inversion E1; inversion E2; subst ps' pe'; clear E1 E2.
  set (l := select_eligible ps pe db) in *.
  destruct H as [(Hn & _) | (_ & logId & tx1 & c & tx' & Hb & Hw & Hs & -> & Hc)].
  { rewrite Hn in Hg. contradiction. }
  assert (Hneg : positive (s, rows) = false).
  { unfold positive. simpl. apply negb_false_iff. apply Z.leb_le. exact Hsum. }
  assert (Hrows : forall rows', In (s, rows') (groupByStore l) -> rows' = rows).
  { intros rows' H'. apply groupByStore_In in H'. apply groupByStore_In in Hg.
    destruct H', Hg. congruence. }
  apply settleStores_spec in Hs.
  destruct Hs as ([_ (F & _)] & (L & EL & FL) & D).
  destruct (D c eq_refl) as (_ & _ & _ & (lost & Hl & Hk & Hsc) & _).
  simpl in Hk, Hsc.
  destruct Hw as (Wp & _ & _ & Ws & _), Hc as (Cp & _ & _ & Cs & _).
  repeat split.
  - intros st Hst Hs. rewrite Cs, EL, Ws in Hst.
    apply in_app_or in Hst. destruct Hst as [Hst | Hst]; [exact Hst |].
    exfalso. rewrite Forall_forall in FL.
    destruct (FL st Hst) as (rows' & Hin & Hp & _). rewrite Hs in Hin, Hp.
    rewrite (Hrows rows' Hin) in Hp. congruence.
  - rename H into Hp. rewrite Wp in F.
    destruct (Forall2_In_l _ _ _ _ _ F Hp) as (p' & Hp' & [-> | (Hid & _)]).
    + rewrite Cp. exact Hp'.
    + exfalso. apply positive_ids_In in Hid.
      destruct Hid as (s' & rows' & r & Hin & Hpos & Hr & Hi).
      pose proof (groupByStore_In _ _ _ Hin) as [Er _]. subst rows'.
      apply rows_of_store_In in Hr. destruct Hr as [Hr Hst].
      apply select_eligible_In in Hr. destruct Hr as (p1 & Hp1 & _ & <-).
      simpl in Hi, Hst.
      assert (p1 = p) by (eapply NoDup_map_injective; eauto).
      subst p1. rewrite H1 in Hst. subst s'.
      rewrite (Hrows _ Hin) in Hpos. congruence.
  - eapply eligible_unsettled; eassumption.
  - exists lost. simpl. repeat split; [exact Hl | lia | lia].
  - simpl. rewrite Hk.
    assert (count rows
            <= rows_in (filter (fun g => negb (positive g)) (groupByStore l))).
    { clear - Hg Hneg. induction (groupByStore l) as [| g gs IH]; [contradiction |].
      simpl. destruct Hg as [-> | Hg].
      - rewrite Hneg. simpl.
        assert (0 <= rows_in (filter (fun g => negb (positive g)) gs)).
        { clear. induction gs as [| g gs IH]; simpl; [lia |].
          destruct (negb (positive g)); simpl; [| exact IH].
          pose proof (count_nonneg _ (snd g)). lia. }
        lia.
      - specialize (IH Hg). destruct (negb (positive g)); simpl; [| exact IH].
        pose proof (count_nonneg _ (snd g)). lia. }
    lia.
Qed.

(** ** Running again over the same window *)





(** ** Webhooks *)

(** The paths of [processWebhook], one goal each. *)
Ltac webhook_unfold :=
  unfold processWebhook, reconcile, checkWebhookIdempotency, saveWebhookHistory,
    handlePaymentStatusChanged, handlePaymentCanceled, when_reservation,
    statement, accepted, bind, exec, ret, raise, beginTransaction, commit,
    update_payment_where_id, update_reservation_where_id;
  cbn [work base trace fst snd].

Ltac webhook_split :=
  repeat (match goal with
          | |- context [match filter ?f (payments ?d) with _ => _ end] =>
              let F := fresh "Found" in
              destruct (filter f (payments d)) as [| payment others] eqn:F
          | |- context [match or_null ?x with _ => _ end] =>
              let R := fresh "Res" in destruct (or_null x) eqn:R
          | |- context [match ?x with Some _ => _ | None => _ end] =>
              lazymatch x with
              | _ (W_select_payment _) => idtac
              | _ (W_select_webhooks _) => idtac
              | _ (W_insert_webhook _) => idtac
              | _ (W_update_payment _) => idtac
              | _ (W_update_reservation _) => idtac
              | webhook_row_refused _ _ => idtac
              | payment_update_refused _ _ _ _ _ => idtac
              | reservation_update_refused _ _ _ _ => idtac
              end;
              let S := fresh "Stmt" in destruct x eqn:S
          | |- context [if ?c then _ else _] =>
              lazymatch c with
              | context [ev_eventType] => idtac
              | context [ev_orderId] => idtac
              | context [ev_status] => idtac
              | context [payment_webhooks] => idtac
              | context [isValidStatusTransition] => idtac
              end;
              let E := fresh "E" in destruct c eqn:E
          end; cbn [work base trace fst snd]).

Ltac webhook_paths := webhook_unfold; webhook_split.

Lemma filter_none :
  forall A (f : A -> bool) l, (forall x, In x l -> f x = false) -> filter f l = [].
Proof.
  intros A f l H. induction l as [| x l IH]; [reflexivity |].
  simpl. rewrite (H x) by (left; reflexivity).
  apply IH. intros y Hy. apply H. right. exact Hy.
Qed.

Lemma filter_map_commute :
  forall A (f : A -> A) (t : A -> bool) l,
    (forall x, t (f x) = t x) -> filter t (map f l) = map f (filter t l).
Proof.
  intros A f t l H. induction l as [| x l IH]; simpl; [reflexivity |].
  rewrite H. destruct (t x); simpl; rewrite IH; reflexivity.
Qed.

Lemma update_where_keeps_order_id :
  forall paymentId f,
    keeps_order_id f ->
    keeps_order_id (fun p => if p_id p =? paymentId then f p else p).
Proof.
  intros paymentId f H p. destruct (p_id p =? paymentId); [apply H | reflexivity].
Qed.

Lemma found_after_update :
  forall orderId f l,
    keeps_order_id f ->
    filter (fun p => String.eqb (p_pg_order_id p) orderId) (map f l)
    = map f (filter (fun p => String.eqb (p_pg_order_id p) orderId) l).
Proof.
  intros orderId f l H. apply filter_map_commute.
  intro p. rewrite H. reflexivity.
Qed.

(** What one delivery that is processed (it returns, and not as a replay)
    leaves behind: the event row, appended with the time of the delivery;
    payments rewritten in place with their order ids; at most one statement
    on [payments]. *)
Lemma processed_delivery :
  forall fault webhookId now ev db reply db1 stmts,
    processWebhook fault webhookId now ev db = (Returned reply, db1, stmts) ->
    message reply <> "Already processed (idempotent)" ->
    (String.eqb (ev_eventType ev) "" || String.eqb (ev_orderId ev) "" = false)
    /\ (exists payment,
          payment_webhooks db1
          = payment_webhooks db ++
            [mkWebhookRow webhookId (p_id payment) (ev_orderId ev)
                          (or_null (ev_paymentKey ev)) (ev_eventType ev)
                          (ev_status ev) ev now])
    /\ (exists f, keeps_order_id f /\ payments db1 = map f (payments db))
    /\ filter (fun p => String.eqb (p_pg_order_id p) (ev_orderId ev)) (payments db)
       <> []
    /\ count (filter writes_payments stmts) <= 1.
Proof.
  intros fault webhookId now ev db reply db1 stmts.
  assert (Hid : keeps_order_id (fun p => p)) by (intro p; reflexivity).
  webhook_paths; intros H Hm; inversion H; subst; clear H;
    try (exfalso; apply Hm; reflexivity);
    cbn [payments payment_webhooks set_payments set_payment_webhooks
         set_reservations];
    (split; [reflexivity |]);
    (split; [exists payment; reflexivity |]);
    (split; [first [ exists (fun p => p); split;
                       [exact Hid | rewrite map_id; reflexivity]
                   | eexists; split; [| reflexivity];
                     apply update_where_keeps_order_id; intro p; reflexivity ] |]);
    (split; [discriminate | unfold count; simpl; lia]).
Qed.

(** A delivery of an event whose row, not older than the window, is in
    [payment_webhooks], and whose payment exists, is answered as a replay
    when its two reads run: no write. *)
Lemma replay_short_circuits :
  forall fault webhookId now ev db w,
    (String.eqb (ev_eventType ev) "" || String.eqb (ev_orderId ev) "" = false) ->
    filter (fun p => String.eqb (p_pg_order_id p) (ev_orderId ev)) (payments db)
    <> [] ->
    In w (payment_webhooks db) ->
    same_webhook now (ev_orderId ev) (ev_eventType ev) (ev_status ev) w = true ->
    fault (W_select_payment (ev_orderId ev)) = None ->
    fault (W_select_webhooks (ev_orderId ev)) = None ->
    processWebhook fault webhookId now ev db
    = (Returned (mkReply true "Already processed (idempotent)"), db,
       [W_select_payment (ev_orderId ev); W_select_webhooks (ev_orderId ev)]).
Proof.
  intros fault webhookId now ev db w Hv Hf Hw Hs F1 F2.
  unfold processWebhook. rewrite Hv.
  unfold reconcile, checkWebhookIdempotency, statement, accepted, bind, exec,
    ret, raise, beginTransaction.
  cbn [work base trace fst snd]. rewrite F1.
  cbn [work base trace fst snd].
  destruct (filter (fun p => String.eqb (p_pg_order_id p) (ev_orderId ev))
                   (payments db)) as [| payment others]; [contradiction |].
  cbn [work base trace fst snd]. rewrite F2.
  cbn [work base trace fst snd].
  assert (Hc : (0 <? count (filter (same_webhook now (ev_orderId ev)
                                      (ev_eventType ev) (ev_status ev))
                              (payment_webhooks db))) = true).
  { apply Z.ltb_lt.
    assert (Hin : In w (filter (same_webhook now (ev_orderId ev) (ev_eventType ev)
                                  (ev_status ev)) (payment_webhooks db)))
      by (apply filter_In; auto).
    destruct (filter _ (payment_webhooks db)); [contradiction |].
    unfold count. simpl List.length. lia. }
  rewrite Hc. reflexivity.
Qed.

(** C5 (as amended).  When the first delivery of an event that carries a
    status is processed (it returns, and is not itself answered as a replay
    of an older row), a second delivery of the same event within the hour,
    whose two reads run, is caught by the idempotency check: it returns the
    already-processed reply after the two reads and leaves the whole store,
    so the payments, as the first delivery left it.  The payment is
    therefore mutated at most once, by the first delivery, which runs at
    most one statement on [payments]. *)
Theorem second_delivery_is_a_replay :
  forall fault fault2 webhookId webhookId2 now now2 ev status db reply db1 stmts,
    processWebhook fault webhookId now ev db = (Returned reply, db1, stmts) ->
    message reply <> "Already processed (idempotent)" ->
    ev_status ev = Some status ->
    now <= now2 <= now + recency_window ->
    fault2 (W_select_payment (ev_orderId ev)) = None ->
    fault2 (W_select_webhooks (ev_orderId ev)) = None ->
    processWebhook fault2 webhookId2 now2 ev db1
    = (Returned (mkReply true "Already processed (idempotent)"), db1,
       [W_select_payment (ev_orderId ev); W_select_webhooks (ev_orderId ev)])
    /\ count (filter writes_payments stmts) <= 1.
Proof.
  intros fault fault2 webhookId webhookId2 now now2 ev status db reply db1 stmts
         H Hm Hst Hw F1 F2.
  destruct (processed_delivery _ _ _ _ _ _ _ _ H Hm)
    as (Hv & (payment & Hrow) & (f & Hk & Hp) & Hf & Hc).
  split; [| exact Hc].
  eapply replay_short_circuits.
  - exact Hv.
  - rewrite Hp, found_after_update by exact Hk.
    destruct (filter _ (payments db)); [contradiction | discriminate].
  - rewrite Hrow. apply in_or_app. right. left. reflexivity.
  - unfold same_webhook. simpl. rewrite Hst, !String.eqb_refl. simpl.
    apply Z.leb_le. unfold recency_window in *. lia.
  - exact F1.
  - exact F2.
Qed.

(** An event without a status is never caught by the idempotency check: the
    comparison with NULL finds no row, whatever has been recorded. *)
Lemma event_without_status_is_never_a_replay :
  forall fault webhookId now ev db out db' stmts,
    ev_status ev = None ->
    processWebhook fault webhookId now ev db = (out, db', stmts) ->
    out <> Returned (mkReply true "Already processed (idempotent)").
Proof.
  intros fault webhookId now ev db out db' stmts Hst.
  assert (K : forall d,
             filter (same_webhook now (ev_orderId ev) (ev_eventType ev) None) d
             = []).
  { intro d. apply filter_none. intros w _. unfold same_webhook.
    rewrite andb_false_r. reflexivity. }
  webhook_unfold. rewrite Hst. webhook_split;
    intro H; inversion H; subst; clear H; try discriminate.
  all: rewrite K in *; discriminate.
Qed.


(** ** Commission arithmetic in binary64 *)



















(** At 3 * 2^51 the product is a tie that rounds up to the next integer. *)
Lemma commission_inexact :
  commissionOf 6755399441055744 = 1351079888211149
  /\ 6755399441055744 / 5 = 1351079888211148.
Proof. split; vm_compute; reflexivity. Qed.

(** ** Sums in binary64 *)


Lemma pow2_split :
  forall a b, 0 <= a -> 0 <= b -> 2 ^ (a + b) = 2 ^ a * 2 ^ b.
Proof. intros a b Ha Hb. apply Z.pow_add_r; assumption. Qed.






(** ** What a failed run leaves behind *)

(** C1 (fails on the code).  The insert of the second settlement item
    raises.  The run has inserted its log row and, in the [catch] block, set
    it to failed with the error message; the rollback that follows undoes
    both, as they were made in the transaction it ends.  The store after the
    run is the store before it: [settlement_logs] has no row of the run. *)
Theorem failed_run_leaves_no_log :
  runSettlementPeriod item_fails (DateAt 0) (DateAt 50) false ledger
  = (Threw "Duplicate entry", ledger)
  /\ settlement_logs ledger = [].
Proof. split; vm_compute; reflexivity. Qed.

(** With transactional log tables this is so for every run that throws. *)
Lemma thrown_run_leaves_no_log :
  forall env periodStart periodEnd dryRun db e db',
    log_engine env = InnoDB ->
    runSettlementPeriod env periodStart periodEnd dryRun db = (Threw e, db') ->
    settlement_logs db' = settlement_logs db.
Proof.
  intros env periodStart periodEnd dryRun db e db' Heng H.
  destruct (thrown_run_is_rolled_back env _ _ _ _ _ _ Heng H) as (I & _ & _ & Hl).
  exact Hl.
Qed.

(** Only on log tables without transactions does the row survive. *)
Lemma failed_run_untransacted :
  map (fun l => (l_status l, l_error_message l))
      (settlement_logs
         (snd (runSettlementPeriod item_fails_untransacted
                 (DateAt 0) (DateAt 50) false ledger)))
  = [(Log_failed, Some "Duplicate entry")].
Proof. vm_compute. reflexivity. Qed.

(** ** Group aggregates *)




(** ** A total beyond the exact range *)





Lemma sum_amounts_app :
  forall l1 l2, sum_amounts (l1 ++ l2) = sum_amounts l1 + sum_amounts l2.
Proof.
  intros l1 l2. unfold sum_amounts at 1. rewrite fold_left_app.
  rewrite fold_sum_shift. reflexivity.
Qed.






(** ** The properties on the example stores *)

(** The scenario of two payments of one merchant, 15000 and 25000: one
    statement of 40000 with 8000 of commission and 32000 of payout, two
    items, both payments settled under the new statement; the payment of
    the merchant without sales stays as it was. *)
Lemma two_payments_scenario :
  fst settled_ledger = Returned settled_report
  /\ map (fun st => (s_store_id st, s_total_sales st, s_commission_amount st,
                     s_payout_amount st, s_status st))
         (settlement_statements (snd settled_ledger))
     = [("M", 40000, 8000, 32000, St_pending)]
  /\ map (fun it => (i_statement_id it, i_payment_id it, i_amount it))
         (settlement_items (snd settled_ledger))
     = [(1, 1, 15000); (1, 2, 25000)]
  /\ map (fun p => (p_id p, p_is_settled p, p_settlement_statement_id p))
         (payments (snd settled_ledger))
     = [(1, true, Some 1); (2, true, Some 1); (3, false, None)]
  /\ map l_status (settlement_logs (snd settled_ledger)) = [Log_success].
Proof. repeat split. Qed.




(** C5 (fails as stated): the payment is FAILED and the gateway
    reports DONE, twice within the hour.  The first delivery is recorded and
    rejected as an invalid transition, the second is answered as a replay;
    neither runs a statement on [payments], which is mutated zero times, not
    once. *)
Lemma rejected_event_mutates_nothing :
  processWebhook no_fault "webhook-1" 1000 done_event failed_ledger
  = (Returned (mkReply false "Invalid status transition"),
     snd (fst first_rejected), snd first_rejected)
  /\ processWebhook no_fault "webhook-2" 1500 done_event (snd (fst first_rejected))
     = (Returned (mkReply true "Already processed (idempotent)"),
        snd (fst first_rejected),
        [W_select_payment "order-7"; W_select_webhooks "order-7"])
  /\ count (filter writes_payments
              (snd first_rejected
               ++ [W_select_payment "order-7"; W_select_webhooks "order-7"])) = 0
  /\ payments (snd (fst first_rejected)) = payments failed_ledger.
Proof.
  split; [vm_compute; reflexivity |].
  split; [vm_compute; reflexivity |].
  split; vm_compute; reflexivity.
Qed.

Lemma second_delivery_is_a_replay_witness :
  processWebhook no_fault "webhook-1" 1000 done_event pending_ledger
  = (Returned (mkReply true "Webhook processed successfully"),
     snd (fst first_delivery), snd first_delivery)
  /\ message (mkReply true "Webhook processed successfully")
     <> "Already processed (idempotent)"
  /\ ev_status done_event = Some "DONE"
  /\ 1000 <= 1500 <= 1000 + recency_window
  /\ (processWebhook no_fault "webhook-2" 1500 done_event (snd (fst first_delivery))
      = (Returned (mkReply true "Already processed (idempotent)"),
         snd (fst first_delivery),
         [W_select_payment (ev_orderId done_event);
          W_select_webhooks (ev_orderId done_event)])
      /\ count (filter writes_payments (snd first_delivery)) <= 1).
Proof.
  assert (H1 : processWebhook no_fault "webhook-1" 1000 done_event pending_ledger
               = (Returned (mkReply true "Webhook processed successfully"),
                  snd (fst first_delivery), snd first_delivery))
    by (vm_compute; reflexivity).
  assert (H2 : message (mkReply true "Webhook processed successfully")
               <> "Already processed (idempotent)")
    by (simpl; discriminate).
  assert (H3 : 1000 <= 1500 <= 1000 + recency_window)
    by (unfold recency_window; lia).
  split; [exact H1 |]. split; [exact H2 |]. split; [reflexivity |].
  split; [exact H3 |].
  exact (second_delivery_is_a_replay no_fault no_fault "webhook-1" "webhook-2"
           1000 1500 done_event "DONE" pending_ledger _ _ _ H1 H2 eq_refl H3
           eq_refl eq_refl).
Defined.



Lemma group_without_sales_is_skipped_witness :
  NoDup (map p_id (payments ledger))
  /\ runSettlementPeriod quiet (DateAt 0) (DateAt 50) false ledger
     = (Returned settled_report, snd settled_ledger)
  /\ In ("A", [mkRow 3 "A" 0 5]) (groupByStore (select_eligible 0 50 ledger))
  /\ sum_amounts [mkRow 3 "A" 0 5] <= 0
  /\ ((forall st, In st (settlement_statements (snd settled_ledger)) ->
                  s_store_id st = "A" ->
                  In st (settlement_statements ledger))
      /\ (forall p, In p (payments ledger) -> eligible 0 50 p = true ->
                    p_store_id p = "A" ->
                    In p (payments (snd settled_ledger)) /\ p_is_settled p = false)
      /\ (exists lost,
            0 <= lost
            /\ report_skippedPaymentCount settled_report
               = rows_in (filter (fun g => negb (positive g))
                            (groupByStore (select_eligible 0 50 ledger))) + lost
            /\ report_successPaymentCount settled_report + lost
               = rows_in (filter positive
                            (groupByStore (select_eligible 0 50 ledger))))
      /\ count [mkRow 3 "A" 0 5] <= report_skippedPaymentCount settled_report).
Proof.
  assert (H1 : NoDup (map p_id (payments ledger))).
  { simpl. repeat constructor; simpl; lia. }
  assert (H2 : runSettlementPeriod quiet (DateAt 0) (DateAt 50) false ledger
               = (Returned settled_report, snd settled_ledger))
    by (vm_compute; reflexivity).
  assert (H3 : In ("A", [mkRow 3 "A" 0 5])
                  (groupByStore (select_eligible 0 50 ledger)))
    by (vm_compute; left; reflexivity).
  assert (H4 : sum_amounts [mkRow 3 "A" 0 5] <= 0) by (vm_compute; discriminate).
  split; [exact H1 |]. split; [exact H2 |]. split; [exact H3 |]. split; [exact H4 |].
  exact (group_without_sales_is_skipped quiet 0 50 ledger settled_report
           (snd settled_ledger) "A" [mkRow 3 "A" 0 5] H1 H2 H3 H4).
Defined.

Lemma dry_run_matches_mutating_run_witness :
  runSettlementPeriod quiet (DateAt 0) (DateAt 50) false ledger
  = (Returned settled_report, snd settled_ledger)
  /\ runSettlementPeriod quiet (DateAt 0) (DateAt 50) true ledger
     = (Returned dry_report, snd dry_ledger)
  /\ (report_settlements dry_report = map dry (report_settlements settled_report)
      /\ report_totalStatements dry_report = report_totalStatements settled_report
      /\ report_totalPayments dry_report = report_totalPayments settled_report).
Proof.
  assert (H1 : runSettlementPeriod quiet (DateAt 0) (DateAt 50) false ledger
               = (Returned settled_report, snd settled_ledger))
    by (vm_compute; reflexivity).
  assert (H2 : runSettlementPeriod quiet (DateAt 0) (DateAt 50) true ledger
               = (Returned dry_report, snd dry_ledger))
    by (vm_compute; reflexivity).
  split; [exact H1 |]. split; [exact H2 |].
  exact (dry_run_matches_mutating_run quiet quiet (DateAt 0) (DateAt 50) ledger
           settled_report (snd settled_ledger) dry_report (snd dry_ledger) H1 H2).
Defined.

(** ** Statement totals against items *)

Lemma fresh_id_above : forall ids i, In i ids -> i < fresh_id ids.
Proof.
  unfold fresh_id. induction ids as [| x ids IH]; intros i H; [contradiction |].
  cbn [fold_right]. destruct H as [-> | H]; [lia |]. specialize (IH i H). lia.
Qed.

Lemma fresh_id_new : forall ids, ~ In (fresh_id ids) ids.
Proof. intros ids H. apply fresh_id_above in H. lia. Qed.







Lemma NoDup_map_filter :
  forall A B (f : A -> B) (t : A -> bool) l,
    NoDup (map f l) -> NoDup (map f (filter t l)).
Proof.
  intros A B f t l. induction l as [| x l IH]; intro H; [constructor |].
  simpl in H. inversion H as [| ? ? Hx H']; subst.
  simpl. destruct (t x); [| apply IH; exact H'].
  simpl. constructor; [| apply IH; exact H'].
  intro Hin. apply Hx. apply in_map_iff in Hin.
  destruct Hin as (y & E & Hy). apply filter_In in Hy.
  apply in_map_iff. exists y. tauto.
Qed.




Section Totals.

Variable env : Env.








End Totals.


(** * The run as a whole *)

(** ** Period validation *)

(** X1.  A call whose bounds do not make a window is refused before the
    store is touched: a missing bound, a bound that is not a [Date], or an
    end that is not after the start (equal bounds included) throws the
    message of the first check that fails, in the order of the code, and
    leaves every table as it was. *)
Theorem invalid_period_is_refused :
  forall env periodStart periodEnd dryRun db,
    (forall ps pe, periodStart = DateAt ps -> periodEnd = DateAt pe -> pe <= ps) ->
    exists m,
      runSettlementPeriod env periodStart periodEnd dryRun db = (Threw m, db)
      /\ (periodStart = Absent \/ periodEnd = Absent ->
          m = "periodStart, periodEnd 는 필수입니다.")
      /\ (periodStart <> Absent -> periodEnd <> Absent ->
          periodStart = NotDate \/ periodEnd = NotDate ->
          m = "periodStart, periodEnd 는 Date 객체여야 합니다.")
      /\ (forall ps pe, periodStart = DateAt ps -> periodEnd = DateAt pe ->
          m = "periodEnd 는 periodStart 보다 이후여야 합니다.").
Proof.
  intros env s e dryRun db H.
  assert (Hle : forall ps pe, s = DateAt ps -> e = DateAt pe -> (pe <=? ps) = true)
    by (intros ps pe E1 E2; apply Z.leb_le; exact (H ps pe E1 E2)).
  clear H.
  destruct s as [| | ps]; destruct e as [| | pe]; simpl;
    try rewrite (Hle ps pe eq_refl eq_refl);
    (eexists; split; [reflexivity |];
     split; [intros [E | E]; solve [discriminate E | reflexivity] |];
     split; [intros A B [E | E];
             solve [reflexivity | discriminate E
                   | exfalso; apply A; reflexivity
                   | exfalso; apply B; reflexivity]
            | intros a b E1 E2;
              solve [discriminate E1 | discriminate E2 | reflexivity]]).
Qed.

(** ** A window without eligible payments *)

Lemma update_log_fresh :
  forall f row db,
    (forall l, In l (settlement_logs db) -> l_id l <> l_id row) ->
    update_log (l_id row) f (set_settlement_logs (settlement_logs db ++ [row]) db)
    = set_settlement_logs (settlement_logs db ++ [f row]) db.
Proof.
  intros f row db H. unfold update_log, set_settlement_logs. cbn.
  f_equal. rewrite map_app. cbn. rewrite Z.eqb_refl. f_equal.
  rewrite <- (map_id (settlement_logs db)) at 2.
  apply map_ext_in. intros l Hl.
  destruct (l_id l =? l_id row) eqn:E; [| reflexivity].
  apply Z.eqb_eq in E. exfalso. exact (H l Hl E).
Qed.

Lemma fresh_log_id :
  forall db l, In l (settlement_logs db) ->
               l_id l <> fresh_id (map l_id (settlement_logs db)).
Proof.
  intros db l Hl E. apply (fresh_id_new (map l_id (settlement_logs db))).
  rewrite <- E. apply in_map. exact Hl.
Qed.

(** X2.  Over a window without eligible payments, when the three statements
    of that path do not raise, a run returns the noop report and adds
    exactly one row to [settlement_logs]: status noop, the message of the
    empty path, both dates of the clock, all counters zero.  The [dryRun]
    flag makes no difference. *)
Theorem run_over_an_empty_window :
  forall env ps pe dryRun db,
    ps < pe ->
    select_eligible ps pe db = [] ->
    fault env Q_insert_log = None ->
    fault env Q_select_payments = None ->
    fault env Q_update_log_noop = None ->
    runSettlementPeriod env (DateAt ps) (DateAt pe) dryRun db
    = (Returned NoopReport,
       set_settlement_logs
         (settlement_logs db ++
          [mkLogRow (fresh_id (map l_id (settlement_logs db)))
                    (clock env) (Some (clock env)) ps pe Log_noop
                    "정산 대상 없음" None 0 0 0 0 0 0]) db).
Proof.
  intros env ps pe dryRun db Hw Hs F1 F2 F3.
  unfold runSettlementPeriod.
  assert (E : (pe <=? ps) = false) by (apply Z.leb_gt; exact Hw).
  rewrite E.
  unfold insert_log_skeleton, query. rewrite F1.
  unfold exec, beginTransaction. cbn [work base trace].
  unfold settle_period, bind, query. rewrite F2.
  unfold exec. cbn [work base trace].
  rewrite select_eligible_logs, Hs. cbn [count List.length Z.of_nat Z.eqb].
  rewrite F3. cbn [work base trace commit ret].
  f_equal.
  set (row := mkLogRow (fresh_id (map l_id (settlement_logs db))) (clock env) None
                       ps pe Log_noop "정산 시작" None 0 0 0 0 0 0).
  change (fresh_id (map l_id (settlement_logs db))) with (l_id row) at 1.
  rewrite update_log_fresh; [reflexivity |].
  intros l Hl. apply fresh_log_id. exact Hl.
Qed.

(** ** A run that throws *)

Lemma keeps_base_ret : forall A (a : A), keeps_base (ret a).
Proof. intros A a tx out tx' H. inversion H. reflexivity. Qed.

Lemma keeps_base_raise : forall A m, keeps_base (@raise A m).
Proof. intros A m tx out tx' H. inversion H. reflexivity. Qed.

Lemma keeps_base_bind :
  forall A B (c : M A) (k : A -> M B),
    keeps_base c -> (forall a, keeps_base (k a)) -> keeps_base (bind c k).
Proof.
  intros A B c k Hc Hk tx out tx' H. unfold bind in H.
  destruct (c tx) as [[a | e] tx1] eqn:E.
  - rewrite (Hk a _ _ _ H). exact (Hc _ _ _ E).
  - inversion H; subst. exact (Hc _ _ _ E).
Qed.

Lemma keeps_base_try_catch :
  forall A (c : M A) h,
    keeps_base c -> (forall e, keeps_base (h e)) -> keeps_base (try_catch c h).
Proof.
  intros A c h Hc Hh tx out tx' H. unfold try_catch in H.
  destruct (c tx) as [[a | e] tx1] eqn:E.
  - inversion H; subst. exact (Hc _ _ _ E).
  - rewrite (Hh e _ _ _ H). exact (Hc _ _ _ E).
Qed.

Lemma keeps_base_query :
  forall A env q (f : DB -> A * DB), keeps_base (query env q f).
Proof.
  intros A env q f tx out tx' H. unfold query, exec in H.
  destruct (fault env q).
  - inversion H. reflexivity.
  - destruct (f (work tx)). inversion H. reflexivity.
Qed.

Section Undisturbed.

Variable env : Env.

Lemma keeps_base_logSettlementError :
  forall a b c d e f g, keeps_base (logSettlementError env a b c d e f g).
Proof.
  intros. unfold logSettlementError.
  apply keeps_base_try_catch; [apply keeps_base_query |].
  intro. apply keeps_base_ret.
Qed.

Lemma keeps_base_update_payment :
  forall sid p, keeps_base (update_payment env sid p).
Proof.
  intros sid p. unfold update_payment. apply keeps_base_query.
Qed.

Lemma keeps_base_settlePayments :
  forall logId storeId sid rows c,
    keeps_base (settlePayments env logId storeId sid rows c).
Proof.
  intros logId storeId sid rows.
  induction rows as [| p rest IH]; intro c; simpl.
  - apply keeps_base_ret.
  - apply keeps_base_bind; [apply keeps_base_update_payment |].
    intro n. destruct (n =? 0).
    + apply keeps_base_bind; [apply keeps_base_logSettlementError |].
      intro. apply IH.
    + apply keeps_base_bind.
      * apply keeps_base_try_catch; [apply keeps_base_query |].
        intro e. apply keeps_base_bind; [apply keeps_base_logSettlementError |].
        intro. apply keeps_base_raise.
      * intro. apply IH.
Qed.

Lemma keeps_base_settleStores :
  forall logId ps pe groups c,
    keeps_base (settleStores env logId ps pe groups c).
Proof.
  intros logId ps pe groups.
  induction groups as [| [s rows] rest IH]; intro c; simpl.
  - apply keeps_base_ret.
  - destruct (sum_amounts rows <=? 0); [apply IH |].
    apply keeps_base_bind.
    + apply keeps_base_try_catch; [apply keeps_base_query |].
      intro e. apply keeps_base_bind; [apply keeps_base_logSettlementError |].
      intro. apply keeps_base_raise.
    + intro sid. apply keeps_base_bind.
      * destruct (sid =? 0); [| apply keeps_base_ret].
        apply keeps_base_bind; [apply keeps_base_logSettlementError |].
        intro. apply keeps_base_raise.
      * intro. apply keeps_base_bind; [apply keeps_base_settlePayments |].
        intro. apply IH.
Qed.

Lemma keeps_base_settle_period :
  forall logId ps pe dryRun, keeps_base (settle_period env logId ps pe dryRun).
Proof.
  intros logId ps pe dryRun. unfold settle_period.
  apply keeps_base_bind; [apply keeps_base_query |].
  intro rows. destruct (count rows =? 0).
  - apply keeps_base_bind; [apply keeps_base_query | intro; apply keeps_base_ret].
  - destruct dryRun.
    + destruct (simulateSettlement rows).
      apply keeps_base_bind; [apply keeps_base_query | intro; apply keeps_base_ret].
    + apply keeps_base_bind; [apply keeps_base_settleStores |].
      intro c.
      apply keeps_base_bind; [apply keeps_base_query | intro; apply keeps_base_ret].
Qed.

Lemma fail_run_restores :
  forall logId m tx, log_engine env = InnoDB -> fail_run env logId m tx = base tx.
Proof.
  intros logId m tx HE. unfold fail_run, rollback. rewrite HE.
  destruct logId as [logId |]; [| reflexivity].
  destruct (try_catch _ _ tx) as [out tx'] eqn:E. cbn [snd].
  revert E. apply keeps_base_try_catch; [apply keeps_base_query |].
  intro. apply keeps_base_ret.
Qed.

(** X3.  All or nothing: with transactional log tables, a run that throws,
    wherever it does, leaves the store exactly as it found it. *)
Theorem thrown_run_changes_nothing :
  forall periodStart periodEnd dryRun db e db',
    log_engine env = InnoDB ->
    runSettlementPeriod env periodStart periodEnd dryRun db = (Threw e, db') ->
    db' = db.
Proof.
  intros s e dryRun db m db' HE H. unfold runSettlementPeriod in H.
  destruct s as [| | ps]; destruct e as [| | pe];
    try (inversion H; reflexivity).
  destruct (pe <=? ps); [inversion H; reflexivity |].
  destruct (insert_log_skeleton env (clock env) ps pe (beginTransaction db))
    as [[logId | e1] tx] eqn:E1.
  - pose proof (keeps_base_query _ env _ _ _ _ _ E1) as B1.
    destruct (settle_period env logId ps pe dryRun tx) as [[r | e2] tx'] eqn:E2;
      [discriminate |].
    assert (Hd : db' = fail_run env (Some logId) e2 tx')
      by (inversion H; reflexivity).
    rewrite Hd, fail_run_restores by exact HE.
    rewrite (keeps_base_settle_period _ _ _ _ _ _ _ E2). exact B1.
  - pose proof (keeps_base_query _ env _ _ _ _ _ E1) as B1.
    assert (Hd : db' = fail_run env None e1 tx) by (inversion H; reflexivity).
    rewrite Hd, fail_run_restores by exact HE. exact B1.
Qed.

End Undisturbed.

(** ** Grouping by store *)

Lemma groupByStore_snoc :
  forall l p, groupByStore (l ++ [p]) = push_group p (groupByStore l).
Proof. intros l p. unfold groupByStore. rewrite fold_left_app. reflexivity. Qed.

Lemma push_group_perm :
  forall p g, Permutation (flat_map snd (push_group p g)) (flat_map snd g ++ [p]).
Proof.
  intros p g. induction g as [| [s ps] rest IH]; simpl; [apply Permutation_refl |].
  destruct (String.eqb s (store_id p)); simpl.
  - rewrite <- !app_assoc. apply Permutation_app_head.
    apply Permutation_app_comm.
  - rewrite <- app_assoc. apply Permutation_app_head. exact IH.
Qed.

Lemma push_group_rows_in :
  forall p g, rows_in (push_group p g) = rows_in g + 1.
Proof.
  intros p g. induction g as [| [s ps] rest IH]; simpl.
  - unfold count. simpl. lia.
  - destruct (String.eqb s (store_id p)); simpl.
    + unfold count. rewrite length_app. simpl. lia.
    + rewrite IH. lia.
Qed.

Lemma push_group_sales_in :
  forall p g, sales_in (push_group p g) = sales_in g + amount_total p.
Proof.
  intros p g. induction g as [| [s ps] rest IH]; simpl.
  - unfold sum_amounts. simpl. lia.
  - destruct (String.eqb s (store_id p)); simpl.
    + rewrite sum_amounts_app. unfold sum_amounts at 2. simpl. lia.
    + rewrite IH. lia.
Qed.

Lemma rows_in_groupByStore : forall l, rows_in (groupByStore l) = count l.
Proof.
  induction l as [| p l IH] using rev_ind; [reflexivity |].
  rewrite groupByStore_snoc, push_group_rows_in, IH.
  unfold count. rewrite length_app. simpl. lia.
Qed.

Lemma rows_in_split :
  forall groups,
    rows_in (filter positive groups)
    + rows_in (filter (fun g => negb (positive g)) groups) = rows_in groups.
Proof.
  induction groups as [| g rest IH]; [reflexivity |].
  simpl. destruct (positive g); simpl; lia.
Qed.

Lemma groupByStore_keys : forall l, map fst (groupByStore l) = stores l.
Proof.
  intro l. rewrite groupByStore_spec, map_map. simpl. apply map_id.
Qed.

(** X9.  The grouping loop partitions the selected rows: the keys of the
    map are distinct, each group is not empty and holds exactly the rows of
    its store in their order, the groups together are the rows, and the
    totals of the groups add up to the total of the rows. *)
Theorem groupByStore_partitions :
  forall l,
    NoDup (map fst (groupByStore l))
    /\ (forall s rows, In (s, rows) (groupByStore l) ->
          rows <> [] /\ rows = filter (fun r => String.eqb s (store_id r)) l)
    /\ Permutation (flat_map snd (groupByStore l)) l
    /\ sales_in (groupByStore l) = sum_amounts l.
Proof.
  intro l. split; [| split; [| split]].
  - rewrite groupByStore_keys. apply stores_NoDup.
  - intros s rows H. apply groupByStore_In in H. destruct H as [-> Hs].
    split; [| reflexivity].
    apply stores_In in Hs. destruct Hs as (r & Hr & Es).
    intro E. assert (Hin : In r (rows_of_store s l))
      by (apply rows_of_store_In; split; assumption).
    rewrite E in Hin. exact Hin.
  - induction l as [| p l IH] using rev_ind; [apply Permutation_refl |].
    rewrite groupByStore_snoc.
    eapply Permutation_trans; [apply push_group_perm |].
    apply Permutation_app_tail. exact IH.
  - induction l as [| p l IH] using rev_ind; [reflexivity |].
    rewrite groupByStore_snoc, push_group_sales_in, IH, sum_amounts_app.
    unfold sum_amounts at 3. simpl. lia.
Qed.

(** ** The counters of a run *)

Lemma settleStores_successes_grow :
  forall env logId ps pe groups c tx c' tx',
    settleStores env logId ps pe groups c tx = (Done c', tx') ->
    successPaymentCount c <= successPaymentCount c'.
Proof.
  intros env logId ps pe groups.
  induction groups as [| [s rows] rest IH]; intros c tx c' tx' H; simpl in H.
  - inversion H. lia.
  - destruct (sum_amounts rows <=? 0); [exact (IH _ _ _ _ H) |].
    apply bind_inv in H.
    destruct H as [(sid & tx1 & _ & H) | (e & _ & E)]; [| discriminate].
    apply bind_inv in H.
    destruct H as [(u & tx2 & _ & H) | (e & _ & E)]; [| discriminate].
    apply bind_inv in H.
    destruct H as [(c2 & tx3 & H3 & H) | (e & _ & E)]; [| discriminate].
    apply settlePayments_spec in H3. destruct H3 as (_ & _ & D).
    destruct (D c2 eq_refl) as (_ & _ & _ & G & _). simpl in G.
    apply IH in H. simpl in H. lia.
Qed.

(** X4.  In the report of a mutating run that returns, every selected
    payment is counted once: successes and skips add up to the payments
    selected, and neither counter is negative. *)
Theorem every_payment_is_counted_once :
  forall env periodStart periodEnd db report db',
    runSettlementPeriod env periodStart periodEnd false db = (Returned report, db') ->
    report_successPaymentCount report + report_skippedPaymentCount report
    = report_totalPayments report
    /\ 0 <= report_successPaymentCount report
    /\ 0 <= report_skippedPaymentCount report.
Proof.
  intros env s e db report db' H.
  apply returned_run_inv in H.
  destruct H as (ps & pe & _ & _ & _ & H).
  destruct H as [(_ & -> & _) | (_ & logId & tx1 & c & tx' & _ & _ & Hs & -> & _)];
    [simpl; lia |].
  pose proof (settleStores_successes_grow _ _ _ _ _ _ _ _ _ Hs) as G. simpl in G.
  apply settleStores_spec in Hs. destruct Hs as (_ & _ & D).
  destruct (D c eq_refl) as (_ & _ & _ & (lost & Hl & Hk & Hn) & _).
  simpl in Hk, Hn. simpl.
  pose proof (rows_in_split (groupByStore (select_eligible ps pe db))) as R.
  rewrite rows_in_groupByStore in R.
  assert (P : forall g, 0 <= rows_in g).
  { induction g as [| x g IH]; simpl; [lia |].
    pose proof (count_nonneg _ (snd x)). lia. }
  pose proof (P (filter (fun g => negb (positive g))
                        (groupByStore (select_eligible ps pe db)))).
  lia.
Qed.

Lemma sums_of_dry :
  forall l,
    sum_commission (map dry l) = sum_commission l
    /\ sum_payout (map dry l) = sum_payout l
    /\ sum_sales (map dry l) = sum_sales l.
Proof.
  induction l as [| e l (A & B & C)]; simpl; [auto |].
  rewrite A, B, C. auto.
Qed.

Lemma simulateStores_sums :
  forall groups,
    sum_commission (simulateStores groups) + sum_payout (simulateStores groups)
    = sum_sales (simulateStores groups).
Proof.
  induction groups as [| [s rows] rest IH]; simpl; [reflexivity |].
  destruct (sum_amounts rows <=? 0); [exact IH |]. simpl. lia.
Qed.

(** X5.  The totals of the report of a mutating run are the sums over its
    entries: as many statements as entries, the commissions and the payouts
    of the entries summed, and commission and payout together the sales of
    the entries. *)
Theorem report_totals_are_sums :
  forall env periodStart periodEnd db report db',
    runSettlementPeriod env periodStart periodEnd false db = (Returned report, db') ->
    report_totalStatements report = count (report_settlements report)
    /\ report_totalCommission report = sum_commission (report_settlements report)
    /\ report_totalPayout report = sum_payout (report_settlements report)
    /\ report_totalCommission report + report_totalPayout report
       = sum_sales (report_settlements report).
Proof.
  intros env s e db report db' H.
  apply returned_run_inv in H.
  destruct H as (ps & pe & _ & _ & _ & H).
  destruct H as [(_ & -> & _) | (_ & logId & tx1 & c & tx' & _ & _ & Hs & -> & _)];
    [simpl; auto |].
  apply settleStores_spec in Hs. destruct Hs as (_ & _ & D).
  destruct (D c eq_refl) as (R & C & P & _). simpl in R, C, P. simpl.
  destruct (sums_of_dry (settlementsResult c)) as (A1 & A2 & A3).
  pose proof (simulateStores_sums (groupByStore (select_eligible ps pe db))) as T.
  rewrite <- R in C, P, T. rewrite A1 in C, T. rewrite A2 in P, T. rewrite A3 in T.
  split; [reflexivity |]. split; [exact C |]. split; [exact P |]. lia.
Qed.

(** ** The statements a run writes *)

Lemma insert_statement_row :
  forall env storeId ps pe total commission payout n tx sid tx',
    insert_statement env storeId ps pe total commission payout n tx
    = (Done sid, tx') ->
    sid <> 0 ->
    settlement_statements (work tx')
    = settlement_statements (work tx) ++
      [mkStatement sid storeId ps pe total commission_rate_decimal commission
                   payout St_pending "자동 정산 생성" n (clock env)].
Proof.
  intros env storeId ps pe total commission payout n tx sid tx' H Hsid.
  unfold insert_statement in H.
  apply query_inv in H. destruct H as [(e & _ & E & _) | (_ & E & ->)];
    [discriminate |].
  cbn [fst snd] in E. inversion E as [E']; clear E.
  destruct (insertId_lost env storeId); [congruence |]. reflexivity.
Qed.

Lemma settleStores_written :
  forall env logId ps pe groups c tx c' tx',
    settleStores env logId ps pe groups c tx = (Done c', tx') ->
    exists L,
      settlement_statements (work tx') = settlement_statements (work tx) ++ L
      /\ settlementsResult c' = settlementsResult c ++ map entry_of_statement L
      /\ map s_store_id L = map fst (filter positive groups)
      /\ Forall (fun st => s_period_start st = ps /\ s_period_end st = pe
                           /\ s_status st = St_pending
                           /\ s_commission_rate st = commission_rate_decimal) L.
Proof.
  intros env logId ps pe groups.
  induction groups as [| [s rows] rest IH]; intros c tx c' tx' H; simpl in H.
  - inversion H; subst. exists []. simpl. rewrite !app_nil_r. auto.
  - unfold positive at 1. cbn [snd filter].
    destruct (sum_amounts rows <=? 0) eqn:Hz; cbn [negb].
    { apply IH in H. exact H. }
    apply bind_inv in H.
    destruct H as [(sid & tx1 & H1 & H) | (e & _ & E)]; [| discriminate].
    apply bind_inv in H.
    destruct H as [(u & tx2 & H2 & H) | (e & _ & E)]; [| discriminate].
    destruct (sid =? 0) eqn:Hsid.
    { exfalso. apply bind_inv in H2.
      destruct H2 as [(u' & tx3 & _ & Hr) | (e' & _ & Hr)]; discriminate. }
    unfold ret in H2. inversion H2; subst tx2; clear H2.
    apply Z.eqb_neq in Hsid.
    apply try_catch_inv in H1.
    destruct H1 as [(a & H1 & Ea) | (e & tx0 & _ & Hh)].
    2:{ exfalso. apply bind_inv in Hh.
        destruct Hh as [(u' & tx3 & _ & Hr) | (e' & _ & Hr)]; discriminate. }
    inversion Ea; subst a; clear Ea.
    apply insert_statement_row in H1; [| exact Hsid].
    apply bind_inv in H.
    destruct H as [(c2 & tx3 & Hp & H) | (e & _ & E)]; [| discriminate].
    apply settlePayments_spec in Hp. destruct Hp as (_ & S3 & D).
    destruct (D c2 eq_refl) as (R & _). simpl in R.
    apply IH in H. destruct H as (L & SL & RL & KL & FL). simpl in RL.
    eexists (_ :: L). split; [| split; [| split]].
    + rewrite SL, S3, H1, <- app_assoc. reflexivity.
    + rewrite RL, R, <- app_assoc. reflexivity.
    + simpl. rewrite KL. reflexivity.
    + constructor; [simpl; auto | exact FL].
Qed.

(** X6.  The result array of a mutating run that returns describes the
    statements the run appended to [settlement_statements], one entry per
    statement in the same order, with its id; the statements are for
    distinct stores, over the window of the run, pending, at the rate of
    the platform. *)
Theorem report_lists_the_statements_written :
  forall env ps pe db report db',
    runSettlementPeriod env (DateAt ps) (DateAt pe) false db
    = (Returned report, db') ->
    exists L,
      settlement_statements db' = settlement_statements db ++ L
      /\ report_settlements report = map entry_of_statement L
      /\ NoDup (map s_store_id L)
      /\ Forall (fun st => s_period_start st = ps /\ s_period_end st = pe
                           /\ s_status st = St_pending
                           /\ s_commission_rate st = commission_rate_decimal) L.
Proof.
  intros env ps pe db report db' H.
  apply returned_run_inv in H.
  destruct H as (ps' & pe' & E1 & E2 & _ & H).
  inversion E1; inversion E2; subst ps' pe'; clear E1 E2.
  destruct H as [(_ & -> & Hl) | (_ & logId & tx1 & c & tx' & _ & Hw & Hs & -> & Hc)].
  { destruct Hl as (_ & _ & _ & Hs & _). exists []. rewrite app_nil_r.
    split; [exact Hs |]. split; [reflexivity |]. split; constructor. }
  destruct Hw as (_ & _ & _ & Ws & _), Hc as (_ & _ & _ & Cs & _).
  apply settleStores_written in Hs. destruct Hs as (L & SL & RL & KL & FL).
  exists L. split; [rewrite Cs, SL, Ws; reflexivity |].
  split; [exact RL |]. split; [| exact FL].
  rewrite KL.
  apply (NoDup_map_filter _ _ fst positive).
  rewrite groupByStore_keys. apply stores_NoDup.
Qed.

(** ** The payments a run touches *)

Lemma Forall2_impl_In :
  forall A (R S : A -> A -> Prop) l l',
    (forall x y, In x l -> R x y -> S x y) -> Forall2 R l l' -> Forall2 S l l'.
Proof.
  intros A R S l l' H F. induction F; constructor.
  - apply H; [left; reflexivity | assumption].
  - apply IHF. intros a b Ha. apply H. right. exact Ha.
Qed.

Lemma stamped_same : forall now l, Forall2 (stamped now) l l.
Proof. intros now l. apply Forall2_same. intro. left. reflexivity. Qed.

Lemma stamped_trans :
  forall now l l' l'',
    Forall2 (stamped now) l l' -> Forall2 (stamped now) l' l'' ->
    Forall2 (stamped now) l l''.
Proof.
  intros now l l' l''. apply Forall2_compose.
  intros x y z Hxy [-> | Hz]; [exact Hxy | right; exact Hz].
Qed.

Lemma Forall2_both :
  forall A (R S : A -> A -> Prop) l l',
    Forall2 R l l' -> Forall2 S l l' -> Forall2 (fun x y => R x y /\ S x y) l l'.
Proof.
  intros A R S l l' H. induction H; intro H'; inversion H'; subst;
    constructor; auto.
Qed.

Lemma stamp_ret : forall A now (a : A), keeps_stamp now (ret a).
Proof. intros A now a tx out tx' H. inversion H; subst. apply stamped_same. Qed.

Lemma stamp_raise : forall A now m, keeps_stamp now (@raise A m).
Proof. intros A now m tx out tx' H. inversion H; subst. apply stamped_same. Qed.

Lemma stamp_bind :
  forall A B now (c : M A) (k : A -> M B),
    keeps_stamp now c -> (forall a, keeps_stamp now (k a)) ->
    keeps_stamp now (bind c k).
Proof.
  intros A B now c k Hc Hk tx out tx' H. apply bind_inv in H.
  destruct H as [(a & tx1 & H1 & H2) | (e & H1 & _)].
  - eapply stamped_trans; [exact (Hc _ _ _ H1) | exact (Hk a _ _ _ H2)].
  - exact (Hc _ _ _ H1).
Qed.

Lemma stamp_try_catch :
  forall A now (c : M A) h,
    keeps_stamp now c -> (forall e, keeps_stamp now (h e)) ->
    keeps_stamp now (try_catch c h).
Proof.
  intros A now c h Hc Hh tx out tx' H. apply try_catch_inv in H.
  destruct H as [(a & H1 & _) | (e & tx1 & H1 & H2)].
  - exact (Hc _ _ _ H1).
  - eapply stamped_trans; [exact (Hc _ _ _ H1) | exact (Hh e _ _ _ H2)].
Qed.

Lemma stamp_query :
  forall A env now q (f : DB -> A * DB),
    (forall db, Forall2 (stamped now) (payments db) (payments (snd (f db)))) ->
    keeps_stamp now (query env q f).
Proof.
  intros A env now q f Hf tx out tx' H. apply query_inv in H.
  destruct H as [(e & _ & _ & ->) | (_ & _ & ->)]; [apply stamped_same |].
  apply Hf.
Qed.

Lemma stamp_logSettlementError :
  forall env a b c d e f g,
    keeps_stamp (clock env) (logSettlementError env a b c d e f g).
Proof.
  intros. unfold logSettlementError.
  apply stamp_try_catch; [| intro; apply stamp_ret].
  apply stamp_query. intro db. apply stamped_same.
Qed.

Lemma stamp_update_payment :
  forall env sid p, keeps_stamp (clock env) (update_payment env sid p).
Proof.
  intros env sid p. unfold update_payment. apply stamp_query.
  intro db. simpl. apply Forall2_map_r. intro q.
  destruct (claims (id p) q); [right | left]; reflexivity.
Qed.

Lemma stamp_settlePayments :
  forall env logId storeId sid rows c,
    keeps_stamp (clock env) (settlePayments env logId storeId sid rows c).
Proof.
  intros env logId storeId sid rows.
  induction rows as [| p rest IH]; intro c; simpl.
  - apply stamp_ret.
  - apply stamp_bind; [apply stamp_update_payment |].
    intro n. destruct (n =? 0).
    + apply stamp_bind; [apply stamp_logSettlementError |].
      intro. apply IH.
    + apply stamp_bind.
      * apply stamp_try_catch.
        -- apply stamp_query. intro db. apply stamped_same.
        -- intro e. apply stamp_bind; [apply stamp_logSettlementError |].
           intro. apply stamp_raise.
      * intro. apply IH.
Qed.

Lemma stamp_settleStores :
  forall env logId ps pe groups c,
    keeps_stamp (clock env) (settleStores env logId ps pe groups c).
Proof.
  intros env logId ps pe groups.
  induction groups as [| [s rows] rest IH]; intro c; simpl.
  - apply stamp_ret.
  - destruct (sum_amounts rows <=? 0); [apply IH |].
    apply stamp_bind.
    + apply stamp_try_catch.
      * apply stamp_query. intro db. apply stamped_same.
      * intro e. apply stamp_bind; [apply stamp_logSettlementError |].
        intro. apply stamp_raise.
    + intro sid. apply stamp_bind.
      * destruct (sid =? 0); [| apply stamp_ret].
        apply stamp_bind; [apply stamp_logSettlementError |].
        intro. apply stamp_raise.
      * intro. apply stamp_bind; [apply stamp_settlePayments |].
        intro. apply IH.
Qed.

(** X7.  A mutating run that returns changes a payment row only by marking
    it settled under a statement, which also moves its [updated_at] to the
    time of the run, and only if the row was eligible (paid, unsettled,
    inside the window) and its store has sales in the window.  The payment
    ids are the primary key. *)
Theorem run_settles_only_eligible_payments :
  forall env ps pe db report db',
    NoDup (map p_id (payments db)) ->
    runSettlementPeriod env (DateAt ps) (DateAt pe) false db
    = (Returned report, db') ->
    Forall2 (fun p p' =>
               p' = p
               \/ (eligible ps pe p = true
                   /\ 0 < sum_amounts (rows_of_store (p_store_id p)
                                                     (select_eligible ps pe db))
                   /\ exists sid, p' = settle (clock env) sid p))
            (payments db) (payments db').
Proof.
  intros env ps pe db report db' ND H.
  apply returned_run_inv in H.
  destruct H as (ps' & pe' & E1 & E2 & _ & H).
  inversion E1; inversion E2; subst ps' pe'; clear E1 E2.
  destruct H as [(_ & _ & Hl) | (_ & logId & tx1 & c & tx' & _ & Hw & Hs & _ & Hc)].
  { destruct Hl as (-> & _). apply Forall2_same. intro; left; reflexivity. }
  destruct Hw as (Wp & _), Hc as (Cp & _).
  pose proof (stamp_settleStores _ _ _ _ _ _ _ _ _ Hs) as T.
  apply settleStores_spec in Hs. destruct Hs as ((_ & G) & _).
  destruct G as (G & _). rewrite Wp, <- Cp in G, T.
  eapply Forall2_impl_In; [| exact (Forall2_both _ _ _ _ _ G T)].
  intros p p' Hp [[-> | (Hin & _ & t & sid & E)] Hstamp]; [left; reflexivity |].
  right. apply positive_ids_In in Hin.
  destruct Hin as (s & rows & r & Hg & Hpos & Hr & Hid).
  apply groupByStore_In in Hg. destruct Hg as [-> _].
  apply rows_of_store_In in Hr. destruct Hr as [Hr Hst].
  apply select_eligible_In in Hr. destruct Hr as (q & Hq & He & Er).
  assert (q = p).
  { eapply NoDup_map_injective; eauto. rewrite <- Hid, <- Er. reflexivity. }
  subst q. split; [exact He |]. split.
  - rewrite <- Er in Hst. simpl in Hst. rewrite Hst.
    unfold positive in Hpos. simpl in Hpos.
    apply negb_true_iff, Z.leb_gt in Hpos. exact Hpos.
  - exists sid. subst p'. destruct Hstamp as [Hsame | Hat].
    + apply eligible_unsettled in He.
      rewrite <- Hsame in He. simpl in He. discriminate.
    + simpl in Hat. subst t. reflexivity.
Qed.

(** ** One item per payment *)

Lemma settled_once_claim :
  forall now sid pid db,
    settled_once db -> settled_once (snd (claim_payment now sid pid db)).
Proof.
  intros now sid pid db [N S]. split; [exact N |].
  simpl. intros it p' Hit Hp' Hid.
  apply in_map_iff in Hp'. destruct Hp' as (p & E & Hp).
  destruct (claims pid p) eqn:C; subst p'; [reflexivity |].
  exact (S it p Hit Hp Hid).
Qed.

Lemma claim_payment_fresh :
  forall now sid pid db,
    settled_once db ->
    fst (claim_payment now sid pid db) <> 0 ->
    ~ In pid (map i_payment_id (settlement_items db)).
Proof.
  intros now sid pid db [_ S] Hn Hin. apply Hn. simpl.
  apply in_map_iff in Hin. destruct Hin as (it & Eit & Hit).
  rewrite filter_none; [reflexivity |].
  intros p Hp. unfold claims.
  destruct (p_id p =? pid) eqn:E; [| reflexivity].
  apply Z.eqb_eq in E. rewrite (S it p Hit Hp) by congruence. reflexivity.
Qed.

Lemma settled_once_item :
  forall db it,
    settled_once db ->
    ~ In (i_payment_id it) (map i_payment_id (settlement_items db)) ->
    settled [i_payment_id it] db ->
    settled_once (set_settlement_items (settlement_items db ++ [it]) db).
Proof.
  intros db it [N S] Hnew Hs. split; simpl.
  - rewrite map_app. simpl. apply NoDup_app; [exact N | |].
    + constructor; [intros [] | constructor].
    + intros x Hx [<- | []]. exact (Hnew Hx).
  - intros it' p Hit Hp Hid. apply in_app_or in Hit.
    destruct Hit as [Hit | [<- | []]]; [exact (S it' p Hit Hp Hid) |].
    apply Hs; [exact Hp | left; symmetry; exact Hid].
Qed.

Lemma once_ret : forall A (a : A), keeps_once (ret a).
Proof. intros A a tx out tx' I H. inversion H; subst. exact I. Qed.

Lemma once_raise : forall A m, keeps_once (@raise A m).
Proof. intros A m tx out tx' I H. inversion H; subst. exact I. Qed.

Lemma once_bind :
  forall A B (c : M A) (k : A -> M B),
    keeps_once c -> (forall a, keeps_once (k a)) -> keeps_once (bind c k).
Proof.
  intros A B c k Hc Hk tx out tx' I H. apply bind_inv in H.
  destruct H as [(a & tx1 & H1 & H2) | (e & H1 & _)].
  - exact (Hk a _ _ _ (Hc _ _ _ I H1) H2).
  - exact (Hc _ _ _ I H1).
Qed.

Lemma once_try_catch :
  forall A (c : M A) h,
    keeps_once c -> (forall e, keeps_once (h e)) -> keeps_once (try_catch c h).
Proof.
  intros A c h Hc Hh tx out tx' I H. apply try_catch_inv in H.
  destruct H as [(a & H1 & _) | (e & tx1 & H1 & H2)].
  - exact (Hc _ _ _ I H1).
  - exact (Hh e _ _ _ (Hc _ _ _ I H1) H2).
Qed.

Lemma once_query :
  forall A env q (f : DB -> A * DB),
    (forall db, settled_once db -> settled_once (snd (f db))) ->
    keeps_once (query env q f).
Proof.
  intros A env q f Hf tx out tx' [Ib Iw] H. apply query_inv in H.
  destruct H as [(e & _ & _ & ->) | (_ & _ & ->)]; [split; assumption |].
  split; [exact Ib | apply Hf; exact Iw].
Qed.

Lemma once_logSettlementError :
  forall env a b c d e f g, keeps_once (logSettlementError env a b c d e f g).
Proof.
  intros. unfold logSettlementError.
  apply once_try_catch; [| intro; apply once_ret].
  apply once_query. intros db I. exact I.
Qed.

Lemma once_update_payment :
  forall env sid p tx out tx',
    both_once tx ->
    update_payment env sid p tx = (out, tx') ->
    both_once tx'
    /\ settlement_items (work tx') = settlement_items (work tx)
    /\ (forall n, out = Done n -> n <> 0 ->
          ~ In (id p) (map i_payment_id (settlement_items (work tx')))
          /\ settled [id p] (work tx')).
Proof.
  intros env sid p tx out tx' [Ib Iw] H.
  unfold update_payment in H.
  apply query_inv in H.
  destruct H as [(e & _ & -> & ->) | (_ & -> & ->)].
  - split; [split; assumption |]. split; [reflexivity |].
    intros n E; discriminate.
  - cbn [work base]. split; [| split].
    + split; [exact Ib | apply settled_once_claim; exact Iw].
    + reflexivity.
    + intros n E Hn. inversion E; subst n; clear E. split.
      * change (settlement_items
                  (snd (claim_payment (clock env) sid (id p) (work tx))))
          with (settlement_items (work tx)).
        exact (claim_payment_fresh (clock env) sid (id p) (work tx) Iw Hn).
      * apply claim_payment_settled.
Qed.

Lemma once_insert_item :
  forall env sid p tx out tx',
    both_once tx ->
    ~ In (id p) (map i_payment_id (settlement_items (work tx))) ->
    settled [id p] (work tx) ->
    insert_item env sid p tx = (out, tx') ->
    both_once tx'.
Proof.
  intros env sid p tx out tx' [Ib Iw] Hnew Hs H. unfold insert_item in H.
  apply query_inv in H.
  destruct H as [(e & _ & _ & ->) | (_ & _ & ->)]; [split; assumption |].
  split; [exact Ib |]. cbn [work snd].
  apply (settled_once_item (work tx)
           (mkItem (fresh_id (map i_id (settlement_items (work tx)))) sid (id p)
                   (amount_total p) (clock env))); assumption.
Qed.

Lemma once_settlePayments :
  forall env logId storeId sid rows c,
    keeps_once (settlePayments env logId storeId sid rows c).
Proof.
  intros env logId storeId sid rows.
  induction rows as [| p rest IH]; intros c tx out tx' I H; simpl in H.
  - inversion H; subst. exact I.
  - apply bind_inv in H.
    destruct H as [(n & tx1 & H1 & H2) | (e & H1 & _)].
    2:{ exact (proj1 (once_update_payment _ _ _ _ _ _ I H1)). }
    destruct (once_update_payment _ _ _ _ _ _ I H1) as (I1 & _ & F).
    destruct (n =? 0) eqn:Hn.
    + revert H2. apply once_bind; [apply once_logSettlementError | | exact I1].
      intro. apply IH.
    + apply Z.eqb_neq in Hn. destruct (F n eq_refl Hn) as [Hnew Hs].
      apply bind_inv in H2.
      destruct H2 as [(u & tx2 & H2 & H3) | (e & H2 & _)].
      * apply try_catch_inv in H2.
        destruct H2 as [(a & H2 & _) | (e & tx1' & H2 & Hh)].
        -- exact (IH _ _ _ _ (once_insert_item _ _ _ _ _ _ I1 Hnew Hs H2) H3).
        -- exfalso. apply bind_inv in Hh.
           destruct Hh as [(u' & tx3 & _ & Hr) | (e' & _ & Hr)]; discriminate.
      * apply try_catch_inv in H2.
        destruct H2 as [(a & H2 & _) | (e0 & tx1' & H2 & Hh)].
        -- exact (once_insert_item _ _ _ _ _ _ I1 Hnew Hs H2).
        -- pose proof (once_insert_item _ _ _ _ _ _ I1 Hnew Hs H2) as I2.
           revert Hh. apply once_bind; [apply once_logSettlementError | | exact I2].
           intro. apply once_raise.
Qed.

Lemma once_settleStores :
  forall env logId ps pe groups c,
    keeps_once (settleStores env logId ps pe groups c).
Proof.
  intros env logId ps pe groups.
  induction groups as [| [s rows] rest IH]; intro c; simpl.
  - apply once_ret.
  - destruct (sum_amounts rows <=? 0); [apply IH |].
    apply once_bind.
    + apply once_try_catch.
      * apply once_query. intros db I. exact I.
      * intro e. apply once_bind; [apply once_logSettlementError |].
        intro. apply once_raise.
    + intro sid. apply once_bind.
      * destruct (sid =? 0); [| apply once_ret].
        apply once_bind; [apply once_logSettlementError |].
        intro. apply once_raise.
      * intro. apply once_bind; [apply once_settlePayments |].
        intro. apply IH.
Qed.

Lemma once_settle_period :
  forall env logId ps pe dryRun, keeps_once (settle_period env logId ps pe dryRun).
Proof.
  intros env logId ps pe dryRun. unfold settle_period.
  apply once_bind; [apply once_query; intros db I; exact I |].
  intro rows. destruct (count rows =? 0).
  - apply once_bind; [apply once_query; intros db I; exact I |].
    intro; apply once_ret.
  - destruct dryRun.
    + destruct (simulateSettlement rows).
      apply once_bind; [apply once_query; intros db I; exact I |].
      intro; apply once_ret.
    + apply once_bind; [apply once_settleStores |].
      intro c.
      apply once_bind; [apply once_query; intros db I; exact I |].
      intro; apply once_ret.
Qed.

Lemma once_fail_run :
  forall env logId m tx, both_once tx -> settled_once (fail_run env logId m tx).
Proof.
  intros env logId m tx I.
  assert (R : forall t, both_once t -> settled_once (rollback env t)).
  { intros t [Ib Iw]. unfold rollback. destruct (log_engine env); exact Ib. }
  unfold fail_run. destruct logId as [logId |]; [| apply R; exact I].
  apply R.
  destruct (try_catch _ _ tx) as [out tx'] eqn:E. cbn [snd].
  revert E. apply once_try_catch; [| intro; apply once_ret | exact I].
  apply once_query. intros db J. exact J.
Qed.

(** X8.  On a store where no payment is in two settlement items and every
    payment that is in one is marked settled, a run keeps it so, however it
    ends and whatever raises: no payment is paid out twice. *)
Theorem no_payment_is_settled_twice :
  forall env periodStart periodEnd dryRun db out db',
    settled_once db ->
    runSettlementPeriod env periodStart periodEnd dryRun db = (out, db') ->
    settled_once db'.
Proof.
  intros env s e dryRun db out db' I H. unfold runSettlementPeriod in H.
  destruct s as [| | ps]; destruct e as [| | pe];
    try (inversion H; subst; exact I).
  destruct (pe <=? ps); [inversion H; subst; exact I |].
  assert (I0 : both_once (beginTransaction db)) by (split; exact I).
  destruct (insert_log_skeleton env (clock env) ps pe (beginTransaction db))
    as [[logId | e1] tx] eqn:E1.
  - assert (I1 : both_once tx).
    { revert E1. apply once_query; [| exact I0]. intros d J. exact J. }
    destruct (settle_period env logId ps pe dryRun tx) as [[r | e2] tx'] eqn:E2.
    + pose proof (once_settle_period _ _ _ _ _ _ _ _ I1 E2) as [_ Iw].
      inversion H; subst. exact Iw.
    + pose proof (once_settle_period _ _ _ _ _ _ _ _ I1 E2) as I2.
      assert (Hd : db' = fail_run env (Some logId) e2 tx')
        by (inversion H; reflexivity).
      rewrite Hd. apply once_fail_run. exact I2.
  - assert (I1 : both_once tx).
    { revert E1. apply once_query; [| exact I0]. intros d J. exact J. }
    assert (Hd : db' = fail_run env None e1 tx) by (inversion H; reflexivity).
    rewrite Hd. apply once_fail_run. exact I1.
Qed.

(** ** The log row of a run that returns *)

Lemma update_log_logs :
  forall logId f db,
    settlement_logs (update_log logId f db)
    = map (fun l => if l_id l =? logId then f l else l) (settlement_logs db).
Proof. reflexivity. Qed.

Lemma update_fresh_row :
  forall f row logs,
    ~ In (l_id row) (map l_id logs) ->
    map (fun l => if l_id l =? l_id row then f l else l) (logs ++ [row])
    = logs ++ [f row].
Proof.
  intros f row logs H. rewrite map_app. cbn. rewrite Z.eqb_refl. f_equal.
  rewrite <- (map_id logs) at 2. apply map_ext_in. intros l Hl.
  destruct (l_id l =? l_id row) eqn:E; [| reflexivity].
  apply Z.eqb_eq in E. exfalso. apply H. rewrite <- E. apply in_map. exact Hl.
Qed.

(** X11.  A run that returns leaves one new row in [settlement_logs], and
    the row agrees with the report: the window, the clock at both ends, the
    status, no error message, and every counter and total of the report. *)
Theorem run_log_agrees_with_report :
  forall env ps pe dryRun db report db',
    runSettlementPeriod env (DateAt ps) (DateAt pe) dryRun db
    = (Returned report, db') ->
    exists row,
      settlement_logs db' = settlement_logs db ++ [row]
      /\ ~ In (l_id row) (map l_id (settlement_logs db))
      /\ l_period_start row = ps /\ l_period_end row = pe
      /\ l_started_at row = clock env /\ l_ended_at row = Some (clock env)
      /\ l_status row = report_status report
      /\ l_error_message row = None
      /\ l_total_payments row = report_totalPayments report
      /\ l_total_statements row = report_totalStatements report
      /\ l_success_payments row = report_successPaymentCount report
      /\ l_skipped_payments row = report_skippedPaymentCount report
      /\ l_total_payout row = report_totalPayout report
      /\ l_total_commission row = report_totalCommission report.
Proof.
  intros env ps pe dryRun db report db' H.
  unfold runSettlementPeriod in H.
  destruct (pe <=? ps); [discriminate |].
  destruct (insert_log_skeleton env (clock env) ps pe (beginTransaction db))
    as [[logId | e0] tx] eqn:E; [| discriminate].
  apply query_inv in E. destruct E as [(e1 & _ & E & _) | (_ & El & ->)];
    [discriminate |].
  cbn [fst snd work base trace beginTransaction] in El.
  inversion El; subst logId; clear El.
  set (row := mkLogRow (fresh_id (map l_id (settlement_logs db))) (clock env) None
                       ps pe Log_noop "정산 시작" None 0 0 0 0 0 0) in *.
  assert (Hnew : ~ In (l_id row) (map l_id (settlement_logs db)))
    by apply fresh_id_new.
  match type of H with
  | context [settle_period env ?l ps pe dryRun ?t] =>
      destruct (settle_period env l ps pe dryRun t) as [[r | e1] tx'] eqn:E';
      [| discriminate]
  end.
  inversion H; subst r db'; clear H.
  unfold settle_period in E'.
  apply bind_inv in E'. destruct E' as [(rows & tx1 & H1 & H2) | (e & _ & E)];
    [| discriminate].
  apply query_inv in H1. destruct H1 as [(e0 & _ & E & _) | (_ & Er & ->)];
    [discriminate |].
  cbn [fst snd work base trace beginTransaction] in Er, H2.
  inversion Er; subst rows; clear Er.
  destruct (count (select_eligible _ _ _) =? 0) eqn:Hc.
  - apply bind_inv in H2. destruct H2 as [(u & tx2 & H2 & H3) | (e & _ & E)];
      [| discriminate].
    apply query_inv in H2. destruct H2 as [(e0 & _ & E & _) | (_ & _ & ->)];
      [discriminate |].
    unfold ret in H3. inversion H3; subst report tx'; clear H3.
    exists (log_noop env row).
    unfold commit. cbn [work snd fst].
    rewrite update_log_logs.
    change (fresh_id (map l_id (settlement_logs db))) with (l_id row).
    cbn [settlement_logs set_settlement_logs].
    rewrite update_fresh_row by exact Hnew.
    split; [reflexivity |]. split; [exact Hnew |]. cbn. repeat split.
  - destruct dryRun.
    + destruct (simulateSettlement _) as [n l] eqn:Es.
      apply bind_inv in H2. destruct H2 as [(u & tx2 & H2 & H3) | (e & _ & E)];
        [| discriminate].
      apply query_inv in H2. destruct H2 as [(e0 & _ & E & _) | (_ & _ & ->)];
        [discriminate |].
      unfold ret in H3. inversion H3; subst report tx'; clear H3.
      eexists (log_dryrun env _ _ row).
      unfold commit. cbn [work snd fst].
      rewrite update_log_logs.
      change (fresh_id (map l_id (settlement_logs db))) with (l_id row).
      cbn [settlement_logs set_settlement_logs].
      rewrite update_fresh_row by exact Hnew.
      split; [reflexivity |]. split; [exact Hnew |]. cbn. repeat split.
    + apply bind_inv in H2. destruct H2 as [(c & tx2 & H2 & H3) | (e & _ & E)];
        [| discriminate].
      apply bind_inv in H3. destruct H3 as [(u & tx3 & H3 & H4) | (e & _ & E)];
        [| discriminate].
      apply query_inv in H3. destruct H3 as [(e0 & _ & E & _) | (_ & _ & ->)];
        [discriminate |].
      unfold ret in H4. inversion H4; subst report tx'; clear H4.
      apply settleStores_spec in H2. destruct H2 as ((_ & G) & _).
      destruct G as (_ & _ & _ & Gl & _). cbn [work] in Gl.
      eexists (finish_log env Log_success "정산 완료" _ _ c row).
      unfold commit. cbn [work snd fst].
      rewrite update_log_logs, Gl.
      change (fresh_id (map l_id (settlement_logs db))) with (l_id row).
      cbn [settlement_logs set_settlement_logs].
      rewrite update_fresh_row by exact Hnew.
      split; [reflexivity |]. split; [exact Hnew |]. cbn. repeat split.
Qed.

(** ** A failure to write an error row *)

Lemma sim_ret : forall A (a : A), sim (ret a) (ret a).
Proof. intros A a tx1 tx2 H. split; [reflexivity | exact H]. Qed.

Lemma sim_raise : forall A m, sim (@raise A m) (raise m).
Proof. intros A m tx1 tx2 H. split; [reflexivity | exact H]. Qed.

Lemma sim_bind :
  forall A B (c1 c2 : M A) (k1 k2 : A -> M B),
    sim c1 c2 -> (forall a, sim (k1 a) (k2 a)) -> sim (bind c1 k1) (bind c2 k2).
Proof.
  intros A B c1 c2 k1 k2 Hc Hk tx1 tx2 H. unfold bind.
  destruct (Hc tx1 tx2 H) as [E T].
  destruct (c1 tx1) as [[a | e] t1], (c2 tx2) as [[a' | e'] t2];
    simpl in E, T; try discriminate.
  - inversion E; subst a'. apply Hk. exact T.
  - inversion E; subst e'. split; [reflexivity | exact T].
Qed.

Lemma sim_try_catch :
  forall A (c1 c2 : M A) h1 h2,
    sim c1 c2 -> (forall e, sim (h1 e) (h2 e)) ->
    sim (try_catch c1 h1) (try_catch c2 h2).
Proof.
  intros A c1 c2 h1 h2 Hc Hh tx1 tx2 H. unfold try_catch.
  destruct (Hc tx1 tx2 H) as [E T].
  destruct (c1 tx1) as [[a | e] t1], (c2 tx2) as [[a' | e'] t2];
    simpl in E, T; try discriminate.
  - inversion E; subst a'. split; [reflexivity | exact T].
  - inversion E; subst e'. apply Hh. exact T.
Qed.

Lemma sim_query :
  forall A env1 env2 q (f1 f2 : DB -> A * DB),
    fault env1 q = fault env2 q ->
    (forall d1 d2, same_but_errors d1 d2 ->
       fst (f1 d1) = fst (f2 d2) /\ same_but_errors (snd (f1 d1)) (snd (f2 d2))) ->
    sim (query env1 q f1) (query env2 q f2).
Proof.
  intros A env1 env2 q f1 f2 Hq Hf tx1 tx2 [Hb Hw]. unfold query, exec.
  rewrite <- Hq. destruct (fault env1 q).
  - split; [reflexivity | split; assumption].
  - destruct (Hf _ _ Hw) as [E T].
    destruct (f1 (work tx1)), (f2 (work tx2)). simpl in E, T. subst.
    split; [reflexivity | split; assumption].
Qed.

Section ErrorLog.

Variables env1 env2 : Env.
Hypothesis same : same_but_error_faults env1 env2.

Lemma same_fault :
  forall q, (forall t, q <> Q_insert_error t) -> fault env1 q = fault env2 q.
Proof. apply same. Qed.

Lemma sim_logSettlementError :
  forall a b c d e f g,
    sim (logSettlementError env1 a b c d e f g)
        (logSettlementError env2 a b c d e f g).
Proof.
  intros a b c d e f g tx1 tx2 [Hb Hw].
  unfold logSettlementError, try_catch, query, exec, ret.
  assert (K : forall x y,
             same_but_errors
               (set_settlement_errors x (work tx1)) (work tx2)
             /\ same_but_errors (work tx1) (set_settlement_errors y (work tx2))
             /\ same_but_errors (set_settlement_errors x (work tx1))
                                (set_settlement_errors y (work tx2))).
  { intros x y. destruct Hw as (? & ? & ? & ? & ? & ?).
    repeat split; assumption. }
  destruct (fault env1 (Q_insert_error b)), (fault env2 (Q_insert_error b));
    (split; [reflexivity |]); (split; [exact Hb |]); cbn [work snd];
    first [exact Hw | apply K].
Qed.

Lemma sim_update_payment :
  forall sid p, sim (update_payment env1 sid p) (update_payment env2 sid p).
Proof.
  intros sid p. unfold update_payment.
  apply sim_query; [apply same_fault; intros t E; discriminate |].
  intros d1 d2 (D1 & D2 & D3 & D4 & D5 & D6).
  destruct same as (Hc & _).
  unfold claim_payment, same_but_errors. cbn. rewrite D1, Hc.
  repeat split; assumption.
Qed.

Lemma sim_insert_item :
  forall sid p, sim (insert_item env1 sid p) (insert_item env2 sid p).
Proof.
  intros sid p. unfold insert_item.
  apply sim_query; [apply same_fault; intros t E; discriminate |].
  intros d1 d2 (D1 & D2 & D3 & D4 & D5 & D6).
  destruct same as (Hc & _).
  unfold same_but_errors. cbn. rewrite D5, Hc. repeat split; assumption.
Qed.

Lemma sim_insert_statement :
  forall s ps pe a b c n,
    sim (insert_statement env1 s ps pe a b c n)
        (insert_statement env2 s ps pe a b c n).
Proof.
  intros s ps pe a b c n. unfold insert_statement.
  apply sim_query; [apply same_fault; intros t E; discriminate |].
  intros d1 d2 (D1 & D2 & D3 & D4 & D5 & D6).
  destruct same as (Hc & Hi & _).
  unfold same_but_errors. cbn. rewrite D4, Hc, Hi. repeat split; assumption.
Qed.

Lemma sim_settlePayments :
  forall logId storeId sid rows c,
    sim (settlePayments env1 logId storeId sid rows c)
        (settlePayments env2 logId storeId sid rows c).
Proof.
  intros logId storeId sid rows.
  induction rows as [| p rest IH]; intro c; simpl.
  - apply sim_ret.
  - apply sim_bind; [apply sim_update_payment |].
    intro n. destruct (n =? 0).
    + apply sim_bind; [apply sim_logSettlementError | intro; apply IH].
    + apply sim_bind; [| intro; apply IH].
      apply sim_try_catch; [apply sim_insert_item |].
      intro e. apply sim_bind; [apply sim_logSettlementError |].
      intro. apply sim_raise.
Qed.

Lemma sim_settleStores :
  forall logId ps pe groups c,
    sim (settleStores env1 logId ps pe groups c)
        (settleStores env2 logId ps pe groups c).
Proof.
  intros logId ps pe groups.
  induction groups as [| [s rows] rest IH]; intro c; simpl.
  - apply sim_ret.
  - destruct (sum_amounts rows <=? 0); [apply IH |].
    apply sim_bind.
    + apply sim_try_catch; [apply sim_insert_statement |].
      intro e. apply sim_bind; [apply sim_logSettlementError |].
      intro. apply sim_raise.
    + intro sid. apply sim_bind.
      * destruct (sid =? 0); [| apply sim_ret].
        apply sim_bind; [apply sim_logSettlementError |].
        intro. apply sim_raise.
      * intro. apply sim_bind; [apply sim_settlePayments |].
        intro. apply IH.
Qed.

Lemma sim_update_log :
  forall q logId f1 f2,
    (forall t, q <> Q_insert_error t) ->
    (forall l, f1 l = f2 l) ->
    sim (query env1 q (fun db => (tt, update_log logId f1 db)))
        (query env2 q (fun db => (tt, update_log logId f2 db))).
Proof.
  intros q logId f1 f2 Hq Hf.
  apply sim_query; [apply same_fault; exact Hq |].
  intros d1 d2 (D1 & D2 & D3 & D4 & D5 & D6).
  unfold same_but_errors, update_log. cbn. rewrite D6.
  repeat split; try assumption.
  apply map_ext. intro l. rewrite Hf. reflexivity.
Qed.

Lemma sim_settle_period :
  forall logId ps pe dryRun,
    sim (settle_period env1 logId ps pe dryRun)
        (settle_period env2 logId ps pe dryRun).
Proof.
  intros logId ps pe dryRun. unfold settle_period.
  destruct same as (Hc & _).
  apply sim_bind.
  { apply sim_query; [apply same_fault; intros t E; discriminate |].
    intros d1 d2 D. split; [| exact D]. cbn.
    apply select_eligible_payments. apply D. }
  intro rows. destruct (count rows =? 0).
  - apply sim_bind; [| intro; apply sim_ret].
    apply sim_update_log; [intros t E; discriminate |].
    intro l. unfold log_noop. rewrite Hc. reflexivity.
  - destruct dryRun.
    + destruct (simulateSettlement rows) as [n entries].
      apply sim_bind; [| intro; apply sim_ret].
      apply sim_update_log; [intros t E; discriminate |].
      intro row. unfold log_dryrun. rewrite Hc. reflexivity.
    + apply sim_bind; [apply sim_settleStores |].
      intro c. apply sim_bind; [| intro; apply sim_ret].
      apply sim_update_log; [intros t E; discriminate |].
      intro l. unfold finish_log. rewrite Hc. reflexivity.
Qed.

Lemma sim_fail_run :
  forall logId m tx1 tx2,
    alike tx1 tx2 ->
    same_but_errors (fail_run env1 logId m tx1) (fail_run env2 logId m tx2).
Proof.
  intros logId m tx1 tx2 H.
  assert (R : forall t1 t2, alike t1 t2 ->
                same_but_errors (rollback env1 t1) (rollback env2 t2)).
  { intros t1 t2 [Hb Hw]. unfold rollback.
    destruct same as (_ & _ & <- & _).
    destruct (log_engine env1); [exact Hb |].
    destruct Hb as (? & ? & ? & ? & ? & ?), Hw as (? & ? & ? & ? & ? & ?).
    unfold same_but_errors. cbn. repeat split; assumption. }
  unfold fail_run. destruct logId as [logId |]; [| apply R; exact H].
  apply R.
  assert (S : sim (try_catch
                     (query env1 Q_update_log_failed
                        (fun db => (tt, update_log logId
                                          (log_failed env1 (truncated m)) db)))
                     (fun _ => ret tt))
                  (try_catch
                     (query env2 Q_update_log_failed
                        (fun db => (tt, update_log logId
                                          (log_failed env2 (truncated m)) db)))
                     (fun _ => ret tt))).
  { apply sim_try_catch; [| intro; apply sim_ret].
    apply sim_update_log; [intros t E; discriminate |].
    intro l. unfold log_failed. destruct same as (-> & _). reflexivity. }
  apply S. exact H.
Qed.

(** X10.  Whether the inserts into [settlement_errors] raise makes no
    difference to a run: it ends the same way, with the same report or the
    same error, and the stores afterwards differ at most in
    [settlement_errors]. *)
Theorem error_logging_never_changes_a_run :
  forall periodStart periodEnd dryRun db,
    fst (runSettlementPeriod env1 periodStart periodEnd dryRun db)
    = fst (runSettlementPeriod env2 periodStart periodEnd dryRun db)
    /\ same_but_errors
         (snd (runSettlementPeriod env1 periodStart periodEnd dryRun db))
         (snd (runSettlementPeriod env2 periodStart periodEnd dryRun db)).
Proof.
  intros s e dryRun db.
  assert (Rf : same_but_errors db db) by (repeat split).
  unfold runSettlementPeriod.
  destruct s as [| | ps]; destruct e as [| | pe];
    try (split; [reflexivity | exact Rf]).
  destruct (pe <=? ps); [split; [reflexivity | exact Rf] |].
  assert (S0 : sim (insert_log_skeleton env1 (clock env1) ps pe)
                   (insert_log_skeleton env2 (clock env2) ps pe)).
  { unfold insert_log_skeleton.
    apply sim_query; [apply same_fault; intros t E; discriminate |].
    intros d1 d2 (D1 & D2 & D3 & D4 & D5 & D6).
    destruct same as (<- & _).
    unfold same_but_errors. cbn. rewrite D6. repeat split; assumption. }
  destruct (S0 (beginTransaction db) (beginTransaction db)) as [E T];
    [split; exact Rf |].
  destruct (insert_log_skeleton env1 (clock env1) ps pe (beginTransaction db))
    as [[logId | e1] t1],
    (insert_log_skeleton env2 (clock env2) ps pe (beginTransaction db))
    as [[logId' | e1'] t2]; simpl in E, T; try discriminate.
  - inversion E; subst logId'; clear E.
    destruct (sim_settle_period logId ps pe dryRun t1 t2 T) as [E' T'].
    destruct (settle_period env1 logId ps pe dryRun t1) as [[r | e2] u1],
      (settle_period env2 logId ps pe dryRun t2) as [[r' | e2'] u2];
      simpl in E', T'; try discriminate.
    + inversion E'; subst r'. split; [reflexivity |]. apply T'.
    + inversion E'; subst e2'. split; [reflexivity |].
      cbn [snd]. apply sim_fail_run. exact T'.
  - inversion E; subst e1'; clear E. split; [reflexivity |].
    cbn [snd]. apply sim_fail_run. exact T.
Qed.

End ErrorLog.

(** ** A run that nothing disturbs *)

Section Calm.

Variable env : Env.
Hypothesis no_fault : forall q, fault env q = None.
Hypothesis ids_returned : forall s, insertId_lost env s = false.










End Calm.

(** * Webhook deliveries *)

Lemma value_eqb_Str :
  forall v s, Js.value_eqb v (Js.Str s) = true -> v = Js.Str s.
Proof.
  intros [| t | t] s H; simpl in H; try discriminate.
  apply String.eqb_eq in H. subst. reflexivity.
Qed.

Lemma valid_source_can_cancel :
  forall c v,
    isValidStatusTransition c v = true ->
    isValidStatusTransition c (Js.Str "CANCELED") = true.
Proof. intros [] v H; try reflexivity; simpl in H; discriminate. Qed.

Lemma Forall2_map_r_In :
  forall A (R : A -> A -> Prop) (f : A -> A) l,
    (forall x, In x l -> R x (f x)) -> Forall2 R l (map f l).
Proof.
  intros A R f l H. induction l as [| a l IH]; simpl; constructor.
  - apply H. left. reflexivity.
  - apply IH. intros x Hx. apply H. right. exact Hx.
Qed.

Lemma found_is_member :
  forall orderId l payment others,
    filter (fun p => String.eqb (p_pg_order_id p) orderId) l = payment :: others ->
    In payment l.
Proof.
  intros orderId l payment others H.
  assert (Hin : In payment (payment :: others)) by (left; reflexivity).
  rewrite <- H in Hin. apply filter_In in Hin. tauto.
Qed.

(** X15.  Whatever the event and however the call ends, [processWebhook]
    leaves the status of each payment as it was or moves it along an edge
    of the transition table, also when the handler writes a status other
    than the mapped one ([handlePaymentCanceled] writes CANCELED).  The
    payment ids are the primary key. *)
Theorem webhook_moves_along_the_table :
  forall fault webhookId now ev db out db' stmts,
    NoDup (map p_id (payments db)) ->
    processWebhook fault webhookId now ev db = (out, db', stmts) ->
    Forall2 along_the_table (payments db) (payments db').
Proof.
  intros fault webhookId now ev db out db' stmts ND H.
  assert (Same : Forall2 along_the_table (payments db) (payments db))
    by (apply Forall2_same; intro; left; reflexivity).
  revert H. webhook_paths; intro H; inversion H; subst; clear H;
    cbn [payments set_payments set_payment_webhooks set_reservations];
    try exact Same.
  all: apply Forall2_map_r_In; intros p Hp;
    destruct (p_id p =? p_id payment) eqn:Hid; [| left; reflexivity];
    apply Z.eqb_eq in Hid;
    assert (p = payment)
      by (eapply NoDup_map_injective; eauto; eapply found_is_member; eauto);
    subst p; right; cbn [p_status status_name].
  all: try match goal with
           | E : negb _ = false |- _ => apply negb_false_iff in E
           end.
  all: try match goal with
           | E : Js.value_eqb _ _ = true |- _ =>
               apply value_eqb_Str in E; rewrite E in *
           end.
  all: try assumption.
  all: eapply valid_source_can_cancel; eassumption.
Qed.

(** ** What a webhook leaves alone *)

(** X16.  A webhook never touches what settlement owns: the four settlement
    tables are as they were, every payment keeps its id, store, reservation,
    order id, settled flag and statement, the reservations keep their ids,
    and [payment_webhooks] gains at most one row. *)
Theorem webhook_keeps_the_settlement_state :
  forall fault webhookId now ev db out db' stmts,
    processWebhook fault webhookId now ev db = (out, db', stmts) ->
    settlement_statements db' = settlement_statements db
    /\ settlement_items db' = settlement_items db
    /\ settlement_logs db' = settlement_logs db
    /\ settlement_errors db' = settlement_errors db
    /\ map settlement_columns (payments db') = map settlement_columns (payments db)
    /\ map r_id (reservations db') = map r_id (reservations db)
    /\ exists rows, payment_webhooks db' = payment_webhooks db ++ rows
                    /\ (List.length rows <= 1)%nat.
Proof.
  intros fault webhookId now ev db out db' stmts H.
  assert (Kp : forall i (f : Payment -> Payment) l,
             (forall p, settlement_columns (f p) = settlement_columns p) ->
             map settlement_columns
                 (map (fun p => if p_id p =? i then f p else p) l)
             = map settlement_columns l).
  { intros i f l Hf. rewrite map_map. apply map_ext. intro p.
    destruct (p_id p =? i); [apply Hf | reflexivity]. }
  assert (Kr : forall i (f : Reservation -> Reservation) l,
             (forall r, r_id (f r) = r_id r) ->
             map r_id (map (fun r => if String.eqb (r_id r) i then f r else r) l)
             = map r_id l).
  { intros i f l Hf. rewrite map_map. apply map_ext. intro r.
    destruct (String.eqb (r_id r) i); [apply Hf | reflexivity]. }
  revert H. webhook_paths; intro H; inversion H; subst; clear H;
    cbn [payments reservations payment_webhooks settlement_statements
         settlement_items settlement_logs settlement_errors
         set_payments set_payment_webhooks set_reservations];
    rewrite ?Kp by (intro; reflexivity); rewrite ?Kr by (intro; reflexivity);
    repeat (split; [reflexivity |]);
    first [ exists []; rewrite app_nil_r; split; [reflexivity | simpl; lia]
          | eexists; split; [reflexivity | simpl; lia] ].
Qed.

(** ** An event delivered again *)

Lemma quiescent_no_write :
  forall fault webhookId now ev db out db' stmts,
    quiescent ev db ->
    processWebhook fault webhookId now ev db = (out, db', stmts) ->
    payments db' = payments db
    /\ reservations db' = reservations db
    /\ filter writes_payments stmts = []
    /\ filter writes_reservations stmts = [].
Proof.
  intros fault webhookId now ev db out db' stmts Q H.
  unfold quiescent, inert in Q.
  revert H. webhook_paths; intro H; inversion H; subst; clear H;
    cbn [payments reservations set_payments set_payment_webhooks set_reservations
         rev app filter writes_payments writes_reservations];
    try (repeat split; reflexivity);
    exfalso;
    (destruct Q as [Q | Q]; [congruence |]);
    rewrite ?Found in Q;
    try match goal with
        | E : negb _ = false |- _ => apply negb_false_iff in E
        end;
    (destruct Q as [Q | Q]; [congruence |]);
    repeat match goal with
           | E : String.eqb ?a ?b = _ |- _ => rewrite E in Q
           | E : Js.value_eqb ?a ?b = _ |- _ => rewrite E in Q
           end;
    simpl in Q; discriminate.
Qed.

Lemma first_makes_quiescent :
  forall fault webhookId now ev db reply db1 stmts,
    processWebhook fault webhookId now ev db = (Returned reply, db1, stmts) ->
    message reply <> "Already processed (idempotent)" ->
    quiescent ev db1.
Proof.
  intros fault webhookId now ev db reply db1 stmts H Hm.
  revert H Hm.
  webhook_paths; intros H Hm; inversion H; subst; clear H;
    unfold quiescent, inert;
    cbn [payments reservations set_payments set_payment_webhooks set_reservations];
    try (left; assumption);
    try (exfalso; apply Hm; reflexivity);
    right;
    rewrite ?found_after_update
      by (apply update_where_keeps_order_id; intro; reflexivity);
    rewrite ?Found; cbn [map];
    rewrite ?Z.eqb_refl; cbn [p_status];
    try exact I;
    try match goal with
        | E : negb _ = true |- _ => apply negb_true_iff in E
        end;
    try match goal with
        | E : Js.value_eqb _ (Js.Str "SUCCESS") = true |- _ =>
            apply value_eqb_Str in E; rewrite E
        end;
    try (left; reflexivity);
    try (left; assumption);
    try (right;
         repeat match goal with
                | E : String.eqb ?a ?b = _ |- _ => rewrite E
                | E : Js.value_eqb ?a ?b = _ |- _ => rewrite E
                end; reflexivity).
Qed.

(** X17.  Once an event has been processed (the call returned, and not as
    a replay), delivering the same event again changes no payment and no
    reservation and runs no statement on either table, at any later time
    and whatever raises: inside the hour it is a replay, after it the
    transition is no longer possible or the handler does nothing. *)
Theorem processed_event_never_applies_again :
  forall fault webhookId now ev db reply db1 stmts
         fault2 webhookId2 now2 out2 db2 stmts2,
    processWebhook fault webhookId now ev db = (Returned reply, db1, stmts) ->
    message reply <> "Already processed (idempotent)" ->
    processWebhook fault2 webhookId2 now2 ev db1 = (out2, db2, stmts2) ->
    payments db2 = payments db1
    /\ reservations db2 = reservations db1
    /\ filter writes_payments stmts2 = []
    /\ filter writes_reservations stmts2 = [].
Proof.
  intros fault webhookId now ev db reply db1 stmts
         fault2 webhookId2 now2 out2 db2 stmts2 H1 Hm H2.
  eapply quiescent_no_write; [| exact H2].
  eapply first_makes_quiescent; eassumption.
Qed.

(** ** Terminal statuses *)

Lemma webhook_keeps_ids :
  forall fault webhookId now ev db,
    map p_id (payments (snd (fst (processWebhook fault webhookId now ev db))))
    = map p_id (payments db).
Proof.
  intros fault webhookId now ev db.
  assert (K : forall i (f : Payment -> Payment) l,
             (forall p, p_id (f p) = p_id p) ->
             map p_id (map (fun p => if p_id p =? i then f p else p) l)
             = map p_id l).
  { intros i f l Hf. rewrite map_map. apply map_ext. intro p.
    destruct (p_id p =? i); [apply Hf | reflexivity]. }
  webhook_paths;
    cbn [payments set_payments set_payment_webhooks set_reservations fst snd];
    rewrite ?K by (intro; reflexivity); reflexivity.
Qed.

Lemma terminal_survives_a_delivery :
  forall fault webhookId now ev db p,
    NoDup (map p_id (payments db)) ->
    In p (payments db) ->
    terminal (p_status p) ->
    In p (payments (snd (fst (processWebhook fault webhookId now ev db)))).
Proof.
  intros fault webhookId now ev db p ND Hp Ht.
  assert (K : forall payment (f : Payment -> Payment),
             In payment (payments db) ->
             negb (isValidStatusTransition (p_status payment)
                     (mapTossStatusToOurStatus (property_key (ev_status ev))))
             = false ->
             In p (map (fun q => if p_id q =? p_id payment then f q else q)
                       (payments db))).
  { intros payment f Hf Hv. apply in_map_iff. exists p.
    split; [| exact Hp].
    destruct (p_id p =? p_id payment) eqn:Hid; [| reflexivity].
    apply Z.eqb_eq in Hid. exfalso.
    assert (p = payment) by (eapply NoDup_map_injective; eauto).
    subst p. apply negb_false_iff in Hv.
    rewrite terminal_has_no_transition in Hv by exact Ht. discriminate. }
  webhook_paths;
    cbn [payments set_payments set_payment_webhooks set_reservations fst snd];
    first [exact Hp
          | eapply K; [eapply found_is_member; eassumption | eassumption]].
Qed.

(** X18.  A payment that is FAILED, CANCELED or REFUNDED stays exactly as
    it is through any sequence of webhook deliveries, whatever raises in
    them.  The payment ids are the primary key. *)
Theorem terminal_payment_is_final :
  forall l db p,
    NoDup (map p_id (payments db)) ->
    In p (payments db) ->
    terminal (p_status p) ->
    In p (payments (deliver_all l db)).
Proof.
  unfold deliver_all.
  induction l as [| d l IH]; intros db p ND Hp Ht; [exact Hp |].
  simpl. apply IH; [| | exact Ht].
  - unfold deliver. rewrite webhook_keeps_ids. exact ND.
  - unfold deliver. apply terminal_survives_a_delivery; assumption.
Qed.

(** ** Events that are refused *)


(** ** From a webhook to a settlement *)



(** ** What a webhook writes to a reservation *)

Lemma refused_value_finds_no_row :
  forall reservationId status payment_status db,
    reservation_update_refused reservationId status payment_status db = None ->
    match status with
    | Some status => not_among reservation_status_values status
    | None => false
    end
    || not_among reservation_payment_status_values payment_status = true ->
    forall r, In r (reservations db) -> String.eqb (r_id r) reservationId = false.
Proof.
  intros reservationId status payment_status db H Hv r Hr.
  unfold reservation_update_refused in H.
  destruct (existsb _ (reservations db)) eqn:Ex; cbn [negb] in H.
  - apply orb_true_iff in Hv.
    destruct (match status with Some _ => _ | None => _ end);
      [discriminate |].
    destruct Hv as [Hv | Hv]; [discriminate |]. rewrite Hv in H. discriminate.
  - destruct (String.eqb (r_id r) reservationId) eqn:Hid; [| reflexivity].
    assert (existsb (fun r => String.eqb (r_id r) reservationId)
                    (reservations db) = true)
      by (apply existsb_exists; exists r; split; assumption).
    congruence.
Qed.

(** X20.  What a delivery writes to a reservation: nothing, or confirmed and
    paid, or the payment status failed, or canceled and refunded.  Of these
    values, [canceled] is not a value of the ENUM of [reservations.status]
    (which has [cancelled]) and [failed] is not one of
    [reservations.payment_status]: the server refuses the two statements
    that write them when they reach a row, the delivery is rolled back, and
    the only values a delivery ever stores are confirmed and paid. *)
Theorem webhook_reservation_values :
  forall fault webhookId now ev db out db' stmts,
    processWebhook fault webhookId now ev db = (out, db', stmts) ->
    Forall2 (reservation_step now) (reservations db) (reservations db')
    /\ In "confirmed" reservation_status_values
    /\ In "paid" reservation_payment_status_values
    /\ In "refunded" reservation_payment_status_values
    /\ ~ In "canceled" reservation_status_values
    /\ ~ In "failed" reservation_payment_status_values
    /\ Forall2 (reservation_confirmed now) (reservations db) (reservations db').
Proof.
  intros fault webhookId now ev db out db' stmts H.
  assert (Strict : Forall2 (reservation_confirmed now) (reservations db)
                           (reservations db')).
  { assert (Same : Forall2 (reservation_confirmed now) (reservations db)
                           (reservations db))
      by (apply Forall2_same; intro; left; reflexivity).
    revert H. webhook_paths; intro H; inversion H; subst; clear H;
      cbn [reservations set_payments set_payment_webhooks set_reservations];
      try exact Same.
    all: apply Forall2_map_r_In; intros r Hr;
      destruct (String.eqb (r_id r) s) eqn:Hid; [| left; reflexivity];
      first [ right; reflexivity
            | exfalso;
              match goal with
              | S : reservation_update_refused _ _ _ _ = None |- _ =>
                  pose proof (refused_value_finds_no_row _ _ _ _ S eq_refl r Hr)
                    as N
              end; congruence ]. }
  assert (Values : In "confirmed" reservation_status_values
                   /\ In "paid" reservation_payment_status_values
                   /\ In "refunded" reservation_payment_status_values
                   /\ ~ In "canceled" reservation_status_values
                   /\ ~ In "failed" reservation_payment_status_values).
  { unfold reservation_status_values, reservation_payment_status_values.
    simpl. repeat split; try tauto;
      intro H'; repeat (destruct H' as [H' | H']; [discriminate |]); exact H'. }
  destruct Values as (V1 & V2 & V3 & V4 & V5).
  split; [| exact (conj V1 (conj V2 (conj V3 (conj V4 (conj V5 Strict)))))].
  assert (Same : Forall2 (reservation_step now) (reservations db)
                         (reservations db))
    by (apply Forall2_same; intro; left; reflexivity).
  revert H. webhook_paths; intro H; inversion H; subst; clear H;
    cbn [reservations set_payments set_payment_webhooks set_reservations];
    try exact Same.
  all: apply Forall2_map_r; intro r;
    destruct (String.eqb (r_id r) s); unfold reservation_step; auto.
Qed.

(** * The payment API *)

(** ** Preparing a payment *)

Lemma pending_accepted :
  forall reservationId db,
    reservation_update_refused reservationId None "pending" db = None.
Proof.
  intros reservationId db. unfold reservation_update_refused.
  destruct (negb _); reflexivity.
Qed.

(** X21.  [preparePayment] answers 200 with the order id, or it answers 400
    and leaves the store as it was, or it answers 500.  After a 500 the
    store is as it was, unless it was the update of the reservation that
    raised: the insert of the payment ran before it, outside a transaction,
    and the pending payment of the order stays in [payments], with an order
    id that was never sent to the client. *)
Theorem prepare_failure_writes_at_most_the_payment :
  forall customer_id select_fault insert_fault update_fault
         now timestamp randomStr req db answer db',
    preparePayment customer_id select_fault insert_fault update_fault
                   now timestamp randomStr req db
    = (answer, db') ->
    (exists orderId amount, answer = Sent 200 (Prepared orderId amount))
    \/ ((exists code message, answer = Sent 400 (Failure code message))
        /\ db' = db)
    \/ (answer = Sent 500 (Failure "PAYMENT_PREPARE_FAILED"
                             "결제 준비 중 오류가 발생했습니다")
        /\ (db' = db
            \/ (update_fault <> None
                /\ exists rid p,
                     or_null (q_reservation_id req) = Some rid
                     /\ db' = set_payments (payments db ++ [p]) db
                     /\ p_pg_order_id p = generateOrderId timestamp randomStr
                     /\ p_reservation_id p = Some rid
                     /\ p_status p = PENDING
                     /\ p_is_settled p = false))).
Proof.
  intros customer_id select_fault insert_fault update_fault
         now timestamp randomStr req db answer db' H.
  unfold preparePayment, createPayment, updateReservationPaymentStatus in H.
  rewrite ?pending_accepted in H.
  repeat match type of H with
         | context [if ?c then _ else _] => destruct c
         | context [match or_null ?x with _ => _ end] =>
             let R := fresh "Res" in destruct (or_null x) eqn:R
         | context [match validateReservation ?a ?b ?c ?d ?e with _ => _ end] =>
             destruct (validateReservation a b c d e)
         | context [match insert_fault with _ => _ end] => destruct insert_fault
         | context [match update_fault with _ => _ end] => destruct update_fault
         | context [match reservation_update_refused ?a ?b ?c ?d with _ => _ end] =>
             rewrite pending_accepted in H
         end;
    inversion H; subst; clear H;
    first [ left; eexists; eexists; reflexivity
          | right; left; split; [eexists; eexists; reflexivity | reflexivity]
          | right; right; split; [reflexivity |]; left; reflexivity
          | right; right; split; [reflexivity |]; right;
            split; [discriminate |];
            eexists; eexists; split; [reflexivity |];
            split; [reflexivity |]; repeat split ].
Qed.

(** X22.  A prepared payment waits: after a 200 the store has one more
    payment, pending and unsettled, with a new id, the generated order id,
    which no other payment has, and the amount of the request, at least 100
    and within the column; no window selects it for settlement, and
    webhooks and settlement tables are as they were. *)
Theorem prepared_payment_waits :
  forall customer_id select_fault insert_fault update_fault
         now timestamp randomStr req db orderId amount db',
    preparePayment customer_id select_fault insert_fault update_fault
                   now timestamp randomStr req db
    = (Sent 200 (Prepared orderId amount), db') ->
    (exists p,
       payments db' = payments db ++ [p]
       /\ p_pg_order_id p = orderId
       /\ p_amount_total p = amount
       /\ p_status p = PENDING
       /\ p_is_settled p = false
       /\ p_settlement_statement_id p = None
       /\ ~ In (p_id p) (map p_id (payments db))
       /\ ~ In orderId (map p_pg_order_id (payments db)))
    /\ q_amount req = Some amount
    /\ 100 <= amount <= INT_UNSIGNED_MAX
    /\ orderId = generateOrderId timestamp randomStr
    /\ (forall ps pe, select_eligible ps pe db' = select_eligible ps pe db)
    /\ payment_webhooks db' = payment_webhooks db
    /\ same_settlement_tables db' db.
Proof.
  intros customer_id select_fault insert_fault update_fault
         now timestamp randomStr req db orderId amount db' H.
  unfold preparePayment in H.
  destruct (negb (truthy_string (q_store_id req))
            || negb (truthy_string (q_user_id req))
            || falsy_number (q_amount req)
            || negb (truthy_string (q_order_name req))) eqn:Hv; [discriminate |].
  apply orb_false_iff in Hv. destruct Hv as [Hv _].
  apply orb_false_iff in Hv. destruct Hv as [_ Ha].
  destruct (or_number (q_amount req) 0 <? 100) eqn:Hm; [discriminate |].
  apply Z.ltb_ge in Hm.
  assert (Hq : q_amount req = Some (or_number (q_amount req) 0)).
  { unfold falsy_number in Ha. unfold or_number.
    destruct (q_amount req) as [n |]; [| discriminate]. rewrite Ha. reflexivity. }
  match type of H with
  | context [match ?v with Some _ => _ | None => _ end] =>
      destruct v; [discriminate |]
  end.
  unfold createPayment in H.
  destruct ((or_number (q_amount req) 0 <? 0)
            || (INT_UNSIGNED_MAX <? or_number (q_amount req) 0)) eqn:Hr;
    [discriminate |].
  apply orb_false_iff in Hr. destruct Hr as [_ Hr]. apply Z.ltb_ge in Hr.
  destruct (existsb _ (payments db)) eqn:Hd; [discriminate |].
  destruct insert_fault; [discriminate |].
  assert (Hu : forall d out d',
            updateReservationPaymentStatus update_fault now
              (q_reservation_id req) "pending" d = (out, d') ->
            payments d' = payments d
            /\ payment_webhooks d' = payment_webhooks d
            /\ same_settlement_tables d' d).
  { intros d out d' E. unfold updateReservationPaymentStatus in E.
    destruct (or_null (q_reservation_id req)); [| inversion E; repeat split].
    destruct update_fault; [inversion E; repeat split |].
    destruct (reservation_update_refused _ _ _ d);
      inversion E; subst; simpl; repeat split. }
  match type of H with
  | context [updateReservationPaymentStatus ?f ?n ?r ?t ?d] =>
      destruct (updateReservationPaymentStatus f n r t d) as [[u | e] d2] eqn:Eu;
        [| discriminate];
        destruct (Hu _ _ _ Eu) as (U1 & U2 & U3)
  end.
  inversion H; subst; clear H.
  split; [| split; [exact Hq | split; [lia | split; [reflexivity |]]]].
  - eexists. rewrite U1. cbn [payments set_payments].
    split; [reflexivity |]. cbn.
    repeat split; try reflexivity.
    + apply fresh_id_new.
    + intro Hin. apply in_map_iff in Hin. destruct Hin as (q & Eq & Hq').
      assert (Hex : existsb (fun p => String.eqb (p_pg_order_id p)
                                 (generateOrderId timestamp randomStr))
                            (payments db) = true).
      { apply existsb_exists. exists q. split; [exact Hq' |].
        apply String.eqb_eq. exact Eq. }
      congruence.
  - split; [| split].
    + intros ps pe. unfold select_eligible. rewrite U1. cbn [payments set_payments].
      rewrite filter_app. simpl. rewrite app_nil_r. reflexivity.
    + rewrite U2. reflexivity.
    + exact U3.
Qed.

(** ** A reservation that is paid *)

Lemma paid_after_done :
  forall fault webhookId now ev db db1 stmts pay rest rid,
    processWebhook fault webhookId now ev db
    = (Returned (mkReply true "Webhook processed successfully"), db1, stmts) ->
    ev_eventType ev = "PAYMENT_STATUS_CHANGED" ->
    ev_status ev = Some "DONE" ->
    filter (fun p => String.eqb (p_pg_order_id p) (ev_orderId ev)) (payments db)
    = pay :: rest ->
    or_null (p_reservation_id pay) = Some rid ->
    forall r, In r (reservations db1) -> r_id r = rid ->
              r_payment_status r = "paid".
Proof.
  intros fault webhookId now ev db db1 stmts pay rest rid H Ht Hs Hf Hr.
  revert H. webhook_unfold. rewrite Ht, Hs.
  change (mapTossStatusToOurStatus (property_key (Some "DONE")))
    with (Js.Str "SUCCESS").
  change (Js.value_eqb (Js.Str "SUCCESS") (Js.Str "SUCCESS")) with true.
  change (String.eqb "PAYMENT_STATUS_CHANGED" "PAYMENT_STATUS_CHANGED") with true.
  cbv iota.
  webhook_split; intro H; inversion H; subst; clear H;
    assert (payment = pay) by congruence; subst payment;
    try congruence.
  all: cbn [reservations set_reservations set_payments set_payment_webhooks];
    intros r Hin Hid; apply in_map_iff in Hin; destruct Hin as (r0 & Hr0 & _);
    assert (s = r_id r) by congruence; subst s;
    destruct (String.eqb (r_id r0) (r_id r)) eqn:Er; subst r; [reflexivity |];
    apply String.eqb_neq in Er; contradiction.
Qed.

(** X23.  After a DONE event has been processed for the payment of a
    reservation, no further payment can be prepared for that reservation:
    every request that names it is answered 400 and writes nothing. *)
Theorem paid_reservation_is_not_charged_again :
  forall fault webhookId now ev db db1 stmts payment others rid
         customer_id select_fault insert_fault update_fault
         now2 timestamp randomStr req,
    processWebhook fault webhookId now ev db
    = (Returned (mkReply true "Webhook processed successfully"), db1, stmts) ->
    ev_eventType ev = "PAYMENT_STATUS_CHANGED" ->
    ev_status ev = Some "DONE" ->
    filter (fun p => String.eqb (p_pg_order_id p) (ev_orderId ev)) (payments db)
    = payment :: others ->
    or_null (p_reservation_id payment) = Some rid ->
    or_null (q_reservation_id req) = Some rid ->
    exists code message,
      preparePayment customer_id select_fault insert_fault update_fault
                     now2 timestamp randomStr req db1
      = (Sent 400 (Failure code message), db1).
Proof.
  intros fault webhookId now ev db db1 stmts payment others rid
         customer_id select_fault insert_fault update_fault
         now2 timestamp randomStr req H Ht Hs Hf Hr Hq.
  pose proof (paid_after_done _ _ _ _ _ _ _ _ _ _ H Ht Hs Hf Hr) as Paid.
  unfold preparePayment.
  destruct (negb (truthy_string (q_store_id req))
            || negb (truthy_string (q_user_id req))
            || falsy_number (q_amount req)
            || negb (truthy_string (q_order_name req)));
    [eexists; eexists; reflexivity |].
  destruct (or_number (q_amount req) 0 <? 100); [eexists; eexists; reflexivity |].
  rewrite Hq. unfold validateReservation.
  destruct select_fault; [eexists; eexists; reflexivity |].
  destruct (filter _ (reservations db1)) as [| r rest] eqn:Hfil;
    [eexists; eexists; reflexivity |].
  assert (Hin : In r (r :: rest)) by (left; reflexivity).
  rewrite <- Hfil in Hin. apply filter_In in Hin. destruct Hin as [Hin Ho].
  unfold owned_by in Ho. apply andb_true_iff in Ho. destruct Ho as [Ho _].
  apply String.eqb_eq in Ho.
  rewrite (Paid r Hin Ho). simpl. eexists; eexists; reflexivity.
Qed.

(** ** Confirming a payment *)

Lemma unique_order_id :
  forall l p q,
    NoDup (map p_pg_order_id l) -> In p l -> In q l ->
    p_pg_order_id p = p_pg_order_id q -> p = q.
Proof. intros l p q. apply NoDup_map_injective. Qed.

Lemma first_found :
  forall (t : Payment -> bool) l x rest,
    filter t l = x :: rest -> In x l /\ t x = true.
Proof.
  intros t l x rest H.
  assert (Hin : In x (x :: rest)) by (left; reflexivity).
  rewrite <- H in Hin. apply filter_In in Hin. exact Hin.
Qed.

(** X24.  [confirmPayment] changes nothing but the payment of the order, and
    that only after the gateway approved: the row gets the key, the method
    and SUCCESS, and it was not SUCCESS before and has the amount of the
    request.  No path marks a payment FAILED.  The order ids are unique, as
    the index says. *)
Theorem confirmation_only_marks_success :
  forall now toss req db answer db',
    NoDup (map p_pg_order_id (payments db)) ->
    confirmPayment now toss req db = (answer, db') ->
    Forall2 (fun p p' =>
               p' = p
               \/ (p_status p <> SUCCESS
                   /\ c_amount req = Some (p_amount_total p)
                   /\ c_orderId req = Some (p_pg_order_id p)
                   /\ exists method,
                        toss = TossOk method
                        /\ p' = confirm_row now (or_string (c_paymentKey req) "")
                                  (or_string method "CARD") p))
            (payments db) (payments db')
    /\ reservations db' = reservations db
    /\ payment_webhooks db' = payment_webhooks db
    /\ same_settlement_tables db' db.
Proof.
  intros now toss req db answer db' ND H.
  assert (Same : forall R : Payment -> Payment -> Prop,
             (forall p, R p p) -> Forall2 R (payments db) (payments db))
    by (intros R HR; apply Forall2_same; exact HR).
  unfold confirmPayment in H.
  destruct (negb (truthy_string (c_paymentKey req))
            || negb (truthy_string (c_orderId req))
            || falsy_number (c_amount req)) eqn:Hv.
  { inversion H; subst. split; [apply Same; auto | repeat split]. }
  apply orb_false_iff in Hv. destruct Hv as [Hv Ha].
  apply orb_false_iff in Hv. destruct Hv as [_ Ho].
  destruct (filter _ (payments db)) as [| payment others] eqn:Hf.
  { inversion H; subst. split; [apply Same; auto | repeat split]. }
  destruct (first_found _ _ _ _ Hf) as [Hin Hoid]. apply String.eqb_eq in Hoid.
  destruct (negb (p_amount_total payment =? or_number (c_amount req) 0)) eqn:Hm.
  { inversion H; subst. split; [apply Same; auto | repeat split]. }
  apply negb_false_iff, Z.eqb_eq in Hm.
  destruct (PaymentStatus_eqb (p_status payment) SUCCESS) eqn:Hs.
  { inversion H; subst. split; [apply Same; auto | repeat split]. }
  destruct toss as [method | status message | message].
  2,3: inversion H; subst; split; [apply Same; auto | repeat split].
  destruct (key_taken _ _ db).
  { inversion H; subst. split; [apply Same; auto | repeat split]. }
  inversion H; subst; clear H. cbn [payments set_payments].
  split; [| repeat split].
  apply Forall2_map_r_In. intros p Hp.
  destruct (String.eqb (p_pg_order_id p) (or_string (c_orderId req) "")) eqn:Ep;
    [| left; reflexivity].
  apply String.eqb_eq in Ep.
  assert (p = payment) by (eapply unique_order_id; eauto; congruence).
  subst p. right.
  split; [intro E; rewrite E in Hs; discriminate |].
  split.
  { unfold falsy_number in Ha. unfold or_number in Hm.
    destruct (c_amount req) as [n |]; [| discriminate]. rewrite Ha in Hm.
    rewrite Hm. reflexivity. }
  split.
  { unfold truthy_string, or_null in Ho. unfold or_string in Ep, Hoid.
    destruct (c_orderId req) as [o |]; [| discriminate].
    destruct (String.eqb o ""); [discriminate |]. rewrite Ep. reflexivity. }
  exists method. split; reflexivity.
Qed.

(** X25.  When the gateway refuses a confirmation (it answers with an error
    status), the handler answers nothing itself and records nothing: its
    [catch] block reads [orderId], which is declared in the [try] block and
    out of scope there, so the update to FAILED is never reached and the
    promise of the handler rejects. *)
Theorem refused_confirmation_is_not_recorded :
  forall now status message req db key orderId payment others,
    c_paymentKey req = Some key -> key <> "" ->
    c_orderId req = Some orderId -> orderId <> "" ->
    filter (fun p => String.eqb (p_pg_order_id p) orderId) (payments db)
    = payment :: others ->
    c_amount req = Some (p_amount_total payment) ->
    p_amount_total payment <> 0 ->
    p_status payment <> SUCCESS ->
    confirmPayment now (TossRefused status message) req db
    = (Rejected "orderId is not defined", db).
Proof.
  intros now status message req db key orderId payment others
         Hk Hk' Ho Ho' Hf Ha Ha' Hs.
  apply String.eqb_neq in Hk', Ho'. apply Z.eqb_neq in Ha'.
  unfold confirmPayment, truthy_string, or_null, falsy_number, or_string,
    or_number.
  rewrite Hk, Ho, Ha, Hk', Ho', Ha'. cbn [negb orb]. rewrite Hf.
  rewrite Z.eqb_refl. cbn [negb].
  destruct (p_status payment); try reflexivity. exfalso. apply Hs. reflexivity.
Qed.


(** X27.  A payment confirmed through the API never confirms its
    reservation: [confirmPayment] leaves the reservations alone, and the
    DONE event that follows finds the payment at SUCCESS already, so it
    changes neither payments nor reservations. *)
Theorem api_confirmation_never_confirms_the_reservation :
  forall now toss req db db1 orderId fault webhookId now2 ev out db2 stmts,
    confirmPayment now toss req db = (Sent 200 Confirmed, db1) ->
    c_orderId req = Some orderId ->
    ev_orderId ev = orderId ->
    ev_status ev = Some "DONE" ->
    processWebhook fault webhookId now2 ev db1 = (out, db2, stmts) ->
    payments db2 = payments db1
    /\ reservations db2 = reservations db
    /\ filter writes_payments stmts = [].
Proof.
  intros now toss req db db1 orderId fault webhookId now2 ev out db2 stmts
         H Ho He Hs H2.
  unfold confirmPayment in H. cbv zeta in H.
  destruct (negb (truthy_string (c_paymentKey req))
            || negb (truthy_string (c_orderId req))
            || falsy_number (c_amount req)) eqn:Hv; [discriminate |].
  apply orb_false_iff in Hv. destruct Hv as [Hv _].
  apply orb_false_iff in Hv. destruct Hv as [_ Hv].
  assert (Eo : or_string (c_orderId req) "" = orderId).
  { unfold truthy_string, or_null in Hv. unfold or_string. rewrite Ho in *.
    destruct (String.eqb orderId ""); [discriminate | reflexivity]. }
  rewrite Eo in H.
  destruct (filter _ (payments db)) as [| payment others] eqn:Hf; [discriminate |].
  destruct (negb (p_amount_total payment =? _)); [discriminate |].
  destruct (PaymentStatus_eqb (p_status payment) SUCCESS); [discriminate |].
  destruct toss as [method | |]; try discriminate.
  destruct (key_taken _ orderId db); [discriminate |].
  inversion H; subst db1; clear H.
  assert (Q : quiescent ev
                (set_payments
                   (map (fun p =>
                           if String.eqb (p_pg_order_id p) orderId
                           then confirm_row now (or_string (c_paymentKey req) "")
                                  (or_string method "CARD") p
                           else p) (payments db)) db)).
  { right. cbn [payments set_payments]. rewrite He.
    rewrite found_after_update, Hf.
    2:{ intro p. destruct (String.eqb (p_pg_order_id p) orderId); reflexivity. }
    cbn [map]. destruct (first_found _ _ _ _ Hf) as [_ ->].
    left. rewrite Hs. reflexivity. }
  destruct (quiescent_no_write _ _ _ _ _ _ _ _ Q H2) as (A & B & C & _).
  split; [exact A |]. split; [exact B | exact C].
Qed.

(** ** Cancelling a payment *)

(** X28.  [cancelPayment] changes only rows with the payment key, only after
    the gateway accepted, and only when the payment found was SUCCESS; it
    sets the status and the dates and keeps the settled flag and the
    statement of the row, the reservations, the webhooks and the settlement
    tables: a settled payment stays in its statement when it is
    cancelled. *)
Theorem cancellation_keeps_the_settlement :
  forall now toss paymentKey cancelReason db answer db',
    cancelPayment now toss paymentKey cancelReason db = (answer, db') ->
    Forall2 (fun p p' =>
               p' = p
               \/ (p_pg_payment_key p = Some paymentKey
                   /\ (exists first_cancel, toss = CancelOk first_cancel)
                   /\ p' = cancel_row now p))
            (payments db) (payments db')
    /\ (db' <> db ->
        exists payment,
          In payment (payments db)
          /\ p_pg_payment_key payment = Some paymentKey
          /\ p_status payment = SUCCESS)
    /\ map settlement_columns (payments db') = map settlement_columns (payments db)
    /\ reservations db' = reservations db
    /\ payment_webhooks db' = payment_webhooks db
    /\ same_settlement_tables db' db.
Proof.
  intros now toss paymentKey cancelReason db answer db' H.
  assert (Same : Forall2 (fun p p' =>
                            p' = p
                            \/ (p_pg_payment_key p = Some paymentKey
                                /\ (exists first_cancel, toss = CancelOk first_cancel)
                                /\ p' = cancel_row now p))
                         (payments db) (payments db))
    by (apply Forall2_same; intro; left; reflexivity).
  assert (Key : forall p, has_key paymentKey p = true ->
                          p_pg_payment_key p = Some paymentKey).
  { intros p Hp. unfold has_key in Hp.
    destruct (p_pg_payment_key p) as [k |]; [| discriminate].
    apply String.eqb_eq in Hp. subst. reflexivity. }
  unfold cancelPayment in H.
  destruct (negb (truthy_string cancelReason)).
  { inversion H; subst. split; [exact Same |].
    split; [intro N; contradiction | repeat split]. }
  destruct (filter (has_key paymentKey) (payments db)) as [| payment others] eqn:Hf.
  { inversion H; subst. split; [exact Same |].
    split; [intro N; contradiction | repeat split]. }
  destruct (first_found _ _ _ _ Hf) as [Hin Hk].
  destruct (negb (PaymentStatus_eqb (p_status payment) SUCCESS)) eqn:Hs.
  { inversion H; subst. split; [exact Same |].
    split; [intro N; contradiction | repeat split]. }
  apply negb_false_iff in Hs.
  assert (Hst : p_status payment = SUCCESS)
    by (destruct (p_status payment); try discriminate; reflexivity).
  destruct toss as [first_cancel | status message | message].
  2,3: inversion H; subst; split; [exact Same |];
       split; [intro N; contradiction | repeat split].
  assert (Hd : db' = set_payments
                       (map (fun p => if has_key paymentKey p
                                      then cancel_row now p else p)
                            (payments db)) db)
    by (destruct first_cancel; inversion H; reflexivity).
  subst db'. cbn [payments set_payments reservations payment_webhooks].
  split; [| split; [| split; [| repeat split]]].
  - apply Forall2_map_r. intro p.
    destruct (has_key paymentKey p) eqn:Hp; [| left; reflexivity].
    right. split; [apply Key; exact Hp |].
    split; [exists first_cancel; reflexivity | reflexivity].
  - intros _. exists payment. split; [exact Hin |].
    split; [apply Key; exact Hk | exact Hst].
  - rewrite map_map. apply map_ext. intro p.
    destruct (has_key paymentKey p); reflexivity.
Qed.

(** X29.  After a cancellation through the API the payment is CANCELED, and
    an event for its order changes neither payments nor reservations: the
    reservation of a payment cancelled through the API is never released by
    the webhook.  The order ids are unique. *)
Theorem api_cancellation_never_reaches_the_reservation :
  forall now first_cancel paymentKey cancelReason db answer db1 payment others
         fault webhookId now2 ev out db2 stmts,
    NoDup (map p_pg_order_id (payments db)) ->
    filter (has_key paymentKey) (payments db) = payment :: others ->
    p_status payment = SUCCESS ->
    truthy_string cancelReason = true ->
    cancelPayment now (CancelOk first_cancel) paymentKey cancelReason db
    = (answer, db1) ->
    ev_orderId ev = p_pg_order_id payment ->
    processWebhook fault webhookId now2 ev db1 = (out, db2, stmts) ->
    In (cancel_row now payment) (payments db1)
    /\ payments db2 = payments db1
    /\ reservations db2 = reservations db
    /\ filter writes_payments stmts = [].
Proof.
  intros now first_cancel paymentKey cancelReason db answer db1 payment others
         fault webhookId now2 ev out db2 stmts ND Hf Hs Hr H He H2.
  destruct (first_found _ _ _ _ Hf) as [Hin Hk].
  unfold cancelPayment in H. rewrite Hr, Hf, Hs in H. cbn [negb PaymentStatus_eqb] in H.
  assert (Hd : db1 = set_payments
                       (map (fun p => if has_key paymentKey p
                                      then cancel_row now p else p)
                            (payments db)) db)
    by (destruct first_cancel; inversion H; reflexivity).
  clear H. subst db1.
  assert (In1 : In (cancel_row now payment)
                   (map (fun p => if has_key paymentKey p
                                  then cancel_row now p else p) (payments db))).
  { apply in_map_iff. exists payment. rewrite Hk. split; [reflexivity | exact Hin]. }
  assert (Q : quiescent ev
                (set_payments
                   (map (fun p => if has_key paymentKey p
                                  then cancel_row now p else p)
                        (payments db)) db)).
  { right. cbn [payments set_payments].
    rewrite found_after_update.
    2:{ intro p. destruct (has_key paymentKey p); reflexivity. }
    destruct (filter (fun p => String.eqb (p_pg_order_id p) (ev_orderId ev))
                     (payments db)) as [| found rest] eqn:Hfo; [exact I |].
    destruct (first_found _ _ _ _ Hfo) as [Hin' Ho]. apply String.eqb_eq in Ho.
    assert (found = payment)
      by (eapply unique_order_id; eauto; congruence).
    subst found. cbn [map]. rewrite Hk. left. reflexivity. }
  destruct (quiescent_no_write _ _ _ _ _ _ _ _ Q H2) as (A & B & C & _).
  split; [exact In1 |]. split; [exact A |]. split; [exact B | exact C].
Qed.

(** ** The properties above on the example stores *)

Lemma invalid_period_is_refused_witness :
  runSettlementPeriod quiet (DateAt 50) (DateAt 50) false ledger
  = (Threw "periodEnd 는 periodStart 보다 이후여야 합니다.", ledger).
Proof.
  destruct (invalid_period_is_refused quiet (DateAt 50) (DateAt 50) false ledger)
    as (m & H & _ & _ & H3).
  - intros ps pe E1 E2. inversion E1. inversion E2. lia.
  - rewrite H, (H3 50 50 eq_refl eq_refl). reflexivity.
Defined.

Lemma run_over_an_empty_window_witness :
  runSettlementPeriod quiet (DateAt 100) (DateAt 200) true ledger
  = (Returned NoopReport,
     set_settlement_logs
       [mkLogRow 1 100 (Some 100) 100 200 Log_noop "정산 대상 없음" None
                 0 0 0 0 0 0] ledger).
Proof.
  apply (run_over_an_empty_window quiet 100 200 true ledger);
    [lia | reflexivity | reflexivity | reflexivity | reflexivity].
Defined.

Lemma thrown_run_changes_nothing_witness :
  log_engine item_fails = InnoDB
  /\ runSettlementPeriod item_fails (DateAt 0) (DateAt 50) false ledger
     = (Threw "Duplicate entry", ledger)
  /\ ledger = ledger.
Proof.
  assert (H2 : log_engine item_fails = InnoDB) by reflexivity.
  assert (H3 : runSettlementPeriod item_fails (DateAt 0) (DateAt 50) false ledger
               = (Threw "Duplicate entry", ledger))
    by (vm_compute; reflexivity).
  split; [exact H2 |]. split; [exact H3 |].
  exact (thrown_run_changes_nothing item_fails (DateAt 0) (DateAt 50) false
           ledger "Duplicate entry" ledger H2 H3).
Defined.

Lemma every_payment_is_counted_once_witness :
  runSettlementPeriod quiet (DateAt 0) (DateAt 50) false ledger
  = (Returned settled_report, snd settled_ledger)
  /\ (report_successPaymentCount settled_report
      + report_skippedPaymentCount settled_report
      = report_totalPayments settled_report
      /\ 0 <= report_successPaymentCount settled_report
      /\ 0 <= report_skippedPaymentCount settled_report).
Proof.
  assert (H : runSettlementPeriod quiet (DateAt 0) (DateAt 50) false ledger
              = (Returned settled_report, snd settled_ledger))
    by (vm_compute; reflexivity).
  split; [exact H |].
  exact (every_payment_is_counted_once quiet (DateAt 0) (DateAt 50) ledger
           settled_report (snd settled_ledger) H).
Defined.

Lemma report_totals_are_sums_witness :
  report_totalStatements settled_report = count (report_settlements settled_report)
  /\ report_totalCommission settled_report
     = sum_commission (report_settlements settled_report)
  /\ report_totalPayout settled_report
     = sum_payout (report_settlements settled_report)
  /\ report_totalCommission settled_report + report_totalPayout settled_report
     = sum_sales (report_settlements settled_report).
Proof.
  apply (report_totals_are_sums quiet (DateAt 0) (DateAt 50) ledger
           settled_report (snd settled_ledger)).
  vm_compute. reflexivity.
Defined.

Lemma report_lists_the_statements_written_witness :
  exists L,
    settlement_statements (snd settled_ledger) = settlement_statements ledger ++ L
    /\ report_settlements settled_report = map entry_of_statement L
    /\ NoDup (map s_store_id L)
    /\ Forall (fun st => s_period_start st = 0 /\ s_period_end st = 50
                         /\ s_status st = St_pending
                         /\ s_commission_rate st = commission_rate_decimal) L.
Proof.
  apply (report_lists_the_statements_written quiet 0 50 ledger settled_report
           (snd settled_ledger)).
  vm_compute. reflexivity.
Defined.

Lemma run_settles_only_eligible_payments_witness :
  Forall2 (fun p p' =>
             p' = p
             \/ (eligible 0 50 p = true
                 /\ 0 < sum_amounts (rows_of_store (p_store_id p)
                                                   (select_eligible 0 50 ledger))
                 /\ exists sid, p' = settle (clock quiet) sid p))
          (payments ledger) (payments (snd settled_ledger)).
Proof.
  apply (run_settles_only_eligible_payments quiet 0 50 ledger settled_report
           (snd settled_ledger)).
  - simpl. repeat constructor; simpl; lia.
  - vm_compute. reflexivity.
Defined.

Lemma no_payment_is_settled_twice_witness :
  settled_once ledger /\ settled_once (snd settled_ledger).
Proof.
  assert (H : settled_once ledger).
  { split; [constructor | intros it p []]. }
  split; [exact H |].
  apply (no_payment_is_settled_twice quiet (DateAt 0) (DateAt 50) false ledger
           (Returned settled_report) (snd settled_ledger) H).
  vm_compute. reflexivity.
Defined.

Lemma error_logging_never_changes_a_run_witness :
  same_but_error_faults item_fails_untransacted item_fails_unlogged
  /\ fst (runSettlementPeriod item_fails_untransacted (DateAt 0) (DateAt 50)
            false ledger)
     = fst (runSettlementPeriod item_fails_unlogged (DateAt 0) (DateAt 50)
              false ledger)
  /\ same_but_errors
       (snd (runSettlementPeriod item_fails_untransacted (DateAt 0) (DateAt 50)
               false ledger))
       (snd (runSettlementPeriod item_fails_unlogged (DateAt 0) (DateAt 50)
               false ledger)).
Proof.
  assert (H : same_but_error_faults item_fails_untransacted item_fails_unlogged).
  { repeat split; try reflexivity.
    intros q Hq. destruct q; try reflexivity.
    exfalso. apply (Hq type). reflexivity. }
  split; [exact H |].
  exact (error_logging_never_changes_a_run item_fails_untransacted
           item_fails_unlogged H (DateAt 0) (DateAt 50) false ledger).
Defined.

Lemma run_log_agrees_with_report_witness :
  exists row,
    settlement_logs (snd settled_ledger) = settlement_logs ledger ++ [row]
    /\ ~ In (l_id row) (map l_id (settlement_logs ledger))
    /\ l_period_start row = 0 /\ l_period_end row = 50
    /\ l_started_at row = clock quiet /\ l_ended_at row = Some (clock quiet)
    /\ l_status row = report_status settled_report
    /\ l_error_message row = None
    /\ l_total_payments row = report_totalPayments settled_report
    /\ l_total_statements row = report_totalStatements settled_report
    /\ l_success_payments row = report_successPaymentCount settled_report
    /\ l_skipped_payments row = report_skippedPaymentCount settled_report
    /\ l_total_payout row = report_totalPayout settled_report
    /\ l_total_commission row = report_totalCommission settled_report.
Proof.
  apply (run_log_agrees_with_report quiet 0 50 false ledger settled_report
           (snd settled_ledger)).
  vm_compute. reflexivity.
Defined.




Lemma webhook_moves_along_the_table_witness :
  Forall2 along_the_table (payments pending_ledger)
          (payments (snd (fst first_delivery))).
Proof.
  apply (webhook_moves_along_the_table no_fault "webhook-1" 1000 done_event
           pending_ledger (fst (fst first_delivery)) (snd (fst first_delivery))
           (snd first_delivery)).
  - simpl. repeat constructor; simpl; lia.
  - vm_compute. reflexivity.
Defined.

Lemma webhook_keeps_the_settlement_state_witness :
  settlement_statements (snd (fst first_delivery))
  = settlement_statements pending_ledger
  /\ settlement_items (snd (fst first_delivery)) = settlement_items pending_ledger
  /\ settlement_logs (snd (fst first_delivery)) = settlement_logs pending_ledger
  /\ settlement_errors (snd (fst first_delivery))
     = settlement_errors pending_ledger
  /\ map settlement_columns (payments (snd (fst first_delivery)))
     = map settlement_columns (payments pending_ledger)
  /\ map r_id (reservations (snd (fst first_delivery)))
     = map r_id (reservations pending_ledger)
  /\ exists rows,
       payment_webhooks (snd (fst first_delivery))
       = payment_webhooks pending_ledger ++ rows
       /\ (List.length rows <= 1)%nat.
Proof.
  apply (webhook_keeps_the_settlement_state no_fault "webhook-1" 1000 done_event
           pending_ledger (fst (fst first_delivery)) (snd (fst first_delivery))
           (snd first_delivery)).
  vm_compute. reflexivity.
Defined.

Lemma processed_event_never_applies_again_witness :
  payments (snd (fst (processWebhook lock_timeout "webhook-2" 9000 done_event
                        (snd (fst first_delivery)))))
  = payments (snd (fst first_delivery))
  /\ reservations (snd (fst (processWebhook lock_timeout "webhook-2" 9000
                               done_event (snd (fst first_delivery)))))
     = reservations (snd (fst first_delivery))
  /\ filter writes_payments
            (snd (processWebhook lock_timeout "webhook-2" 9000 done_event
                    (snd (fst first_delivery)))) = []
  /\ filter writes_reservations
            (snd (processWebhook lock_timeout "webhook-2" 9000 done_event
                    (snd (fst first_delivery)))) = [].
Proof.
  apply (processed_event_never_applies_again no_fault "webhook-1" 1000
           done_event pending_ledger
           (mkReply true "Webhook processed successfully")
           (snd (fst first_delivery)) (snd first_delivery)
           lock_timeout "webhook-2" 9000
           (fst (fst (processWebhook lock_timeout "webhook-2" 9000 done_event
                        (snd (fst first_delivery)))))).
  - vm_compute. reflexivity.
  - vm_compute. discriminate.
  - vm_compute. reflexivity.
Defined.

Lemma terminal_payment_is_final_witness :
  In (mkPayment 7 "M" None 5000 None "order-7" "CARD" FAILED None None 0
                false None)
     (payments (deliver_all [mkDelivery no_fault "webhook-1" 1000 done_event;
                             mkDelivery lock_timeout "webhook-2" 9000
                                        cancel_event] failed_ledger)).
Proof.
  apply (terminal_payment_is_final
           [mkDelivery no_fault "webhook-1" 1000 done_event;
            mkDelivery lock_timeout "webhook-2" 9000 cancel_event]
           failed_ledger).
  - simpl. repeat constructor; simpl; lia.
  - left. reflexivity.
  - left. reflexivity.
Defined.


Lemma webhook_reservation_values_witness :
  Forall2 (reservation_step 1000) (reservations booked_ledger)
          (reservations (snd (fst booked_delivery)))
  /\ In "confirmed" reservation_status_values
  /\ In "paid" reservation_payment_status_values
  /\ In "refunded" reservation_payment_status_values
  /\ ~ In "canceled" reservation_status_values
  /\ ~ In "failed" reservation_payment_status_values
  /\ Forall2 (reservation_confirmed 1000) (reservations booked_ledger)
             (reservations (snd (fst booked_delivery))).
Proof.
  apply (webhook_reservation_values no_fault "webhook-1" 1000 done_event
           booked_ledger (fst (fst booked_delivery)) (snd (fst booked_delivery))
           (snd booked_delivery)).
  vm_compute. reflexivity.
Defined.

Lemma prepare_failure_writes_at_most_the_payment_witness :
  preparePayment owner None None (Some "Lock wait timeout exceeded")
                 1000 1700000000000 "K3J9QX" rebooking booked_ledger
  = half_prepared
  /\ snd half_prepared <> booked_ledger
  /\ ((exists orderId amount,
         fst half_prepared = Sent 200 (Prepared orderId amount))
      \/ ((exists code message,
             fst half_prepared = Sent 400 (Failure code message))
          /\ snd half_prepared = booked_ledger)
      \/ (fst half_prepared
          = Sent 500 (Failure "PAYMENT_PREPARE_FAILED"
                        "결제 준비 중 오류가 발생했습니다")
          /\ (snd half_prepared = booked_ledger
              \/ (Some "Lock wait timeout exceeded" <> None
                  /\ exists rid p,
                       or_null (q_reservation_id rebooking) = Some rid
                       /\ snd half_prepared
                          = set_payments (payments booked_ledger ++ [p])
                                         booked_ledger
                       /\ p_pg_order_id p
                          = generateOrderId 1700000000000 "K3J9QX"
                       /\ p_reservation_id p = Some rid
                       /\ p_status p = PENDING
                       /\ p_is_settled p = false)))).
Proof.
  split; [reflexivity |]. split; [discriminate |].
  apply (prepare_failure_writes_at_most_the_payment owner None None
           (Some "Lock wait timeout exceeded") 1000 1700000000000 "K3J9QX"
           rebooking booked_ledger).
  reflexivity.
Defined.

Lemma prepared_payment_waits_witness :
  (exists p,
      payments (snd (preparePayment owner None None None 1000 1700000000000
                       "K3J9QX" walk_in ledger))
      = payments ledger ++ [p]
      /\ p_pg_order_id p = "ORDER_1700000000000_K3J9QX"
      /\ p_amount_total p = 5000
      /\ p_status p = PENDING
      /\ p_is_settled p = false
      /\ p_settlement_statement_id p = None
      /\ ~ In (p_id p) (map p_id (payments ledger))
      /\ ~ In "ORDER_1700000000000_K3J9QX" (map p_pg_order_id (payments ledger)))
  /\ q_amount walk_in = Some 5000
  /\ 100 <= 5000 <= INT_UNSIGNED_MAX
  /\ "ORDER_1700000000000_K3J9QX" = generateOrderId 1700000000000 "K3J9QX"
  /\ (forall ps pe,
        select_eligible ps pe
          (snd (preparePayment owner None None None 1000 1700000000000 "K3J9QX"
                  walk_in ledger))
        = select_eligible ps pe ledger)
  /\ payment_webhooks
       (snd (preparePayment owner None None None 1000 1700000000000 "K3J9QX"
               walk_in ledger))
     = payment_webhooks ledger
  /\ same_settlement_tables
       (snd (preparePayment owner None None None 1000 1700000000000 "K3J9QX"
               walk_in ledger))
       ledger.
Proof.
  apply (prepared_payment_waits owner None None None 1000 1700000000000 "K3J9QX"
           walk_in ledger).
  vm_compute. reflexivity.
Defined.

Lemma paid_reservation_is_not_charged_again_witness :
  exists code message,
    preparePayment owner None None None 2000 1700000000000 "K3J9QX" rebooking
      (snd (fst booked_delivery))
    = (Sent 400 (Failure code message), snd (fst booked_delivery)).
Proof.
  apply (paid_reservation_is_not_charged_again no_fault "webhook-1" 1000
           done_event booked_ledger (snd (fst booked_delivery))
           (snd booked_delivery)
           (mkPayment 7 "M" (Some "res-1") 5000 None "order-7" "UNKNOWN" PENDING
                      None None 0 false None) [] "res-1");
    reflexivity.
Defined.

Lemma confirmation_only_marks_success_witness :
  Forall2 (fun p p' =>
             p' = p
             \/ (p_status p <> SUCCESS
                 /\ c_amount confirmation = Some (p_amount_total p)
                 /\ c_orderId confirmation = Some (p_pg_order_id p)
                 /\ exists method,
                      TossOk (Some "CARD") = TossOk method
                      /\ p' = confirm_row 1000
                                (or_string (c_paymentKey confirmation) "")
                                (or_string method "CARD") p))
          (payments pending_ledger)
          (payments (snd (confirmPayment 1000 (TossOk (Some "CARD")) confirmation
                            pending_ledger)))
  /\ reservations (snd (confirmPayment 1000 (TossOk (Some "CARD")) confirmation
                          pending_ledger))
     = reservations pending_ledger
  /\ payment_webhooks (snd (confirmPayment 1000 (TossOk (Some "CARD"))
                              confirmation pending_ledger))
     = payment_webhooks pending_ledger
  /\ same_settlement_tables
       (snd (confirmPayment 1000 (TossOk (Some "CARD")) confirmation
               pending_ledger))
       pending_ledger.
Proof.
  apply (confirmation_only_marks_success 1000 (TossOk (Some "CARD")) confirmation
           pending_ledger
           (fst (confirmPayment 1000 (TossOk (Some "CARD")) confirmation
                   pending_ledger))).
  - simpl. repeat constructor; simpl; tauto.
  - apply surjective_pairing.
Defined.

Lemma refused_confirmation_is_not_recorded_witness :
  confirmPayment 1000 (TossRefused 400 (Some "INVALID_CARD")) confirmation
    pending_ledger
  = (Rejected "orderId is not defined", pending_ledger).
Proof.
  apply (refused_confirmation_is_not_recorded 1000 400 (Some "INVALID_CARD")
           confirmation pending_ledger "pk-7" "order-7"
           (mkPayment 7 "M" None 5000 None "order-7" "UNKNOWN" PENDING None None 0
                      false None) []);
    try reflexivity; discriminate.
Defined.


Lemma api_confirmation_never_confirms_the_reservation_witness :
  payments
    (snd (fst (processWebhook no_fault "webhook-1" 2000 done_event
                 (snd (confirmPayment 1000 (TossOk None) confirmation
                         booked_ledger)))))
  = payments (snd (confirmPayment 1000 (TossOk None) confirmation booked_ledger))
  /\ reservations
       (snd (fst (processWebhook no_fault "webhook-1" 2000 done_event
                    (snd (confirmPayment 1000 (TossOk None) confirmation
                            booked_ledger)))))
     = reservations booked_ledger
  /\ filter writes_payments
       (snd (processWebhook no_fault "webhook-1" 2000 done_event
               (snd (confirmPayment 1000 (TossOk None) confirmation
                       booked_ledger)))) = [].
Proof.
  apply (api_confirmation_never_confirms_the_reservation 1000 (TossOk None)
           confirmation booked_ledger
           (snd (confirmPayment 1000 (TossOk None) confirmation booked_ledger))
           "order-7" no_fault "webhook-1" 2000 done_event
           (fst (fst (processWebhook no_fault "webhook-1" 2000 done_event
                        (snd (confirmPayment 1000 (TossOk None) confirmation
                                booked_ledger))))));
    reflexivity.
Defined.

Lemma cancellation_keeps_the_settlement_witness :
  Forall2 (fun p p' =>
             p' = p
             \/ (p_pg_payment_key p = Some "pk-7"
                 /\ (exists first_cancel, CancelOk true = CancelOk first_cancel)
                 /\ p' = cancel_row 3000 p))
          (payments (snd (fst first_delivery)))
          (payments (snd (cancelPayment 3000 (CancelOk true) "pk-7"
                            (Some "customer request") (snd (fst first_delivery)))))
  /\ (snd (cancelPayment 3000 (CancelOk true) "pk-7" (Some "customer request")
             (snd (fst first_delivery))) <> snd (fst first_delivery) ->
      exists payment,
        In payment (payments (snd (fst first_delivery)))
        /\ p_pg_payment_key payment = Some "pk-7"
        /\ p_status payment = SUCCESS)
  /\ map settlement_columns
         (payments (snd (cancelPayment 3000 (CancelOk true) "pk-7"
                           (Some "customer request") (snd (fst first_delivery)))))
     = map settlement_columns (payments (snd (fst first_delivery)))
  /\ reservations (snd (cancelPayment 3000 (CancelOk true) "pk-7"
                          (Some "customer request") (snd (fst first_delivery))))
     = reservations (snd (fst first_delivery))
  /\ payment_webhooks (snd (cancelPayment 3000 (CancelOk true) "pk-7"
                              (Some "customer request")
                              (snd (fst first_delivery))))
     = payment_webhooks (snd (fst first_delivery))
  /\ same_settlement_tables
       (snd (cancelPayment 3000 (CancelOk true) "pk-7" (Some "customer request")
               (snd (fst first_delivery))))
       (snd (fst first_delivery)).
Proof.
  apply (cancellation_keeps_the_settlement 3000 (CancelOk true) "pk-7"
           (Some "customer request") (snd (fst first_delivery))
           (fst (cancelPayment 3000 (CancelOk true) "pk-7"
                   (Some "customer request") (snd (fst first_delivery))))).
  apply surjective_pairing.
Defined.

Lemma api_cancellation_never_reaches_the_reservation_witness :
  In (cancel_row 3000
        (mkPayment 7 "M" (Some "res-1") 5000 (Some "pk-7") "order-7" "CARD"
                   SUCCESS (Some 1000) None 1000 false None))
     (payments (snd (cancelPayment 3000 (CancelOk true) "pk-7"
                       (Some "customer request") (snd (fst booked_delivery)))))
  /\ payments
       (snd (fst (processWebhook no_fault "webhook-2" 4000 cancel_event
                    (snd (cancelPayment 3000 (CancelOk true) "pk-7"
                            (Some "customer request")
                            (snd (fst booked_delivery)))))))
     = payments (snd (cancelPayment 3000 (CancelOk true) "pk-7"
                        (Some "customer request") (snd (fst booked_delivery))))
  /\ reservations
       (snd (fst (processWebhook no_fault "webhook-2" 4000 cancel_event
                    (snd (cancelPayment 3000 (CancelOk true) "pk-7"
                            (Some "customer request")
                            (snd (fst booked_delivery)))))))
     = reservations (snd (fst booked_delivery))
  /\ filter writes_payments
       (snd (processWebhook no_fault "webhook-2" 4000 cancel_event
               (snd (cancelPayment 3000 (CancelOk true) "pk-7"
                       (Some "customer request") (snd (fst booked_delivery))))))
     = [].
Proof.
  apply (api_cancellation_never_reaches_the_reservation 3000 true "pk-7"
           (Some "customer request") (snd (fst booked_delivery))
           (fst (cancelPayment 3000 (CancelOk true) "pk-7"
                   (Some "customer request") (snd (fst booked_delivery))))
           (snd (cancelPayment 3000 (CancelOk true) "pk-7"
                   (Some "customer request") (snd (fst booked_delivery))))
           (mkPayment 7 "M" (Some "res-1") 5000 (Some "pk-7") "order-7" "CARD"
                      SUCCESS (Some 1000) None 1000 false None) []
           no_fault "webhook-2" 4000 cancel_event
           (fst (fst (processWebhook no_fault "webhook-2" 4000 cancel_event
                        (snd (cancelPayment 3000 (CancelOk true) "pk-7"
                                (Some "customer request")
                                (snd (fst booked_delivery))))))));
    try reflexivity.
  simpl. repeat constructor; simpl; tauto.
Defined.
